(** * Wanderlust Travel: search, display and favourites logic

    A shallow embedding of the client-side logic of [assets/js/script.js]
    and [assets/js/features.js]: input validation, the cancellable country
    search with its submit handlers, card and marker rendering, the featured
    destinations loader and the favourites store; then the request URL,
    the region filters and the sorting of the results, the heart buttons,
    the timer of the feedback, the View on Map button and the heading of
    the results.

    Conventions.
    - A JavaScript string is the list of its UTF-16 code units.
    - The document is a set of finite maps from element ids to the part of
      the element's state the script reads or writes; an id that is not a
      key is an element that [document.getElementById] does not find.
    - An [async] function is a resumable computation: the state records the
      suspended calls, and an event of the environment (a submit, a settled
      [fetch], a settled body read) runs the code up to the next [await].
    - Aborting a signal makes the promise that its call awaits reject with
      an [AbortError]; the rejection reaches the call as the next
      settlement of that promise, whatever the network would have
      answered.
    - Effects on parts of the page that no function reads back (heading
      texts, scrolling, focus, inline styles, auto-hide timers) are not
      recorded in the page of the searches; the heading texts and the
      timer of the feedback have models of their own. *)

From Stdlib Require Import ZArith NArith QArith Qabs Qminmax Floats Uint63 Lia Lqa ZifyBool.
From stdpp Require Import gmap strings list pretty.
From stdpp Require Import sorting.

Close Scope Q_scope.

(** ** JavaScript values *)

Module Js.

(** UTF-16 code units. *)
Abbreviation jsstring := (list N).

(** The code units of an ASCII literal. *)
Definition js (s : string) : jsstring :=
  Ascii.N_of_ascii <$> String.list_ascii_of_string s.

(** [WhiteSpace] and [LineTerminator] of ECMAScript: what
    [String.prototype.trim] strips and what [\s] matches. *)
Definition is_whitespace (c : N) : bool :=
  ((9 <=? c) && (c <=? 13)
   || (c =? 32) || (c =? 0xA0) || (c =? 0x1680)
   || ((0x2000 <=? c) && (c <=? 0x200A))
   || (c =? 0x2028) || (c =? 0x2029) || (c =? 0x202F)
   || (c =? 0x205F) || (c =? 0x3000) || (c =? 0xFEFF))%N.

Fixpoint trimStart (s : jsstring) : jsstring :=
  match s with
  | [] => []
  | c :: s' => if is_whitespace c then trimStart s' else s
  end.

Definition trimEnd (s : jsstring) : jsstring := reverse (trimStart (reverse s)).

Definition trim (s : jsstring) : jsstring := trimEnd (trimStart s).

(** [Array.prototype.join]. *)
Fixpoint join (sep : jsstring) (l : list jsstring) : jsstring :=
  match l with
  | [] => []
  | [x] => x
  | x :: l' => x ++ sep ++ join sep l'
  end.

(** [x ? x : d] for a string-valued property that may be missing: the
    empty string is falsy. *)
Definition or_else (x : option jsstring) (d : jsstring) : jsstring :=
  match x with
  | Some (c :: s) => c :: s
  | _ => d
  end.

(** *** Numbers

    A JSON integer [n] (below 2^63) becomes the double nearest to it, and
    [/] is the IEEE 754 division. *)
Definition number (n : N) : float := PrimFloat.of_uint63 (Uint63.of_Z (Z.of_N n)).

(** A positive finite double as [m * 2 ^ k]. *)
Definition mantissa_exponent (x : float) : Z * Z :=
  let '(m, e) := PrimFloat.frshiftexp x in
  (Uint63.to_Z (PrimFloat.normfr_mantissa m), Uint63.to_Z e - FloatOps.shift - 53)%Z.

(** The integer nearest to [num / den], the larger one of two. *)
Definition round_half_up (num den : Z) : Z := ((2 * num + den) / (2 * den))%Z.

(** The integer [n] for which [n / 10 ^ digits - x] is as close to zero as
    possible, the larger one if there are two (step 10 of
    [Number.prototype.toFixed]); [x] is taken at its exact binary value. *)
Definition nearest_scaled (digits : nat) (x : float) : Z :=
  let '(m, k) := mantissa_exponent x in
  let s := (m * 10 ^ Z.of_nat digits)%Z in
  if (0 <=? k)%Z then (s * 2 ^ k)%Z else round_half_up s (2 ^ (- k)).

Fixpoint fraction_digits (digits : nat) (n : Z) : string :=
  match digits with
  | O => EmptyString
  | S d => pretty (Z.to_N ((n / 10 ^ Z.of_nat d) mod 10)) +:+ fraction_digits d n
  end.

(** [x.toFixed(digits)] for [0 <= x < 1e21]. *)
Definition toFixed (digits : nat) (x : float) : jsstring :=
  let n := nearest_scaled digits x in
  let whole := pretty (Z.to_N (n / 10 ^ Z.of_nat digits)) in
  match digits with
  | O => js whole
  | S _ => js (whole +:+ "." +:+ fraction_digits digits n)
  end.

End Js.
Import Js.

(** ** The map surface

    Leaflet is an external collaborator.  Only what [displayResults] asks of
    it is kept: markers with a position and a popup, the tightest box around
    a group of markers ([getBounds]), the box grown by a ratio of its height
    and width on each side ([pad]) and the view last requested of a map.
    Coordinates are rationals.  A marker is on the map from its creation
    ([addTo]) until [remove], so the markers on a map are those of the array
    that [displayResults] keeps for it. *)

Module Leaflet.

Record LatLng := { lat : Q; lng : Q }.

Record marker := { position : LatLng; popup : jsstring }.

Record LatLngBounds := { southWest : LatLng; northEast : LatLng }.

Definition extend (b : LatLngBounds) (p : LatLng) : LatLngBounds :=
  {| southWest := {| lat := Qmin (lat (southWest b)) (lat p);
                     lng := Qmin (lng (southWest b)) (lng p) |};
     northEast := {| lat := Qmax (lat (northEast b)) (lat p);
                     lng := Qmax (lng (northEast b)) (lng p) |} |}.

(** [L.featureGroup(markers).getBounds()]; an empty group has no valid
    bounds. *)
Definition getBounds (group : list marker) : option LatLngBounds :=
  match group with
  | [] => None
  | m :: ms =>
      Some (foldl (λ b m', extend b (position m'))
                  {| southWest := position m; northEast := position m |} ms)
  end.

Definition pad (b : LatLngBounds) (bufferRatio : Q) : LatLngBounds :=
  let heightBuffer := (Qabs (lat (southWest b) - lat (northEast b)) * bufferRatio)%Q in
  let widthBuffer := (Qabs (lng (southWest b) - lng (northEast b)) * bufferRatio)%Q in
  {| southWest := {| lat := (lat (southWest b) - heightBuffer)%Q;
                     lng := (lng (southWest b) - widthBuffer)%Q |};
     northEast := {| lat := (lat (northEast b) + heightBuffer)%Q;
                     lng := (lng (northEast b) + widthBuffer)%Q |} |}.

Definition contains (b : LatLngBounds) (p : LatLng) : Prop :=
  (lat (southWest b) <= lat p)%Q ∧ (lat p <= lat (northEast b))%Q ∧
  (lng (southWest b) <= lng p)%Q ∧ (lng p <= lng (northEast b))%Q.

Inductive view :=
| SetView (center : LatLng) (zoom : Z)
| FitBounds (b : LatLngBounds).

Record leaflet_map := { current_view : view }.

End Leaflet.
Import Leaflet.

(** ** script.js *)

Module Script.

(** *** Input validation (lines 121-158) *)

Record validation := { valid : bool; message : jsstring }.

Definition msg_empty : jsstring := js "Please enter a country name to search.".
Definition msg_too_short : jsstring := js "Search must be at least 2 characters long.".
Definition msg_too_long : jsstring := js "Search term is too long. Please shorten it.".
Definition msg_bad_chars : jsstring := js "Please enter a valid country name (letters only).".

(** The character class [[a-zA-ZÀ-ÿ\s\-']] of the format check. *)
Definition in_class (c : N) : bool :=
  ((97 <=? c) && (c <=? 122)
   || (65 <=? c) && (c <=? 90)
   || (0xC0 <=? c) && (c <=? 0xFF)
   || is_whitespace c
   || (c =? 45) || (c =? 39))%N.

(** [/^[a-zA-ZÀ-ÿ\s\-']+$/.test(s)] *)
Definition format_test (s : jsstring) : bool :=
  match s with
  | [] => false
  | _ => forallb in_class s
  end.

Definition validateSearchInput (value : jsstring) : validation :=
  match value, trim value with
  | [], _ | _, [] => {| valid := false; message := msg_empty |}
  | _, _ =>
      let trimmed := trim value in
      if (length trimmed <? 2)%nat then
        {| valid := false; message := msg_too_short |}
      else if (100 <? length trimmed)%nat then
        {| valid := false; message := msg_too_long |}
      else if negb (format_test trimmed) then
        {| valid := false; message := msg_bad_chars |}
      else {| valid := true; message := [] |}
  end.

(** *** Country objects of the REST Countries API

    The fields that the script consumes; every one may be missing.
    [name_common] is [country.name.common] (missing when [name] is),
    [currencies] maps a code to the [name] of its currency object and
    [languages] a code to a display name, both in key order. *)

Record country := {
  name_common : option jsstring;
  flags_svg : option jsstring;
  flags_png : option jsstring;
  region : option jsstring;
  subregion : option jsstring;
  population : option N;
  capital : option (list jsstring);
  currencies : option (list (jsstring * jsstring));
  languages : option (list (jsstring * jsstring));
  latlng : option (list Q)
}.

(** *** Destination cards (lines 291-408)

    A card is kept as the values that [createCountryCard] extracts and
    writes into the card's markup. *)

Record card := {
  card_name : jsstring;
  card_flag : jsstring;
  card_region : jsstring;
  card_subregion : jsstring;
  card_population : jsstring;
  card_capital : jsstring;
  card_currencies : jsstring;
  card_languages : jsstring;
  card_lat : option Q;
  card_lng : option Q
}.

Definition createCountryCard (country : country) : card :=
  let name := or_else (name_common country) (js "Unknown") in
  let flag := or_else (flags_svg country) (or_else (flags_png country) []) in
  let region := or_else (region country) (js "Unknown Region") in
  let subregion := or_else (subregion country) [] in
  let population :=
    match population country with
    | Some 0%N | None => js "N/A"
    | Some p =>
        if (1000000 <=? p)%N then toFixed 1 (number p / number 1000000) ++ js "M"
        else if (1000 <=? p)%N then toFixed 0 (number p / number 1000) ++ js "K"
        else js (pretty p)
    end in
  let capital :=
    match capital country with
    | Some (first :: _) => first
    | _ => js "N/A"
    end in
  let currencies :=
    match currencies country with
    | Some byCode => join (js ", ") (snd <$> byCode)
    | None => js "N/A"
    end in
  let languages :=
    match languages country with
    | Some byCode => join (js ", ") (take 3 (snd <$> byCode))
    | None => js "N/A"
    end in
  let lat := match latlng country with Some (a :: _ :: _) => Some a | _ => None end in
  let lng := match latlng country with Some (_ :: b :: _) => Some b | _ => None end in
  {| card_name := name; card_flag := flag; card_region := region;
     card_subregion := subregion; card_population := population;
     card_capital := capital; card_currencies := currencies;
     card_languages := languages; card_lat := lat; card_lng := lng |}.

(** *** Displaying results (lines 448-497) *)

(** The marker of lines 473-486, for a country with coordinates. *)
Definition country_marker (country : country) : option marker :=
  match latlng country with
  | Some (a :: b :: _) =>
      let countryName := or_else (name_common country) (js "Unknown") in
      let capital :=
        match capital country with
        | Some (first :: _) => first
        | _ => js "N/A"
        end in
      Some {| position := {| lat := a; lng := b |};
              popup := js "<strong>" ++ countryName ++ js "</strong><br>"
                       ++ js "Capital: " ++ capital |}
  | _ => None
  end.

(** The loop of lines 464-490: [children] are the cards appended to the
    grid so far. *)
Fixpoint display_loop (countries : list country) (mapInstance : option leaflet_map)
    (children : list card) (markerArray : list marker) : list card * list marker :=
  match countries with
  | [] => (children, markerArray)
  | country :: rest =>
      let children := children ++ [createCountryCard country] in
      let markerArray :=
        match country_marker country, mapInstance with
        | Some m, Some _ => markerArray ++ [m]
        | _, _ => markerArray
        end in
      display_loop rest mapInstance children markerArray
  end.

(** [displayResults] changes the children of the grid, the map and the
    marker array it is given, and returns them. *)
Definition displayResults (countries : list country) (gridId : string)
    (mapInstance : option leaflet_map) (markerArray : list marker)
    (grids : gmap string (list card))
  : gmap string (list card) * option leaflet_map * list marker :=
  match grids !! gridId with
  | None => (grids, mapInstance, markerArray)
  | Some _ =>
      let '(children, markerArray) := display_loop countries mapInstance [] [] in
      let mapInstance :=
        match mapInstance, getBounds markerArray with
        | Some _, Some bounds => Some {| current_view := FitBounds (pad bounds (3 # 10)) |}
        | _, _ => mapInstance
        end in
      (<[gridId := children]> grids, mapInstance, markerArray)
  end.

(** *** The page

    The two search forms: the home search of index.html and the search of
    the destinations page. *)

Inductive surface := Home | Destinations.

Record notice := { notice_text : jsstring; notice_type : string }.

(** The document: spinner elements with whether they carry the class
    [active], feedback elements with the message they show, grids with
    their cards, and the ids of the other elements the script looks up
    (forms, inputs, map containers). *)
Record document := {
  spinners : gmap string bool;
  feedbacks : gmap string (option notice);
  grids : gmap string (list card);
  elements : gset string
}.

(** A suspended call of [searchCountries]: its arguments, the handler
    that awaits it and the promise it awaits. *)
Inductive awaited := AwaitFetch | AwaitBody.

Record call := {
  query : jsstring;
  feedbackId : string;
  spinnerId : string;
  caller : surface;
  awaiting : awaited
}.

(** The global variables of lines 21-25, the [AbortController]s created
    so far (controller [i] is entry [i], [true] once its signal is
    aborted), the suspended calls (the call that created controller [i]
    passes its signal to [fetch] and is call [i]) and the document. *)
Record page := {
  mainMap : option leaflet_map;
  destMap : option leaflet_map;
  mainMarkers : list marker;
  destMarkers : list marker;
  currentAbortController : option nat;
  controllers : list bool;
  pending : gmap nat call;
  doc : document
}.

Definition set_spinners (v : gmap string bool) (p : page) : page :=
  {| mainMap := mainMap p; destMap := destMap p; mainMarkers := mainMarkers p;
     destMarkers := destMarkers p; currentAbortController := currentAbortController p;
     controllers := controllers p; pending := pending p;
     doc := {| spinners := v; feedbacks := feedbacks (doc p);
               grids := grids (doc p); elements := elements (doc p) |} |}.

Definition set_feedbacks (v : gmap string (option notice)) (p : page) : page :=
  {| mainMap := mainMap p; destMap := destMap p; mainMarkers := mainMarkers p;
     destMarkers := destMarkers p; currentAbortController := currentAbortController p;
     controllers := controllers p; pending := pending p;
     doc := {| spinners := spinners (doc p); feedbacks := v;
               grids := grids (doc p); elements := elements (doc p) |} |}.

Definition set_controllers (current : option nat) (v : list bool) (p : page) : page :=
  {| mainMap := mainMap p; destMap := destMap p; mainMarkers := mainMarkers p;
     destMarkers := destMarkers p; currentAbortController := current;
     controllers := v; pending := pending p; doc := doc p |}.

Definition set_pending (v : gmap nat call) (p : page) : page :=
  {| mainMap := mainMap p; destMap := destMap p; mainMarkers := mainMarkers p;
     destMarkers := destMarkers p; currentAbortController := currentAbortController p;
     controllers := controllers p; pending := v; doc := doc p |}.

Definition set_mainMap (v : option leaflet_map) (p : page) : page :=
  {| mainMap := v; destMap := destMap p; mainMarkers := mainMarkers p;
     destMarkers := destMarkers p; currentAbortController := currentAbortController p;
     controllers := controllers p; pending := pending p; doc := doc p |}.

(** What [displayResults] changed, written back for the home search. *)
Definition set_main_display
    (r : gmap string (list card) * option leaflet_map * list marker) (p : page) : page :=
  let '(g, m, ms) := r in
  {| mainMap := m; destMap := destMap p; mainMarkers := ms;
     destMarkers := destMarkers p; currentAbortController := currentAbortController p;
     controllers := controllers p; pending := pending p;
     doc := {| spinners := spinners (doc p); feedbacks := feedbacks (doc p);
               grids := g; elements := elements (doc p) |} |}.

(** The same for the destinations page. *)
Definition set_dest_display
    (r : gmap string (list card) * option leaflet_map * list marker) (p : page) : page :=
  let '(g, m, ms) := r in
  {| mainMap := mainMap p; destMap := m; mainMarkers := mainMarkers p;
     destMarkers := ms; currentAbortController := currentAbortController p;
     controllers := controllers p; pending := pending p;
     doc := {| spinners := spinners (doc p); feedbacks := feedbacks (doc p);
               grids := g; elements := elements (doc p) |} |}.

(** Lines 76-90, without the timer that hides the message again. *)
Definition showFeedback (elementId : string) (message : jsstring) (type : string)
    (p : page) : page :=
  match feedbacks (doc p) !! elementId with
  | None => p
  | Some _ =>
      set_feedbacks
        (<[elementId := Some {| notice_text := message; notice_type := type |}]>
           (feedbacks (doc p))) p
  end.

(** Lines 97-106. *)
Definition toggleSpinner (spinnerId : string) (show : bool) (p : page) : page :=
  match spinners (doc p) !! spinnerId with
  | None => p
  | Some _ => set_spinners (<[spinnerId := show]> (spinners (doc p))) p
  end.

(** Lines 260-276. *)
Definition initMap (elementId : string) (d : document) : option leaflet_map :=
  if decide (elementId ∈ elements d)
  then Some {| current_view := SetView {| lat := 20; lng := 0 |} 2 |}
  else None.

(** *** The search (lines 182-246) *)

(** What [response.json()] resolves to: [null], [false] or [0]; a string;
    an array of country objects; any other value, whose [length] is not
    a positive number. *)
Inductive payload :=
| PNull
| PText (s : jsstring)
| PArray (data : list country)
| POther.

(** How an awaited promise settles when the signal is not aborted:
    [fetch] rejects (no connection) or resolves to a response with a
    status; the body read rejects (the body is not JSON) or resolves to
    the parsed payload.  Once the signal is aborted both reject with an
    [AbortError] instead. *)
Inductive settlement :=
| FetchRejected
| FetchResponse (status : Z)
| BodyRejected
| BodyParsed (data : payload).

(** The five ways out of [searchCountries]: the 404 branch (lines
    202-209), the empty-data branch (219-222), the data (224), an
    [AbortError] caught (229-231) and any other error caught (233-240). *)
Inductive exit :=
| NotFound
| NoResults
| Data (data : list country)
| Aborted
| Failed.

Inductive progress :=
| Stays            (* the settlement is not of the promise awaited *)
| AwaitsBody       (* suspended again at [await response.json()] *)
| Exits (e : exit).

(** [response.ok] *)
Definition ok (status : Z) : bool := ((200 <=? status) && (status <=? 299))%Z.

(** The [try] block and the [catch] clause from the first [await] on. *)
Definition resume (aborted : bool) (a : awaited) (s : settlement) : progress :=
  match a, s with
  | AwaitFetch, (FetchRejected | FetchResponse _)
  | AwaitBody, (BodyRejected | BodyParsed _) =>
      if aborted then Exits Aborted
      else
        match s with
        | FetchRejected | BodyRejected => Exits Failed
        | FetchResponse status =>
            if ok status then AwaitsBody
            else if (status =? 404)%Z then Exits NotFound
            else Exits Failed
        | BodyParsed (PArray (c :: data)) => Exits (Data (c :: data))
        | BodyParsed _ => Exits NoResults
        end
  | _, _ => Stays
  end.

Definition msg_not_found (query : jsstring) : jsstring :=
  js "No countries found matching " ++ [34%N] ++ query ++ [34%N]
  ++ js ". Try a different search.".
Definition msg_no_results : jsstring := js "No results found. Try another search.".
Definition msg_unable : jsstring :=
  js "Unable to load destinations. Please check your internet connection and try again.".

(** The feedback of the way out, the [finally] clause, and the array
    returned. *)
Definition leave (c : call) (e : exit) (p : page) : page * list country :=
  let p :=
    match e with
    | NotFound => showFeedback (feedbackId c) (msg_not_found (query c)) "info" p
    | NoResults => showFeedback (feedbackId c) msg_no_results "info" p
    | Failed => showFeedback (feedbackId c) msg_unable "error" p
    | Data _ | Aborted => p
    end in
  (toggleSpinner (spinnerId c) false p,
   match e with Data data => data | _ => [] end).

Definition signal_aborted (p : page) (id : nat) : bool :=
  default false (controllers p !! id).

(** Lines 185-198: up to the first [await]. *)
Definition searchCountries (query : jsstring) (feedbackId spinnerId : string)
    (caller : surface) (p : page) : page :=
  let p :=
    match currentAbortController p with
    | Some current => set_controllers (Some current) (<[current := true]> (controllers p)) p
    | None => p
    end in
  let id := length (controllers p) in
  let p := set_controllers (Some id) (controllers p ++ [false]) p in
  let p := toggleSpinner spinnerId true p in
  set_pending
    (<[id := {| query := query; feedbackId := feedbackId; spinnerId := spinnerId;
                caller := caller; awaiting := AwaitFetch |}]> (pending p)) p.

(** *** The submit handlers (lines 509-571 and 593-616) *)

Definition searchForm_submit (value : jsstring) (p : page) : page :=
  let validation := validateSearchInput value in
  if negb (valid validation) then
    showFeedback "search-feedback" (message validation) "error" p
  else
    let p :=
      match mainMap p with
      | None => set_mainMap (initMap "map" (doc p)) p
      | Some _ => p
      end in
    searchCountries value "search-feedback" "search-spinner" Home p.

(** After [await searchCountries(...)]. *)
Definition searchForm_resume (countries : list country) (p : page) : page :=
  if (0 <? length countries)%nat then
    set_main_display
      (displayResults countries "results-grid" (mainMap p) (mainMarkers p) (grids (doc p))) p
  else p.

Definition destSearchForm_submit (value : jsstring) (p : page) : page :=
  let validation := validateSearchInput value in
  if negb (valid validation) then
    showFeedback "dest-feedback" (message validation) "error" p
  else searchCountries value "dest-feedback" "dest-spinner" Destinations p.

Definition destSearchForm_resume (countries : list country) (p : page) : page :=
  if (0 <? length countries)%nat then
    set_dest_display
      (displayResults countries "dest-grid" (destMap p) (destMarkers p) (grids (doc p))) p
  else p.

(** *** Running the page *)

(** The script has run on a freshly parsed document (lines 21-25 and
    580-583). *)
Definition load (d : document) : page :=
  {| mainMap := None;
     destMap := if decide ("dest-search-form" ∈ elements d)
                then initMap "dest-map" d else None;
     mainMarkers := []; destMarkers := [];
     currentAbortController := None; controllers := []; pending := ∅;
     doc := d |}.

Inductive event :=
| Submit (sf : surface) (value : jsstring)
| Settle (id : nat) (s : settlement).

(** A handler runs only if its form and its input exist. *)
Definition listening (sf : surface) (d : document) : bool :=
  match sf with
  | Home => bool_decide ("search-form" ∈ elements d ∧ "search-input" ∈ elements d)
  | Destinations =>
      bool_decide ("dest-search-form" ∈ elements d ∧ "dest-search-input" ∈ elements d)
  end.

(** The way out that a settlement makes a suspended call take, if any. *)
Definition exit_at (p : page) (ev : event) : option exit :=
  match ev with
  | Submit _ _ => None
  | Settle id s =>
      match pending p !! id with
      | None => None
      | Some c =>
          match resume (signal_aborted p id) (awaiting c) s with
          | Exits e => Some e
          | _ => None
          end
      end
  end.

Definition step (p : page) (ev : event) : page :=
  match ev with
  | Submit sf value =>
      if listening sf (doc p) then
        match sf with
        | Home => searchForm_submit value p
        | Destinations => destSearchForm_submit value p
        end
      else p
  | Settle id s =>
      match pending p !! id with
      | None => p
      | Some c =>
          match resume (signal_aborted p id) (awaiting c) s with
          | Stays => p
          | AwaitsBody =>
              set_pending
                (<[id := {| query := query c; feedbackId := feedbackId c;
                            spinnerId := spinnerId c; caller := caller c;
                            awaiting := AwaitBody |}]> (pending p)) p
          | Exits e =>
              let '(p, countries) := leave c e (set_pending (delete id (pending p)) p) in
              match caller c with
              | Home => searchForm_resume countries p
              | Destinations => destSearchForm_resume countries p
              end
          end
      end
  end.

Definition run (p : page) (evs : list event) : page := foldl step p evs.

(** The outcome of a lookup in the words of the data model: a way out
    that shows an informational notice is [Empty], one that shows the
    error notice is [NetworkError], the silent one is [Cancelled]. *)
Inductive LookupOutcome :=
| Success (countries : list country)
| Empty
| NetworkError
| Cancelled.

Definition outcome (e : exit) : LookupOutcome :=
  match e with
  | NotFound | NoResults => Empty
  | Data data => Success data
  | Aborted => Cancelled
  | Failed => NetworkError
  end.

(** The displayed state of the two surfaces: the cards of every grid and
    the two marker arrays. *)
Definition ViewState (p : page) : gmap string (list card) * list marker * list marker :=
  (grids (doc p), mainMarkers p, destMarkers p).

(** *** Featured destinations (lines 626-667) *)

Definition featuredCountries : list jsstring :=
  [js "Japan"; js "Italy"; js "Brazil"; js "Australia"; js "Morocco"; js "Iceland"].

(** One exact-match lookup: [fetch] rejects, or responds with a status
    and a body that parses to a payload or does not parse ([None]). *)
Inductive lookup :=
| LookupRejected
| LookupResponse (status : Z) (body : option payload).

(** A country object without any of the fields: what every property read
    by [createCountryCard] gives on a string. *)
Definition no_fields : country :=
  {| name_common := None; flags_svg := None; flags_png := None; region := None;
     subregion := None; population := None; capital := None; currencies := None;
     languages := None; latlng := None |}.

(** [data[0]] when [data && data.length > 0]. *)
Definition first_element (data : payload) : option country :=
  match data with
  | PArray (first :: _) => Some first
  | PText (_ :: _) => Some no_fields
  | _ => None
  end.

(** The children of the featured grid, the names looked up so far and
    the names warned about on the console. *)
Record featured := {
  featured_cards : list card;
  looked_up : list jsstring;
  warned : list jsstring
}.

(** One turn of the loop: the [try] block and its [catch]. *)
Definition load_one (name : jsstring) (r : lookup) (st : featured) : featured :=
  let cards := featured_cards st in
  let asked := looked_up st ++ [name] in
  match r with
  | LookupRejected =>
      {| featured_cards := cards; looked_up := asked; warned := warned st ++ [name] |}
  | LookupResponse status body =>
      if ok status then
        match body with
        | None =>
            {| featured_cards := cards; looked_up := asked; warned := warned st ++ [name] |}
        | Some data =>
            match first_element data with
            | Some first =>
                {| featured_cards := cards ++ [createCountryCard first];
                   looked_up := asked; warned := warned st |}
            | None => {| featured_cards := cards; looked_up := asked; warned := warned st |}
            end
        end
      else {| featured_cards := cards; looked_up := asked; warned := warned st |}
  end.

(** The loop from index [i] on; [network i] is how the lookup of turn
    [i] goes. *)
Fixpoint load_from (i : nat) (names : list jsstring) (network : nat → lookup)
    (st : featured) : featured :=
  match names with
  | [] => st
  | name :: rest => load_from (S i) rest network (load_one name (network i) st)
  end.

(** The loader runs only on a page that has the featured grid. *)
Definition loadFeaturedDestinations (network : nat → lookup)
    (featuredGrid : option (list card)) : option featured :=
  match featuredGrid with
  | None => None
  | Some children =>
      Some (load_from 0 featuredCountries network
              {| featured_cards := children; looked_up := []; warned := [] |})
  end.

End Script.
Import Script.

(** ** features.js: favourites (lines 239-301) *)

Module Features.

Definition FAVOURITES_KEY : string := "wanderlust-favourites".

(** A truthy value that [JSON.parse] can give for the item: an array of
    names; a string, which is truthy when it is not empty; any other
    value that is not an array (an object, a number other than 0,
    [true]).  The key is written by [saveFavourites] only, with the
    names it is given: arrays with an element that is not a string are
    outside the model. *)
Inductive value :=
| Names (favs : list jsstring)
| Text (first : N) (rest : jsstring)
| Other.

(** An item of [localStorage] by what [JSON.parse] makes of its text: an
    error, a falsy value ([null], [false], 0, the empty string), or a
    truthy value. *)
Inductive item :=
| Unparseable
| Falsy
| Truthy :> value → item.

Abbreviation storage := (gmap string item).

(** A call returns, or it throws a [TypeError] that nothing catches. *)
Inductive completion (A : Type) :=
| Returns (a : A)
| Throws.

Arguments Returns {A} a.
Arguments Throws {A}.

(** [getItem] gives [null] for a missing key and [JSON.parse(null)] is
    [null]; a truthy value is returned as it is. *)
Definition getFavourites (localStorage : storage) : value :=
  match localStorage !! FAVOURITES_KEY with
  | Some (Truthy v) => v
  | Some Unparseable | Some Falsy | None => Names []
  end.

Definition saveFavourites (favs : list jsstring) (localStorage : storage) : storage :=
  <[FAVOURITES_KEY := Truthy (Names favs)]> localStorage.

(** [Array.prototype.indexOf], [None] for -1. *)
Fixpoint indexOf (l : list jsstring) (x : jsstring) : option nat :=
  match l with
  | [] => None
  | y :: l' => if decide (y = x) then Some 0 else S <$> indexOf l' x
  end.

(** [String.prototype.indexOf]: where the text first holds the search
    string, [None] for -1. *)
Fixpoint starts_with (s x : jsstring) : bool :=
  match x, s with
  | [], _ => true
  | _ :: _, [] => false
  | b :: x', a :: s' => (a =? b)%N && starts_with s' x'
  end.

Fixpoint text_indexOf (s x : jsstring) : option nat :=
  if starts_with s x then Some 0
  else
    match s with
    | [] => None
    | _ :: s' => S <$> text_indexOf s' x
    end.

(** [favs.indexOf(countryName)] on what [getFavourites] returned: a
    value that is neither an array nor a string has no [indexOf]. *)
Definition value_indexOf (favs : value) (x : jsstring) : completion (option nat) :=
  match favs with
  | Names l => Returns (indexOf l x)
  | Text first rest => Returns (text_indexOf (first :: rest) x)
  | Other => Throws
  end.

Definition isFavourite (countryName : jsstring) (localStorage : storage) : completion bool :=
  match value_indexOf (getFavourites localStorage) countryName with
  | Returns (Some _) => Returns true
  | Returns None => Returns false
  | Throws => Throws
  end.

(** The heart button: its markup, whether it carries the class
    [favourited], its label and its title. *)
Record button := {
  innerHTML : string;
  favourited : bool;
  aria_label : jsstring;
  title : string
}.

(** The storage after the call, and what the call has written into the
    button when it returns.  A string has [indexOf] but neither [splice]
    nor [push]: on every value that is not an array the call throws at
    line 282, 286 or 293, before it touches the button or the storage. *)
Definition toggleFavourite (countryName : jsstring) (localStorage : storage)
  : storage * completion button :=
  match getFavourites localStorage with
  | Names favs =>
      match indexOf favs countryName with
      | Some index =>
          (saveFavourites (delete index favs) localStorage,
           Returns {| innerHTML := "&#9825;"; favourited := false;
                      aria_label := js "Save " ++ countryName ++ js " to favourites";
                      title := "Save to favourites" |})
      | None =>
          (saveFavourites (favs ++ [countryName]) localStorage,
           Returns {| innerHTML := "&#9829;"; favourited := true;
                      aria_label := js "Remove " ++ countryName ++ js " from favourites";
                      title := "Remove from favourites" |})
      end
  | Text _ _ | Other => (localStorage, Throws)
  end.

End Features.
Import Features.


(** ** Notions for the statements

    What the specification names and the code does not define (character
    classes, the coordinate pair of a country, the record that a lookup
    loads), the invariants of the pages that [run] reaches, and the
    documents and countries of the examples. *)

Module Wording.

(** The letters that the format check accepts: Basic Latin letters and the
    letters of the Latin-1 Supplement from U+00C0 on. *)
Definition latin_letter (c : N) : bool :=
  ((97 <=? c) && (c <=? 122)
   || (65 <=? c) && (c <=? 90)
   || (0xC0 <=? c) && (c <=? 0xD6)
   || (0xD8 <=? c) && (c <=? 0xF6)
   || (0xF8 <=? c) && (c <=? 0xFF))%N.

(** Letters, whitespace, hyphen and apostrophe, with [latin_letter] for
    the letters. *)
Definition latin_allowed (c : N) : bool :=
  (latin_letter c || is_whitespace c || (c =? 45) || (c =? 39))%N.

(** Some Unicode letters (general category L): the Latin letters above, the
    remaining letters of the Latin-1 Supplement and the block Latin
    Extended-A (U+0100 to U+017F), all of whose code points are letters. *)
Definition unicode_letter (c : N) : bool :=
  (latin_letter c
   || (c =? 0xAA) || (c =? 0xB5) || (c =? 0xBA)
   || (0x100 <=? c) && (c <=? 0x17F))%N.

(** The character class as the specification words it. *)
Definition unicode_allowed (c : N) : bool :=
  (unicode_letter c || is_whitespace c || (c =? 45) || (c =? 39))%N.

(** The coordinate pair of a country object: both latitude and longitude
    are given. *)
Definition coordinates (c : country) : option LatLng :=
  match latlng c with
  | Some (a :: b :: _) => Some {| lat := a; lng := b |}
  | _ => None
  end.

(** C9 in its own words.  A lookup loads a record when the response has
    a status from 200 to 299 and a body that is a non-empty array, the
    record being its first element.  A lookup fails on a network error,
    on a status that is not 2xx, or on an empty result. *)
Definition loaded (r : lookup) : option country :=
  match r with
  | LookupResponse status (Some (PArray (record :: _))) =>
      if bool_decide (200 ≤ status < 300)%Z then Some record else None
  | _ => None
  end.

Definition network_error (r : lookup) : bool :=
  match r with
  | LookupRejected => true
  | LookupResponse _ _ => false
  end.

Definition failed (r : lookup) : Prop :=
  network_error r = true ∨
  (∃ status body, r = LookupResponse status body ∧ ¬ (200 ≤ status < 300)%Z) ∨
  (∃ status, r = LookupResponse status (Some (PArray [])) ∧ (200 ≤ status < 300)%Z).

(** Whether a settlement makes a call exit, and with which outcome. *)
Definition lookup_outcome (pr : progress) : option LookupOutcome :=
  match pr with
  | Exits e => Some (outcome e)
  | _ => None
  end.

(** Every controller but the current one has been aborted, and the current
    one exists: what holds of the pages that [run] reaches. *)
Definition superseded_aborted (p : page) : Prop :=
  (∀ id, id < length (controllers p) → currentAbortController p ≠ Some id →
         signal_aborted p id = true) ∧
  (∀ id, currentAbortController p = Some id → id < length (controllers p)).

(** The parts of a page that the feedback, the spinner and the suspended
    calls are not, and the controllers: what stays when only the former
    change. *)
Definition same_display (p q : page) : Prop :=
  mainMap q = mainMap p ∧ destMap q = destMap p ∧
  mainMarkers q = mainMarkers p ∧ destMarkers q = destMarkers p ∧
  grids (doc q) = grids (doc p) ∧ elements (doc q) = elements (doc p).

Definition same_controllers (p q : page) : Prop :=
  controllers q = controllers p ∧ currentAbortController q = currentAbortController p.

(** The controllers after a search has been issued: the current one
    aborted, a new one added. *)
Definition superseding (p : page) : list bool :=
  match currentAbortController p with
  | Some current => <[current := true]> (controllers p)
  | None => controllers p
  end ++ [false].

(** The call that a submit suspends, and a call moved on to the body
    read. *)
Definition issued (sf : surface) (value : jsstring) : call :=
  {| query := value;
     feedbackId := match sf with Home => "search-feedback" | Destinations => "dest-feedback" end;
     spinnerId := match sf with Home => "search-spinner" | Destinations => "dest-spinner" end;
     caller := sf; awaiting := AwaitFetch |}.

Definition reading_body (c : call) : call :=
  {| query := query c; feedbackId := feedbackId c; spinnerId := spinnerId c;
     caller := caller c; awaiting := AwaitBody |}.

(** While a call of the home search is suspended on a page with the map
    container, the home map is there. *)
Definition home_map_ready (p : page) : Prop :=
  "map" ∈ elements (doc p) →
  ∀ id c, pending p !! id = Some c → caller c = Home → is_Some (mainMap p).

(** A home page and a page that carries both search forms, with the
    elements that script.js looks up by id. *)
Definition home_document : document :=
  {| spinners := {[ "search-spinner" := false ]};
     feedbacks := {[ "search-feedback" := None ]};
     grids := {[ "results-grid" := [] ]};
     elements := {[ "search-form"; "search-input"; "map" ]} |}.

Definition both_forms_document : document :=
  {| spinners := {[ "search-spinner" := false; "dest-spinner" := false ]};
     feedbacks := {[ "search-feedback" := None; "dest-feedback" := None ]};
     grids := {[ "results-grid" := []; "dest-grid" := [] ]};
     elements := {[ "search-form"; "search-input"; "map";
                    "dest-search-form"; "dest-search-input"; "dest-map" ]} |}.

Definition japan : country :=
  {| name_common := Some (js "Japan"); flags_svg := Some (js "https://flagcdn.com/jp.svg");
     flags_png := Some (js "https://flagcdn.com/w320/jp.png");
     region := Some (js "Asia"); subregion := Some (js "Eastern Asia");
     population := Some 125681593%N; capital := Some [js "Tokyo"];
     currencies := Some [(js "JPY", js "Japanese yen")];
     languages := Some [(js "jpn", js "Japanese")];
     latlng := Some [36 # 1; 138 # 1]%Q |}.

(** Bouvet Island, which the API lists with nobody living there. *)
Definition bouvet_island : country :=
  {| name_common := Some (js "Bouvet Island"); flags_svg := None; flags_png := None;
     region := Some (js "Antarctic"); subregion := None;
     population := Some 0%N; capital := None; currencies := None;
     languages := None; latlng := Some [(-5443) # 100; 337 # 100]%Q |}.

End Wording.
Import Wording.

(** ** The request URL (script.js, lines 195-198)

    [encodeURIComponent] of ECMAScript: the unreserved characters stay,
    every other code point is written as the bytes of its UTF-8 form,
    each as a percent sign and two upper-case hexadecimal digits; a
    surrogate that is not part of a pair throws a [URIError] ([None]). *)

Module Request.

(** Letters, digits and [-_.!~*'()]. *)
Definition unreserved (c : N) : bool :=
  ((97 <=? c) && (c <=? 122) || (65 <=? c) && (c <=? 90) || (48 <=? c) && (c <=? 57)
   || (c =? 45) || (c =? 95) || (c =? 46) || (c =? 33) || (c =? 126)
   || (c =? 42) || (c =? 39) || (c =? 40) || (c =? 41))%N.

Definition hex_digit (n : N) : N := (if n <? 10 then 48 + n else 55 + n)%N.

Definition percent (byte : N) : jsstring :=
  [37; hex_digit (byte / 16); hex_digit (byte mod 16)]%N.

Definition utf8 (cp : N) : list N :=
  (if cp <? 0x80 then [cp]
   else if cp <? 0x800 then [0xC0 + cp / 64; 0x80 + cp mod 64]
   else if cp <? 0x10000 then
     [0xE0 + cp / 4096; 0x80 + (cp / 64) mod 64; 0x80 + cp mod 64]
   else
     [0xF0 + cp / 262144; 0x80 + (cp / 4096) mod 64;
      0x80 + (cp / 64) mod 64; 0x80 + cp mod 64])%N.

Definition high_surrogate (c : N) : bool := ((0xD800 <=? c) && (c <=? 0xDBFF))%N.
Definition low_surrogate (c : N) : bool := ((0xDC00 <=? c) && (c <=? 0xDFFF))%N.

Definition escape (cp : N) : jsstring := utf8 cp ≫= percent.

Fixpoint encodeURIComponent (s : jsstring) : option jsstring :=
  match s with
  | [] => Some []
  | c :: rest =>
      if unreserved c then cons c <$> encodeURIComponent rest
      else if low_surrogate c then None
      else if high_surrogate c then
        match rest with
        | d :: rest' =>
            if low_surrogate d then
              app (escape (0x10000 + (c - 0xD800) * 0x400 + (d - 0xDC00))%N)
                <$> encodeURIComponent rest'
            else None
        | [] => None
        end
      else app (escape c) <$> encodeURIComponent rest
  end.

(** The URL that [searchCountries] passes to [fetch]; [None] when
    building it throws. *)
Definition search_url (query : jsstring) : option jsstring :=
  app (js "https://restcountries.com/v3.1/name/") <$> encodeURIComponent (trim query).

(** The URL of a featured lookup (lines 647-651). *)
Definition featured_url (name : jsstring) : option jsstring :=
  (λ encoded, js "https://restcountries.com/v3.1/name/" ++ encoded ++ js "?fullText=true")
    <$> encodeURIComponent name.

(** The characters of a URL that needs no further escaping: unreserved
    characters, the percent sign of an escape, and the reserved
    characters [:/?=] of the fixed parts. *)
Definition url_safe (c : N) : bool :=
  (unreserved c || (c =? 37) || (c =? 58) || (c =? 47) || (c =? 63) || (c =? 61))%N.

End Request.
Import Request.


(** ** Notions for the further properties *)

Module Shown.

(** Where the button of a card flies to: the coordinates written into the
    card, if it has both. *)
Definition card_position (c : card) : option LatLng :=
  match card_lat c, card_lng c with
  | Some a, Some b => Some {| lat := a; lng := b |}
  | _, _ => None
  end.

(** The markers of a surface are at the coordinates of the cards of its
    grid, in order, or there is none. *)
Definition markers_match_cards (markers : list marker) (grid : option (list card)) : Prop :=
  markers = [] ∨
  ∃ cards, grid = Some cards ∧ position <$> markers = omap card_position cards.

(** The spinners after [toggleSpinner]. *)
Definition toggled (spinnerId : string) (show : bool) (spinners : gmap string bool)
  : gmap string bool :=
  match spinners !! spinnerId with
  | Some _ => <[spinnerId := show]> spinners
  | None => spinners
  end.

End Shown.
Import Shown.


(** ** features.js: the favourite button (lines 258-264 and 308-331) *)

Module Hearts.
Import Features.

(** The button as [createFavButton] returns it; its class [fav-btn] and
    its type are the same for every button.  The function throws where
    [isFavourite] does. *)
Definition createFavButton (countryName : jsstring) (localStorage : storage)
  : completion button :=
  match isFavourite countryName localStorage with
  | Returns true =>
      Returns {| innerHTML := "&#9829;"; favourited := true;
                 aria_label := js "Remove " ++ countryName ++ js " from favourites";
                 title := "Remove from favourites" |}
  | Returns false =>
      Returns {| innerHTML := "&#9825;"; favourited := false;
                 aria_label := js "Save " ++ countryName ++ js " to favourites";
                 title := "Save to favourites" |}
  | Throws => Throws
  end.

(** The click listener of lines 324-328.  [setItem] throws when the
    quota is exceeded or the storage is refused; [saveFavourites] catches
    the error and logs it (lines 259-263), after [toggleFavourite] has
    changed the button. *)
Definition click (setItem_throws : bool) (countryName : jsstring) (localStorage : storage)
  : storage * completion button :=
  let '(written, btn) := toggleFavourite countryName localStorage in
  (if setItem_throws then localStorage else written, btn).

(** Clicks on the buttons of the given countries, one after the other,
    every write going through. *)
Definition clicks (names : list jsstring) (localStorage : storage) : storage :=
  foldl (λ store name, (click false name store).1) localStorage names.

End Hearts.


(** ** features.js: regions and sorting (lines 22-228) *)

Module Regions.

(** *** [Array.prototype.sort]

    The sort is stable: [a] comes before [b] when [comparefn(a, b)] is
    negative, after it when positive, and the two keep their order when
    it is zero.  For a consistent comparator this fixes the result, which
    is computed here by insertion from the right. *)
Section Sort.

Context {A : Type} (comparefn : A → A → Z).

Fixpoint sort_insert (x : A) (sorted : list A) : list A :=
  match sorted with
  | [] => [x]
  | y :: rest =>
      if (comparefn x y <=? 0)%Z then x :: sorted else y :: sort_insert x rest
  end.

Definition sort (l : list A) : list A := foldr sort_insert [] l.

End Sort.

(** What the script takes from the engine: [String.prototype.localeCompare],
    a consistent comparator whose order depends on the locale, and what
    [sort] does with the comparators of lines 77-79, 185-187 and 190-192
    on an array of two or more countries one of which has no
    [name.common].  There [a.name.common.localeCompare] throws for the
    country passed first and compares with the text of [undefined] for
    the one passed second, and the engine chooses the calls: the sort
    throws ([None]) or returns the countries in some order. *)
Class Engine := {
  localeCompare : jsstring → jsstring → Z;
  localeCompare_sgn a b : Z.sgn (localeCompare b a) = (- Z.sgn (localeCompare a b))%Z;
  localeCompare_trans a b c :
    (localeCompare a b <= 0)%Z → (localeCompare b c <= 0)%Z → (localeCompare a c <= 0)%Z;
  sort_nameless : bool → list country → option (list country);
  sort_nameless_Permutation descending data sorted :
    sort_nameless descending data = Some sorted → sorted ≡ₚ data
}.

Definition has_name (c : country) : bool :=
  match name_common c with Some _ => true | None => false end.

(** [a.name.common.localeCompare(b.name.common)] for two countries with
    names. *)
Definition compare_names `{Engine} (a b : country) : Z :=
  localeCompare (default [] (name_common a)) (default [] (name_common b)).

(** [data.sort(...)] with the comparator by name, ascending or
    descending; [None] when it throws.  The comparator is not called on
    an array of fewer than two elements. *)
Definition sort_by_name `{Engine} (descending : bool) (data : list country)
  : option (list country) :=
  match data with
  | [] | [_] => Some data
  | _ =>
      if forallb has_name data then
        Some (sort (if descending then (λ a b, compare_names b a) else compare_names) data)
      else sort_nameless descending data
  end.

(** [country.population || 0] *)
Definition population_or_0 (c : country) : Z := Z.of_N (default 0%N (population c)).

(** The [switch] of lines 183-206 on a copy of the results: the sorted
    copy, or [None] when [sortResults] returns at [default] or the
    comparator throws. *)
Definition sorted_by `{Engine} (sortBy : jsstring) (results : list country)
  : option (list country) :=
  if decide (sortBy = js "name-asc") then sort_by_name false results
  else if decide (sortBy = js "name-desc") then sort_by_name true results
  else if decide (sortBy = js "pop-desc") then
    Some (sort (λ a b, population_or_0 b - population_or_0 a)%Z results)
  else if decide (sortBy = js "pop-asc") then
    Some (sort (λ a b, population_or_0 a - population_or_0 b)%Z results)
  else None.

(** *** The page with its filters *)

(** What the destinations grid holds besides cards: the spinner of lines
    51-52 or the message of lines 103-105. *)
Inductive grid_notice := LoadingCountries | LoadFailed.

(** A suspended call of [filterByRegion]. *)
Record request := { region_name : jsstring; stage : awaited }.

(** The page of script.js, the two globals of lines 22-29
    ([currentDisplayContext.gridId] is always [dest-grid]; its other two
    fields are [null] until line 56 binds them to [destMap] and to the
    array [destMarkers], whose changes they then share), the notice in
    the destinations grid, the value of the sort dropdown, the text
    announced, the filter buttons in document order with their
    [data-region] and whether they are pressed, and the suspended calls
    of [filterByRegion], numbered as they are issued. *)
Record state := {
  script : page;
  currentDisplayedResults : list country;
  contextBound : bool;
  destGridNotice : option grid_notice;
  sortSelect : jsstring;
  announcement : option jsstring;
  filterButtons : list (jsstring * bool);
  requests : gmap nat request;
  requested : nat
}.

(** [grid.innerHTML = ...] on the destinations grid: no card is left. *)
Definition clear_dest_grid (p : page) : page :=
  set_dest_display (<["dest-grid" := []]> (grids (doc p)), destMap p, destMarkers p) p.

(** Lines 43-68: up to the first [await]. *)
Definition filterByRegion (region : jsstring) (st : state) : state :=
  match grids (doc (script st)) !! "dest-grid" with
  | None => st
  | Some _ =>
      {| script := clear_dest_grid (script st);
         currentDisplayedResults := currentDisplayedResults st;
         contextBound := true;
         destGridNotice := Some LoadingCountries;
         sortSelect := sortSelect st;
         announcement := announcement st;
         filterButtons := filterButtons st;
         requests :=
           <[requested st := {| region_name := region; stage := AwaitFetch |}]> (requests st);
         requested := S (requested st) |}
  end.

(** Lines 128-132: the text announced. *)
Definition announceResultsCount (count : nat) (region : jsstring) : jsstring :=
  if decide (region = js "all")
  then js "Showing " ++ js (pretty count) ++ js " countries"
  else js "Showing " ++ js (pretty count) ++ js " countries in " ++ region.

Inductive progress :=
| Waits                          (* the settlement is not of the promise awaited *)
| ReadsBody                      (* suspended again at [await response.json()] *)
| Loaded (data : list country)   (* line 87 reached with this array *)
| Fails.                         (* the [catch] clause *)

(** The [try] block from the first [await] to line 84.  A body that is
    not an array has no [sort] method. *)
Definition resume `{Engine} (r : request) (s : settlement) : progress :=
  match stage r, s with
  | AwaitFetch, FetchRejected => Fails
  | AwaitFetch, FetchResponse status => if ok status then ReadsBody else Fails
  | AwaitBody, BodyRejected => Fails
  | AwaitBody, BodyParsed (PArray data) =>
      match sort_by_name false data with
      | Some sorted =>
          Loaded (if decide (region_name r = js "all") then take 30 sorted else sorted)
      | None => Fails
      end
  | AwaitBody, BodyParsed _ => Fails
  | _, _ => Waits
  end.

(** Lines 87-99. *)
Definition show_region (id : nat) (r : request) (data : list country) (st : state) : state :=
  let p := script st in
  {| script :=
       set_dest_display
         (displayResults data "dest-grid" (destMap p) (destMarkers p) (grids (doc p))) p;
     currentDisplayedResults := data;
     contextBound := contextBound st;
     destGridNotice :=
       match grids (doc p) !! "dest-grid" with
       | Some _ => None
       | None => destGridNotice st
       end;
     sortSelect :=
       if decide ("sort-select" ∈ elements (doc p)) then js "name-asc" else sortSelect st;
     announcement := Some (announceResultsCount (length data) (region_name r));
     filterButtons := filterButtons st;
     requests := delete id (requests st);
     requested := requested st |}.

(** Lines 101-106; [grid] is the element found at line 44. *)
Definition show_failure (id : nat) (st : state) : state :=
  {| script := clear_dest_grid (script st);
     currentDisplayedResults := currentDisplayedResults st;
     contextBound := contextBound st;
     destGridNotice := Some LoadFailed;
     sortSelect := sortSelect st;
     announcement := announcement st;
     filterButtons := filterButtons st;
     requests := delete id (requests st);
     requested := requested st |}.

Definition settle `{Engine} (id : nat) (s : settlement) (st : state) : state :=
  match requests st !! id with
  | None => st
  | Some r =>
      match resume r s with
      | Waits => st
      | ReadsBody =>
          {| script := script st;
             currentDisplayedResults := currentDisplayedResults st;
             contextBound := contextBound st;
             destGridNotice := destGridNotice st;
             sortSelect := sortSelect st;
             announcement := announcement st;
             filterButtons := filterButtons st;
             requests :=
               <[id := {| region_name := region_name r; stage := AwaitBody |}]> (requests st);
             requested := requested st |}
      | Loaded data => show_region id r data st
      | Fails => show_failure id st
      end
  end.

(** The click listener of lines 146-159 on button [i]. *)
Definition click_filter (i : nat) (st : state) : state :=
  match filterButtons st !! i with
  | None => st
  | Some (region, _) =>
      filterByRegion region
        {| script := script st;
           currentDisplayedResults := currentDisplayedResults st;
           contextBound := contextBound st;
           destGridNotice := destGridNotice st;
           sortSelect := sortSelect st;
           announcement := announcement st;
           filterButtons := imap (λ j b, (b.1, bool_decide (j = i))) (filterButtons st);
           requests := requests st;
           requested := requested st |}
  end.

(** Lines 175-215.  With results stored and the context not bound,
    [displayResults] would empty the grid and stop at the [length] of
    [null]. *)
Definition sortResults `{Engine} (sortBy : jsstring) (st : state) : state :=
  match currentDisplayedResults st with
  | [] => st
  | _ :: _ =>
      match sorted_by sortBy (currentDisplayedResults st) with
      | None => st
      | Some sorted =>
          let p := script st in
          {| script :=
               if contextBound st then
                 set_dest_display
                   (displayResults sorted "dest-grid" (destMap p) (destMarkers p)
                      (grids (doc p))) p
               else
                 match grids (doc p) !! "dest-grid" with
                 | Some _ => clear_dest_grid p
                 | None => p
                 end;
             currentDisplayedResults := currentDisplayedResults st;
             contextBound := contextBound st;
             destGridNotice :=
               match grids (doc p) !! "dest-grid" with
               | Some _ => None
               | None => destGridNotice st
               end;
             sortSelect := sortSelect st;
             announcement := announcement st;
             filterButtons := filterButtons st;
             requests := requests st;
             requested := requested st |}
      end
  end.

(** The change listener of lines 224-226: the dropdown has the value
    chosen. *)
Definition change_sort `{Engine} (value : jsstring) (st : state) : state :=
  if decide ("sort-select" ∈ elements (doc (script st))) then
    sortResults value
      {| script := script st;
         currentDisplayedResults := currentDisplayedResults st;
         contextBound := contextBound st;
         destGridNotice := destGridNotice st;
         sortSelect := value;
         announcement := announcement st;
         filterButtons := filterButtons st;
         requests := requests st;
         requested := requested st |}
  else st.

(** Whether an event of script.js makes the destinations handler call
    [displayResults] on a page that has the destinations grid: its
    [innerHTML] is then emptied, notice included (script.js, line 455). *)
Definition dest_displayed (p : page) (ev : Script.event) : bool :=
  match ev with
  | Submit _ _ => false
  | Settle id s =>
      match pending p !! id with
      | None => false
      | Some c =>
          match Script.resume (signal_aborted p id) (awaiting c) s, caller c with
          | Exits (Data (_ :: _)), Destinations =>
              bool_decide (is_Some (grids (doc p) !! "dest-grid"))
          | _, _ => false
          end
      end
  end.

Definition search (ev : Script.event) (st : state) : state :=
  {| script := Script.step (script st) ev;
     currentDisplayedResults := currentDisplayedResults st;
     contextBound := contextBound st;
     destGridNotice :=
       if dest_displayed (script st) ev then None else destGridNotice st;
     sortSelect := sortSelect st;
     announcement := announcement st;
     filterButtons := filterButtons st;
     requests := requests st;
     requested := requested st |}.

(** What happens on the page: an event of the two searches of script.js,
    a click on a filter button, a settlement of a promise awaited by
    [filterByRegion], a choice in the sort dropdown. *)
Inductive event :=
| Searching (ev : Script.event)
| Click (button : nat)
| Respond (id : nat) (s : settlement)
| Change (value : jsstring).

Definition step `{Engine} (st : state) (ev : event) : state :=
  match ev with
  | Searching ev => search ev st
  | Click i => click_filter i st
  | Respond id s => settle id s st
  | Change value => change_sort value st
  end.

Definition run `{Engine} (st : state) (evs : list event) : state := foldl step st evs.

(** Both scripts have run on a freshly parsed document with the given
    filter buttons and the given value of the sort dropdown. *)
Definition load (d : document) (buttons : list (jsstring * bool)) (selected : jsstring)
  : state :=
  {| script := Script.load d;
     currentDisplayedResults := [];
     contextBound := false;
     destGridNotice := None;
     sortSelect := selected;
     announcement := None;
     filterButtons := buttons;
     requests := ∅;
     requested := 0 |}.

End Regions.


(** An engine for the examples: names compare by their code units. *)
Module CodeUnits.

Fixpoint compare_units (a b : jsstring) : Z :=
  match a, b with
  | [], [] => 0
  | [], _ :: _ => -1
  | _ :: _, [] => 1
  | x :: a', y :: b' =>
      if (x <? y)%N then -1
      else if (y <? x)%N then 1
      else compare_units a' b'
  end.

End CodeUnits.


(** The events of script.js among those of the page, and what the
    examples use: a destinations page with its filter buttons, and a
    country. *)
Module RegionExamples.
Import Regions.

Definition of_script (ev : Regions.event) : option Script.event :=
  match ev with
  | Searching ev => Some ev
  | _ => None
  end.

Definition destinations_document : document :=
  {| spinners := {[ "dest-spinner" := false ]};
     feedbacks := {[ "dest-feedback" := None ]};
     grids := {[ "dest-grid" := [] ]};
     elements := {[ "dest-search-form"; "dest-search-input"; "dest-map"; "sort-select" ]} |}.

Definition region_buttons : list (jsstring * bool) :=
  [(js "all", true); (js "Asia", false); (js "Europe", false)].

Definition andorra : country :=
  {| name_common := Some (js "Andorra"); flags_svg := None; flags_png := None;
     region := Some (js "Europe"); subregion := Some (js "Southern Europe");
     population := Some 77265%N; capital := Some [js "Andorra la Vella"];
     currencies := None; languages := None; latlng := Some [(85 # 2); (3 # 2)]%Q |}.

End RegionExamples.


(** ** script.js: the timer of the feedback (lines 76-90) *)

Module Timers.

(** A feedback element in time: the clock in milliseconds, the notice
    shown, and the times at which the callbacks that [setTimeout] has
    scheduled for the element are due.  A callback runs when it is due. *)
Record feedback := { clock : N; showing : option notice; due : list N }.

Inductive event :=
| Show (message : jsstring) (type : string)   (* [showFeedback] on the element *)
| Wait (ms : N).                              (* time passes *)

(** Lines 80-89. *)
Definition showFeedback (message : jsstring) (type : string) (el : feedback) : feedback :=
  {| clock := clock el;
     showing := Some {| notice_text := message; notice_type := type |};
     due := due el ++ [(clock el + 6000)%N] |}.

(** The callbacks due in the next [ms] milliseconds run (lines 86-88):
    each empties the element. *)
Definition wait (ms : N) (el : feedback) : feedback :=
  let now := (clock el + ms)%N in
  {| clock := now;
     showing := if existsb (λ d, (d <=? now)%N) (due el) then None else showing el;
     due := filter (λ d, (now < d)%N) (due el) |}.

Definition step (el : feedback) (ev : event) : feedback :=
  match ev with
  | Show message type => showFeedback message type el
  | Wait ms => wait ms el
  end.

Definition run (el : feedback) (evs : list event) : feedback := foldl step el evs.

(** An element that shows nothing, with no callback scheduled. *)
Definition quiet : feedback := {| clock := 0; showing := None; due := [] |}.

End Timers.


(** ** script.js: the View on Map button (lines 385-405 and 420-432) *)

Module MapButton.

(** The button of a card, with the coordinates in its [data-lat] and
    [data-lng]: a card has it when both are there. *)
Definition mapBtn (c : card) : option LatLng :=
  match card_lat c, card_lng c with
  | Some a, Some b => Some {| lat := a; lng := b |}
  | _, _ => None
  end.

(** Lines 420-432.  [flyTo] ends in the view that [setView] sets at
    once. *)
Definition flyToCountry (lat lng : Q) (p : page) : page :=
  let there := Some {| current_view := SetView {| lat := lat; lng := lng |} 5 |} in
  match mainMap p, destMap p with
  | Some _, _ => set_mainMap there p
  | None, Some _ =>
      set_dest_display (grids (doc p), there, destMarkers p) p
  | None, None => p
  end.

(** The click listener of lines 400-404. *)
Definition click (c : card) (p : page) : page :=
  match mapBtn c with
  | Some at_ => flyToCountry (lat at_) (lng at_) p
  | None => p
  end.

End MapButton.

(** ** script.js: the heading of the results (lines 556-565) *)

Module Headings.

(** The page of the home search with the texts that the submit handler
    has written into the elements [results-title] and [results-count];
    [None] while it has written none. *)
Record home := {
  page_of : page;
  resultsTitle : option jsstring;
  resultsCount : option jsstring
}.

Definition title_text (query : jsstring) : jsstring :=
  js "Results for " ++ [34%N] ++ trim query ++ [34%N].

Definition count_text (n : nat) : jsstring :=
  js (pretty n) ++ js " destination" ++ (if (1 <? n)%nat then js "s" else [])
  ++ js " found".

(** The query and the countries of the home search that an event ends
    with data, if it ends one. *)
Definition home_results (p : page) (ev : Script.event) : option (jsstring * list country) :=
  match ev with
  | Submit _ _ => None
  | Settle id s =>
      match pending p !! id with
      | None => None
      | Some c =>
          match resume (signal_aborted p id) (awaiting c) s, caller c with
          | Exits (Data (first :: rest)), Home => Some (query c, first :: rest)
          | _, _ => None
          end
      end
  end.

Definition step (h : home) (ev : Script.event) : home :=
  let p := page_of h in
  match home_results p ev with
  | Some (query, countries) =>
      {| page_of := Script.step p ev;
         resultsTitle :=
           if decide ("results-title" ∈ elements (doc p))
           then Some (title_text query) else resultsTitle h;
         resultsCount :=
           if decide ("results-count" ∈ elements (doc p))
           then Some (count_text (length countries)) else resultsCount h |}
  | None =>
      {| page_of := Script.step p ev;
         resultsTitle := resultsTitle h;
         resultsCount := resultsCount h |}
  end.

Definition run (h : home) (evs : list Script.event) : home := foldl step h evs.

Definition load (d : document) : home :=
  {| page_of := Script.load d; resultsTitle := None; resultsCount := None |}.

(** A home page with the elements of the heading. *)
Definition home_document_with_heading : document :=
  {| spinners := {[ "search-spinner" := false ]};
     feedbacks := {[ "search-feedback" := None ]};
     grids := {[ "results-grid" := [] ]};
     elements := {[ "search-form"; "search-input"; "map"; "results-section";
                    "results-title"; "results-count" ]} |}.

End Headings.


(** * Properties *)

(** ** C3: input validation *)

Section Validation.

Local Open Scope nat_scope.

Lemma latin_allowed_in_class c : latin_allowed c = true → in_class c = true.
Proof.
  unfold latin_allowed, latin_letter, in_class.
  destruct (is_whitespace c); [rewrite !orb_true_r; done|].
  rewrite !orb_false_r. lia.
Qed.

Lemma format_test_forallb t : t ≠ [] → format_test t = forallb in_class t.
Proof. by destruct t. Qed.

Lemma validate_by_trim value :
  validateSearchInput value =
    match trim value with
    | [] => {| valid := false; message := msg_empty |}
    | t =>
        if length t <? 2 then {| valid := false; message := msg_too_short |}
        else if 100 <? length t then {| valid := false; message := msg_too_long |}
        else if forallb in_class t then {| valid := true; message := [] |}
        else {| valid := false; message := msg_bad_chars |}
    end.
Proof.
  unfold validateSearchInput. destruct value as [|c value]; [done|].
  destruct (trim (c :: value)) as [|c' t] eqn:E; [done|].
  rewrite format_test_forallb by done.
  by destruct (forallb in_class (c' :: t)).
Qed.

(** An input that is refused changes the feedback element at most. *)
Lemma refused_submit_only_feedback sf value p :
  valid (validateSearchInput value) = false →
  ∃ f, step p (Submit sf value) = set_feedbacks f p.
Proof.
  intros Hv. exists (feedbacks (doc (step p (Submit sf value)))).
  assert (Hid : ∀ q : page, q = set_feedbacks (feedbacks (doc q)) q)
    by (by intros [? ? ? ? ? ? ? []]).
  simpl. destruct (listening sf (doc p)); [|apply Hid].
  destruct sf; unfold searchForm_submit, destSearchForm_submit;
    rewrite Hv; simpl; unfold showFeedback;
    destruct (feedbacks (doc p) !! _); simpl; try apply Hid; done.
Qed.

(** C3, as amended.  With [t] the trimmed input, [validateSearchInput]
    reports, first failure first: the empty message when [t] is empty, the
    too-short message when [t] has one code unit, the too-long message
    when it has more than 100; otherwise the input is valid when every
    code unit of [t] is a Latin letter (a-z, A-Z, or a letter of U+00C0 to
    U+00FF), whitespace, a hyphen or an apostrophe, and gets the
    invalid-characters message when some code unit is outside a-z, A-Z,
    U+00C0 to U+00FF, whitespace, hyphen and apostrophe.  A submit with an
    input that is not valid issues no request: the suspended calls, the
    controllers and the current controller stay as they were. *)
Theorem C3_validateSearchInput_latin (value : jsstring) :
  let t := trim value in
  (t = [] → validateSearchInput value = {| valid := false; message := msg_empty |}) ∧
  (length t = 1 →
     validateSearchInput value = {| valid := false; message := msg_too_short |}) ∧
  (100 < length t →
     validateSearchInput value = {| valid := false; message := msg_too_long |}) ∧
  (2 ≤ length t ≤ 100 → forallb latin_allowed t = true →
     validateSearchInput value = {| valid := true; message := [] |}) ∧
  (2 ≤ length t ≤ 100 → forallb in_class t = false →
     validateSearchInput value = {| valid := false; message := msg_bad_chars |}) ∧
  (valid (validateSearchInput value) = false →
     ∀ sf p, pending (step p (Submit sf value)) = pending p ∧
             controllers (step p (Submit sf value)) = controllers p ∧
             currentAbortController (step p (Submit sf value)) = currentAbortController p).
Proof.
  intros t. rewrite validate_by_trim. fold t.
  repeat split.
  - by intros ->.
  - destruct t as [|c [|c' t']]; simpl; intros; done || lia.
  - intros Hlen. destruct t as [|c t']; [simpl in Hlen; lia|]. cbv zeta.
    destruct (length (c :: t') <? 2) eqn:E1; [apply Nat.ltb_lt in E1; lia|].
    destruct (100 <? length (c :: t')) eqn:E2; [done|].
    apply Nat.ltb_ge in E2. lia.
  - intros [Hlo Hhi] Hall. destruct t as [|c t']; [simpl in Hlo; lia|]. cbv zeta.
    destruct (length (c :: t') <? 2) eqn:E1; [apply Nat.ltb_lt in E1; lia|].
    destruct (100 <? length (c :: t')) eqn:E2; [apply Nat.ltb_lt in E2; lia|].
    assert (forallb in_class (c :: t') = true) as ->; [|done].
    apply forallb_forall. intros x Hx.
    apply latin_allowed_in_class. by eapply forallb_forall in Hall.
  - intros [Hlo Hhi] Hbad. destruct t as [|c t']; [simpl in Hlo; lia|]. cbv zeta.
    destruct (length (c :: t') <? 2) eqn:E1; [apply Nat.ltb_lt in E1; lia|].
    destruct (100 <? length (c :: t')) eqn:E2; [apply Nat.ltb_lt in E2; lia|].
    by rewrite Hbad.
  - subst t. rewrite <- (validate_by_trim value) in H.
    by destruct (refused_submit_only_feedback sf value p H) as [f ->].
  - subst t. rewrite <- (validate_by_trim value) in H.
    by destruct (refused_submit_only_feedback sf value p H) as [f ->].
  - subst t. rewrite <- (validate_by_trim value) in H.
    by destruct (refused_submit_only_feedback sf value p H) as [f ->].
Qed.

(** C3 as stated fails: the city name of four letters L-stroke, o-acute,
    d, z-acute (U+0141 U+00F3 U+0064 U+017A) is made of Unicode letters
    only and has length 4, and it is refused for its characters. *)
Lemma C3_unicode_letters_refused :
  let value := [0x141; 0xF3; 0x64; 0x17A]%N in
  length (trim value) = 4 ∧
  forallb unicode_allowed (trim value) = true ∧
  validateSearchInput value = {| valid := false; message := msg_bad_chars |}.
Proof. vm_compute. done. Qed.

Example validate_japan :
  validateSearchInput (js "  Japan ") = {| valid := true; message := [] |}.
Proof. reflexivity. Qed.

Example validate_one_letter :
  validateSearchInput (js "a") = {| valid := false; message := msg_too_short |}.
Proof. reflexivity. Qed.

Example validate_digits :
  validateSearchInput (js "123") = {| valid := false; message := msg_bad_chars |}.
Proof. reflexivity. Qed.

End Validation.

(** ** C8: the fields of a card *)

Section Cards.

(** [round_half_up] is within one half of the quotient, and takes the
    upper integer at one half. *)
Lemma round_half_up_nearest (num den : Z) :
  (0 < den)%Z →
  let n := round_half_up num den in
  (den * (2 * n - 1) <= 2 * num < den * (2 * n + 1))%Z.
Proof.
  intros Hden n. subst n. unfold round_half_up.
  pose proof (Z.mul_div_le (2 * num + den) (2 * den) ltac:(lia)).
  pose proof (Z.mul_succ_div_gt (2 * num + den) (2 * den) ltac:(lia)).
  lia.
Qed.

(** C8, as amended.  For every country object, the card shows: as
    population "N/A" when it is absent or zero, the population divided by
    1,000,000 to one decimal and "M" from 1,000,000 on (up to the largest
    safe integer), divided by 1,000 to no decimal and "K" from 1,000 on,
    and the integer itself below; as capital the first element of the
    capital list, "N/A" without one; as languages the display names of the
    first three entries, joined by comma and space; coordinates exactly
    when the object gives both latitude and longitude; and the name
    "Unknown" when the name is absent. *)
Theorem C8_createCountryCard_fields (c : country) :
  let shown := createCountryCard c in
  (population c = None ∨ population c = Some 0%N → card_population shown = js "N/A") ∧
  (∀ p, population c = Some p → (1000000 ≤ p < 2 ^ 53)%N →
        card_population shown = toFixed 1 (number p / number 1000000) ++ js "M") ∧
  (∀ p, population c = Some p → (1000 ≤ p < 1000000)%N →
        card_population shown = toFixed 0 (number p / number 1000) ++ js "K") ∧
  (∀ p, population c = Some p → (0 < p < 1000)%N →
        card_population shown = js (pretty p)) ∧
  card_capital shown = default (js "N/A") (capital c ≫= head) ∧
  (∀ byCode, languages c = Some byCode →
        card_languages shown = join (js ", ") (take 3 byCode.*2)) ∧
  card_lat shown = lat <$> coordinates c ∧
  card_lng shown = lng <$> coordinates c ∧
  (is_Some (coordinates c) ↔ ∃ a b rest, latlng c = Some (a :: b :: rest)) ∧
  (name_common c = None → card_name shown = js "Unknown").
Proof.
  destruct c as [nm svg png rg srg pop cap cur lang ll].
  unfold createCountryCard, coordinates; simpl. repeat split.
  - by intros [-> | ->].
  - intros p -> [Hlo Hhi]. destruct p as [|p]; [lia|].
    by apply N.leb_le in Hlo as ->.
  - intros p -> [Hlo Hhi]. destruct p as [|p]; [lia|].
    apply N.leb_le in Hlo as ->.
    by destruct (N.leb_spec 1000000 (N.pos p)); [lia|].
  - intros p -> [Hlo Hhi]. destruct p as [|p]; [lia|].
    destruct (N.leb_spec 1000000 (N.pos p)); [lia|].
    by destruct (N.leb_spec 1000 (N.pos p)); [lia|].
  - by destruct cap as [[|first rest]|].
  - by intros byCode ->.
  - by destruct ll as [[|a [|b rest]]|].
  - by destruct ll as [[|a [|b rest]]|].
  - destruct ll as [[|a [|b rest]]|]; intros [x Hx]; try done. by exists a, b, rest.
  - intros (a & b & rest & ->). by eexists.
  - by intros ->.
Qed.

(** C8 as stated fails at a population of zero: it is present, and the
    card shows "N/A", not the integer. *)
Lemma C8_population_zero_shown_as_absent :
  population bouvet_island = Some 0%N ∧
  card_population (createCountryCard bouvet_island) = js "N/A" ∧
  js "N/A" ≠ js (pretty 0%N).
Proof. by vm_compute. Qed.

Example card_of_japan :
  let shown := createCountryCard japan in
  card_name shown = js "Japan" ∧ card_capital shown = js "Tokyo" ∧
  card_population shown = js "125.7M" ∧ card_languages shown = js "Japanese" ∧
  card_currencies shown = js "Japanese yen".
Proof. by vm_compute. Qed.

(** The division is the one of doubles: 1,150,000 / 1,000,000 is below
    1.15 and shows as 1.1, while 1,250,000 / 1,000,000 is 1.25 and shows
    as 1.3. *)
Example population_ties :
  toFixed 1 (number 1150000 / number 1000000) = js "1.1" ∧
  toFixed 1 (number 1250000 / number 1000000) = js "1.3" ∧
  toFixed 0 (number 999999 / number 1000) = js "1000" ∧
  toFixed 0 (number 1500 / number 1000) = js "2".
Proof. by vm_compute. Qed.

End Cards.

(** ** C6: cards, markers and the viewport *)

Section Display.

Lemma contains_extend_old b p q : contains b p → contains (extend b q) p.
Proof.
  unfold contains, extend; simpl. intros (H1 & H2 & H3 & H4).
  pose proof (Q.le_min_l (lat (southWest b)) (lat q)).
  pose proof (Q.le_max_l (lat (northEast b)) (lat q)).
  pose proof (Q.le_min_l (lng (southWest b)) (lng q)).
  pose proof (Q.le_max_l (lng (northEast b)) (lng q)).
  repeat split; eapply Qle_trans; eassumption.
Qed.

Lemma contains_extend_new b q : contains (extend b q) q.
Proof.
  unfold contains, extend; simpl.
  repeat split;
    apply Q.le_min_r || apply Q.le_max_r.
Qed.

Lemma grown_side (a c x h : Q) :
  (0 <= h → a <= x → x <= c → a - h <= x ∧ x <= c + h)%Q.
Proof. intros. split; lra. Qed.

Lemma contains_pad b r p : (0 <= r)%Q → contains b p → contains (pad b r) p.
Proof.
  unfold contains, pad. cbn [lat lng southWest northEast].
  intros Hr (H1 & H2 & H3 & H4).
  pose proof (Qabs_nonneg (lat (southWest b) - lat (northEast b))) as Hh.
  pose proof (Qabs_nonneg (lng (southWest b) - lng (northEast b))) as Hw.
  destruct (grown_side _ _ _ _ (Qmult_le_0_compat _ _ Hh Hr) H1 H2).
  destruct (grown_side _ _ _ _ (Qmult_le_0_compat _ _ Hw Hr) H3 H4).
  done.
Qed.

(** Extending a box by the positions of markers keeps what it contained
    and takes every marker in. *)
Lemma contains_fold ms : ∀ b,
  let b' := foldl (λ b m', extend b (position m')) b ms in
  (∀ p, contains b p → contains b' p) ∧
  (∀ m, m ∈ ms → contains b' (position m)).
Proof.
  induction ms as [|m ms IH]; intros b; simpl.
  - split; [done|]. intros m Hm. by apply elem_of_nil in Hm.
  - destruct (IH (extend b (position m))) as [Hold Hnew]. split.
    + intros p Hp. by apply Hold, contains_extend_old.
    + intros m' [->|Hm']%elem_of_cons; [|by apply Hnew].
      apply Hold, contains_extend_new.
Qed.

(** The bounds of a group contain each of its markers. *)
Lemma getBounds_contains ms b m :
  getBounds ms = Some b → m ∈ ms → contains b (position m).
Proof.
  destruct ms as [|m0 ms]; [done|]. simpl. intros [= <-] Hm.
  destruct (contains_fold ms {| southWest := position m0; northEast := position m0 |})
    as [Hold Hnew].
  apply elem_of_cons in Hm as [->|Hm]; [|by apply Hnew].
  apply Hold. unfold contains; simpl. repeat split; apply Qle_refl.
Qed.

(** The loop appends one card for each country and one marker for each
    country that has coordinates, when there is a map. *)
Lemma display_loop_spec (countries : list country) mapInstance : ∀ children markerArray,
  display_loop countries mapInstance children markerArray =
    (children ++ (createCountryCard <$> countries),
     markerArray ++ match mapInstance with
                    | Some _ => omap country_marker countries
                    | None => []
                    end).
Proof.
  induction countries as [|c cs IH]; intros children markerArray; simpl.
  - by destruct mapInstance; rewrite !app_nil_r.
  - rewrite IH. destruct (country_marker c), mapInstance; simpl;
      by rewrite <- ?app_assoc.
Qed.

Lemma country_marker_position c : position <$> country_marker c = coordinates c.
Proof.
  unfold country_marker, coordinates.
  by destruct (latlng c) as [[|a [|b rest]]|].
Qed.

Lemma markers_positions (cs : list country) :
  position <$> omap country_marker cs = omap coordinates cs.
Proof.
  induction cs as [|c cs IH]; [done|]. simpl.
  rewrite <- country_marker_position.
  destruct (country_marker c); simpl; [f_equal|]; exact IH.
Qed.

Lemma length_omap_filter {A B} (f : A → option B) (l : list A) :
  length (omap f l) = length (filter (λ x, is_Some (f x)) l).
Proof.
  induction l as [|x l IH]; [done|]. simpl. rewrite filter_cons.
  destruct (f x) eqn:E; simpl.
  - f_equal. exact IH.
  - exact IH.
Qed.

(** What [displayResults] does on a page that has the grid. *)
Lemma displayResults_on_grid countries gridId mapInstance markerArray
    (grids : gmap string (list card)) :
  is_Some (grids !! gridId) →
  displayResults countries gridId mapInstance markerArray grids =
    let markers := match mapInstance with
                   | Some _ => omap country_marker countries
                   | None => []
                   end in
    (<[gridId := createCountryCard <$> countries]> grids,
     match mapInstance, getBounds markers with
     | Some _, Some bounds => Some {| current_view := FitBounds (pad bounds (3 # 10)) |}
     | _, _ => mapInstance
     end,
     markers).
Proof.
  intros [old Hold]. unfold displayResults. rewrite Hold.
  by rewrite display_loop_spec.
Qed.

(** The two guards of [displayResults]: without the grid it does nothing,
    and without a map it shows the cards and places no marker. *)
Lemma displayResults_without_grid countries gridId mapInstance markerArray
    (grids : gmap string (list card)) :
  grids !! gridId = None →
  displayResults countries gridId mapInstance markerArray grids
  = (grids, mapInstance, markerArray).
Proof. intros Hnone. unfold displayResults. by rewrite Hnone. Qed.

Lemma displayResults_without_map countries gridId markerArray
    (grids : gmap string (list card)) :
  is_Some (grids !! gridId) →
  displayResults countries gridId None markerArray grids
  = (<[gridId := createCountryCard <$> countries]> grids, None, []).
Proof. intros Hgrid. by rewrite displayResults_on_grid. Qed.

(** [displayResults] keeps the grids that the page has and a map that was
    there. *)
Lemma displayResults_keeps countries gridId mapInstance markerArray
    (grids : gmap string (list card)) g :
  is_Some (grids !! g) →
  is_Some ((displayResults countries gridId mapInstance markerArray grids).1.1 !! g) ∧
  (is_Some mapInstance →
   is_Some (displayResults countries gridId mapInstance markerArray grids).1.2).
Proof.
  intros Hg. destruct (grids !! gridId) as [old|] eqn:E.
  - rewrite displayResults_on_grid by done. simpl. split.
    + destruct (decide (gridId = g)) as [->|Hne].
      * by rewrite lookup_insert_eq.
      * by rewrite lookup_insert_ne.
    + intros [m ->]. by destruct (getBounds _).
  - by rewrite displayResults_without_grid.
Qed.

(** C6.  On a page that has the grid and a map, [displayResults] with N
    country objects of which K have a coordinate pair replaces the cards
    of the grid by the N cards of the objects, whatever was shown before,
    and rebuilds the marker array, whatever it held, into K markers at the
    coordinates of the K objects that have a pair, in order; if K is at
    least 1 the map is asked to fit the bounds of the K markers padded by
    3/10, which contain every marker, and if K is 0 the map keeps its
    view. *)
Theorem C6_displayResults_markers
    (countries : list country) (gridId : string) (m : leaflet_map)
    (markerArray : list marker) (grids : gmap string (list card)) :
  is_Some (grids !! gridId) →
  let K := length (filter (λ c, is_Some (coordinates c)) countries) in
  ∃ markers map',
    displayResults countries gridId (Some m) markerArray grids =
      (<[gridId := createCountryCard <$> countries]> grids, map', markers) ∧
    position <$> markers = omap coordinates countries ∧
    length markers = K ∧
    (1 ≤ K → ∃ bounds, getBounds markers = Some bounds ∧
               map' = Some {| current_view := FitBounds (pad bounds (3 # 10)) |} ∧
               ∀ mk, mk ∈ markers → contains (pad bounds (3 # 10)) (position mk)) ∧
    (K = 0 → map' = Some m).
Proof.
  intros Hgrid K. rewrite displayResults_on_grid by done. cbv zeta.
  eexists _, _. split; [reflexivity|].
  assert (HK : length (omap country_marker countries) = K).
  { rewrite <- (length_fmap position), markers_positions. apply length_omap_filter. }
  split; [apply markers_positions|]. split; [done|]. split.
  - intros HK1. destruct (getBounds (omap country_marker countries)) as [bounds|] eqn:Hb.
    + exists bounds. split; [done|]. split; [done|].
      intros mk Hmk. apply contains_pad; [done|]. by eapply getBounds_contains.
    + destruct (omap country_marker countries); [simpl in HK; lia|done].
  - intros HK0. rewrite HK0 in HK.
    by destruct (omap country_marker countries).
Qed.

Lemma C6_displayResults_markers_witness :
  ∃ markers map',
    displayResults [japan; no_fields] "results-grid"
      (Some {| current_view := SetView {| lat := 20; lng := 0 |} 2 |}) []
      (grids home_document) =
      (<["results-grid" := createCountryCard <$> [japan; no_fields]]> (grids home_document),
       map', markers) ∧
    position <$> markers = omap coordinates [japan; no_fields] ∧
    length markers = 1 ∧
    (1 ≤ 1 → ∃ bounds, getBounds markers = Some bounds ∧
               map' = Some {| current_view := FitBounds (pad bounds (3 # 10)) |} ∧
               ∀ mk, mk ∈ markers → contains (pad bounds (3 # 10)) (position mk)) ∧
    (1 = 0 → map' = Some {| current_view := SetView {| lat := 20; lng := 0 |} 2 |}).
Proof.
  apply (C6_displayResults_markers [japan; no_fields] "results-grid"
           {| current_view := SetView {| lat := 20; lng := 0 |} 2 |} []
           (grids home_document)).
  eexists. vm_compute. reflexivity.
Defined.

End Display.

(** ** C9: the featured destinations loader *)

Section Featured.

Lemma ok_2xx status : ok status = bool_decide (200 ≤ status < 300)%Z.
Proof.
  unfold ok. destruct (bool_decide_reflect (200 ≤ status < 300)%Z); lia.
Qed.

Lemma failed_not_loaded r : failed r → loaded r = None.
Proof.
  intros [Hr|[(status & body & -> & Hs)|(status & -> & Hs)]].
  - by destruct r.
  - simpl. destruct body as [[| |[|record rest]|]|]; try done.
    by rewrite bool_decide_false.
  - done.
Qed.

(** One turn of the loop on a lookup that loads a record or fails. *)
Lemma load_one_spec name r st :
  is_Some (loaded r) ∨ failed r →
  load_one name r st =
    {| featured_cards := featured_cards st ++ (createCountryCard <$> option_list (loaded r));
       looked_up := looked_up st ++ [name];
       warned := warned st ++ (if network_error r then [name] else []) |}.
Proof.
  intros [[record Hr]|Hf].
  - rewrite Hr. destruct r as [|status [[| |[|first rest]|]|]]; try done.
    simpl in Hr. unfold load_one. rewrite ok_2xx.
    destruct (bool_decide (200 ≤ status < 300)%Z); [|done].
    injection Hr as ->. simpl. by rewrite app_nil_r.
  - rewrite (failed_not_loaded r Hf). simpl. rewrite app_nil_r.
    destruct Hf as [Hr|[(status & body & -> & Hs)|(status & -> & Hs)]].
    + by destruct r.
    + unfold load_one. rewrite ok_2xx, bool_decide_false by done.
      simpl. by rewrite app_nil_r.
    + unfold load_one. rewrite ok_2xx, bool_decide_true by done.
      simpl. by rewrite app_nil_r.
Qed.

Lemma load_from_spec (names : list jsstring) (network : nat → lookup) : ∀ i st,
  (∀ j, i ≤ j < i + length names → is_Some (loaded (network j)) ∨ failed (network j)) →
  load_from i names network st =
    {| featured_cards :=
         featured_cards st
         ++ (createCountryCard <$> omap (λ j, loaded (network j)) (seq i (length names)));
       looked_up := looked_up st ++ names;
       warned :=
         warned st
         ++ omap (λ jn : nat * jsstring,
                    if network_error (network jn.1) then Some jn.2 else None)
                 (zip (seq i (length names)) names) |}.
Proof.
  induction names as [|name names IH]; intros i st Hnet; simpl.
  - rewrite !app_nil_r. by destruct st.
  - rewrite IH by (intros j Hj; apply Hnet; simpl; lia).
    rewrite load_one_spec by (apply Hnet; simpl; lia). simpl.
    rewrite <- !app_assoc. f_equal.
    + f_equal. by destruct (loaded (network i)).
    + f_equal. by destruct (network_error (network i)).
Qed.

(** C9.  On a page with the featured grid, when each of the six lookups
    either loads a record (a 2xx response with a non-empty array) or
    fails (a network error, a status that is not 2xx, an empty result),
    the loader looks up each of the six names once, in list order, and
    appends to the grid the cards of the records loaded, in list order:
    what one lookup does decides its own card only.  In particular, when
    the lookups of names #2 and #5 fail and the four others load
    records, the cards of these four records are appended in list order.
    The console is warned about the names whose lookup met a network
    error. *)
Theorem C9_featured_failures_are_local (network : nat → lookup) (children : list card) :
  (∀ j, j < 6 → is_Some (loaded (network j)) ∨ failed (network j)) →
  ∃ st,
    loadFeaturedDestinations network (Some children) = Some st ∧
    looked_up st = featuredCountries ∧
    featured_cards st =
      children ++ (createCountryCard <$> omap (λ j, loaded (network j)) (seq 0 6)) ∧
    (∀ c1 c3 c4 c6,
       loaded (network 0) = Some c1 → failed (network 1) →
       loaded (network 2) = Some c3 → loaded (network 3) = Some c4 →
       failed (network 4) → loaded (network 5) = Some c6 →
       featured_cards st = children ++ (createCountryCard <$> [c1; c3; c4; c6])) ∧
    warned st =
      omap (λ jn : nat * jsstring,
              if network_error (network jn.1) then Some jn.2 else None)
           (zip (seq 0 6) featuredCountries).
Proof.
  intros Hnet. eexists. split; [reflexivity|].
  rewrite load_from_spec by (intros j Hj; apply Hnet; simpl in Hj; lia).
  cbn [featured_cards looked_up warned]. split; [done|]. split; [done|]. split; [|done].
  intros c1 c3 c4 c6 H0 H1%failed_not_loaded H2 H3 H4%failed_not_loaded H5.
  simpl. by rewrite H0, H1, H2, H3, H4, H5.
Qed.

Lemma C9_featured_failures_are_local_witness :
  let network j :=
    match j with
    | 0 => LookupResponse 200 (Some (PArray [japan]))
    | 1 => LookupRejected
    | 2 => LookupResponse 200 (Some (PArray [RegionExamples.andorra; japan]))
    | 3 => LookupResponse 201 (Some (PArray [bouvet_island]))
    | 4 => LookupResponse 200 (Some (PArray []))
    | _ => LookupResponse 200 (Some (PArray [no_fields]))
    end in
  ∃ st,
    loadFeaturedDestinations network (Some []) = Some st ∧
    looked_up st = featuredCountries ∧
    featured_cards st =
      [] ++ (createCountryCard <$> omap (λ j, loaded (network j)) (seq 0 6)) ∧
    (∀ c1 c3 c4 c6,
       loaded (network 0) = Some c1 → failed (network 1) →
       loaded (network 2) = Some c3 → loaded (network 3) = Some c4 →
       failed (network 4) → loaded (network 5) = Some c6 →
       featured_cards st = [] ++ (createCountryCard <$> [c1; c3; c4; c6])) ∧
    warned st =
      omap (λ jn : nat * jsstring,
              if network_error (network jn.1) then Some jn.2 else None)
           (zip (seq 0 6) featuredCountries).
Proof.
  apply (C9_featured_failures_are_local
           (λ j, match j with
                 | 0 => LookupResponse 200 (Some (PArray [japan]))
                 | 1 => LookupRejected
                 | 2 => LookupResponse 200 (Some (PArray [RegionExamples.andorra; japan]))
                 | 3 => LookupResponse 201 (Some (PArray [bouvet_island]))
                 | 4 => LookupResponse 200 (Some (PArray []))
                 | _ => LookupResponse 200 (Some (PArray [no_fields]))
                 end) []).
  intros j Hj.
  destruct j as [|[|[|[|[|[|j]]]]]]; [left|right|left|left|right|left|lia];
    try (by eexists); [by left|].
  right. right. exists 200%Z. split; [done|lia].
Defined.

(** The loader on the lookups above: the four records loaded, in list
    order, and a warning for the name whose lookup was rejected. *)
Example featured_two_failures :
  let network j :=
    match j with
    | 0 => LookupResponse 200 (Some (PArray [japan]))
    | 1 => LookupRejected
    | 2 => LookupResponse 200 (Some (PArray [RegionExamples.andorra; japan]))
    | 3 => LookupResponse 201 (Some (PArray [bouvet_island]))
    | 4 => LookupResponse 404 (Some POther)
    | _ => LookupResponse 200 (Some (PArray [no_fields]))
    end in
  loadFeaturedDestinations network (Some [])
  = Some {| featured_cards :=
              createCountryCard <$> [japan; RegionExamples.andorra; bouvet_island; no_fields];
            looked_up := featuredCountries;
            warned := [js "Italy"] |}.
Proof. reflexivity. Qed.

(** Responses that the claim does not name, a 2xx body that is not
    JSON, [null], and a JSON string: the first ends in the [catch]
    clause with a warning, the second appends nothing, and of the
    string the loop takes the first character for a country. *)
Example featured_other_bodies :
  let network j :=
    match j with
    | 0 => LookupResponse 200 None
    | 1 => LookupResponse 200 (Some PNull)
    | 2 => LookupResponse 200 (Some (PText (js "Japan")))
    | _ => LookupRejected
    end in
  loadFeaturedDestinations network (Some [])
  = Some {| featured_cards := [createCountryCard no_fields];
            looked_up := featuredCountries;
            warned := [js "Japan"; js "Australia"; js "Morocco"; js "Iceland"] |}.
Proof. reflexivity. Qed.

End Featured.

(** ** C10: favourites *)

Section Favourites.

Implicit Types (name : jsstring) (favs : list jsstring) (store : storage).

Lemma getFavourites_save favs store :
  getFavourites (saveFavourites favs store) = Names favs.
Proof. unfold getFavourites, saveFavourites. by rewrite lookup_insert_eq. Qed.

Lemma indexOf_None favs name : indexOf favs name = None ↔ name ∉ favs.
Proof.
  induction favs as [|y favs IH]; simpl.
  - split; [intros _; apply not_elem_of_nil|done].
  - rewrite not_elem_of_cons. destruct (decide (y = name)) as [->|Hne].
    + split; [done|]. by intros [? _].
    + destruct (indexOf favs name) eqn:E; simpl.
      * split; [done|]. intros [_ H]. by apply IH in H.
      * split; [|done]. intros _. split; [done|]. by apply IH.
Qed.

(** [indexOf] finds the first occurrence. *)
Lemma indexOf_first l1 l2 name :
  name ∉ l1 → indexOf (l1 ++ name :: l2) name = Some (length l1).
Proof.
  induction l1 as [|y l1 IH]; simpl; intros Hnot.
  - by rewrite decide_True.
  - apply not_elem_of_cons in Hnot as [Hne Hnot].
    rewrite decide_False by done. by rewrite IH.
Qed.

Lemma delete_middle {A} (l1 l2 : list A) x : delete (length l1) (l1 ++ x :: l2) = l1 ++ l2.
Proof. induction l1 as [|y l1 IH]; simpl; [done|]. by rewrite IH. Qed.

(** What is absent, does not parse or is falsy reads as the empty
    array. *)
Lemma getFavourites_nothing store :
  store !! FAVOURITES_KEY = None ∨ store !! FAVOURITES_KEY = Some Unparseable ∨
  store !! FAVOURITES_KEY = Some Falsy →
  getFavourites store = Names [].
Proof. unfold getFavourites. by intros [->|[->| ->]]. Qed.

Lemma toggle_absent name store favs :
  getFavourites store = Names favs → name ∉ favs →
  getFavourites (toggleFavourite name store).1 = Names (favs ++ [name]).
Proof.
  intros Hfavs Hnot. unfold toggleFavourite. rewrite Hfavs.
  apply indexOf_None in Hnot as ->. simpl. apply getFavourites_save.
Qed.

Lemma toggle_present name store l1 l2 :
  getFavourites store = Names (l1 ++ name :: l2) → name ∉ l1 →
  getFavourites (toggleFavourite name store).1 = Names (l1 ++ l2).
Proof.
  intros Hfavs Hnot. unfold toggleFavourite.
  rewrite Hfavs, indexOf_first by done. simpl.
  by rewrite getFavourites_save, delete_middle.
Qed.

Lemma isFavourite_elem name store favs :
  getFavourites store = Names favs →
  isFavourite name store = Returns (bool_decide (name ∈ favs)).
Proof.
  intros Hfavs. unfold isFavourite. rewrite Hfavs. simpl.
  destruct (indexOf favs name) eqn:E.
  - rewrite bool_decide_true; [done|].
    destruct (decide (name ∈ favs)) as [|Hn]; [done|].
    apply indexOf_None in Hn. congruence.
  - apply indexOf_None in E. by rewrite bool_decide_false.
Qed.

(** On a value that is not an array the call throws and changes
    nothing. *)
Lemma toggle_throws name store :
  (∀ favs, getFavourites store ≠ Names favs) →
  toggleFavourite name store = (store, Throws).
Proof.
  intros Hno. unfold toggleFavourite.
  destruct (getFavourites store) as [favs| |]; [by destruct (Hno favs)|done|done].
Qed.

(** C10, as amended.  An item that is absent, does not parse or parses
    to a falsy value reads as the empty array.  When [getFavourites]
    reads an array of names: if the name is not in it, toggling it twice
    restores the array read back; if the name is in it once, the first
    toggle removes it and the second appends it at the end, so that the
    array read back has the same names with the toggled one moved last;
    and if the name is in it at most once, [isFavourite] after one
    toggle is the negation of its value before.  When the item parses to
    any other truthy value (a string, an object, a number, [true]),
    [toggleFavourite] throws before it touches the button or the
    storage, and [isFavourite] is after the call what it was before: it
    is not negated. *)
Theorem C10_toggle_twice (name : jsstring) (store : storage) :
  let once := (toggleFavourite name store).1 in
  let twice := (toggleFavourite name once).1 in
  (store !! FAVOURITES_KEY = None ∨ store !! FAVOURITES_KEY = Some Unparseable ∨
   store !! FAVOURITES_KEY = Some Falsy → getFavourites store = Names []) ∧
  (∀ favs, getFavourites store = Names favs →
     (name ∉ favs → getFavourites twice = Names favs) ∧
     (∀ l1 l2, favs = l1 ++ name :: l2 → name ∉ l1 → name ∉ l2 →
        getFavourites once = Names (l1 ++ l2) ∧
        getFavourites twice = Names (l1 ++ l2 ++ [name]) ∧
        l1 ++ l2 ++ [name] ≡ₚ favs) ∧
     ((∀ l1 l2, favs = l1 ++ name :: l2 → name ∉ l1 → name ∉ l2) →
        isFavourite name store = Returns (bool_decide (name ∈ favs)) ∧
        isFavourite name once = Returns (negb (bool_decide (name ∈ favs))))) ∧
  ((∀ favs, getFavourites store ≠ Names favs) →
     toggleFavourite name store = (store, Throws) ∧
     once = store ∧ twice = store ∧
     isFavourite name once = isFavourite name store ∧
     (∀ b, isFavourite name store = Returns b →
           isFavourite name once ≠ Returns (negb b))).
Proof.
  intros once twice. split; [apply getFavourites_nothing|]. split.
  - intros favs Hfavs. split; [|split].
    + intros Hnot. subst twice.
      rewrite (toggle_present name once favs []).
      * by rewrite app_nil_r.
      * subst once. by rewrite (toggle_absent name store favs).
      * done.
    + intros l1 l2 -> H1 H2.
      assert (Honce : getFavourites once = Names (l1 ++ l2))
        by (by eapply toggle_present).
      split; [done|]. split.
      * subst twice. rewrite (toggle_absent name once (l1 ++ l2)); [|done|].
        { by rewrite <- app_assoc. }
        by intros [?|?]%elem_of_app.
      * by rewrite (Permutation_app_comm l2 [name]).
    + intros Honly. split; [by apply isFavourite_elem|].
      destruct (decide (name ∈ favs)) as [Hin|Hnot]; last first.
      * rewrite (isFavourite_elem name once (favs ++ [name]))
          by (by apply toggle_absent).
        rewrite bool_decide_true by (apply elem_of_app; right; by left).
        by rewrite bool_decide_false.
      * apply list_elem_of_split_l in Hin as (l1 & l2 & -> & H1).
        pose proof (Honly l1 l2 eq_refl H1) as H2.
        rewrite (isFavourite_elem name once (l1 ++ l2))
          by (by apply toggle_present).
        rewrite bool_decide_false by (by intros [?|?]%elem_of_app).
        rewrite bool_decide_true; [done|].
        apply elem_of_app. right. by left.
  - intros Hno. pose proof (toggle_throws name store Hno) as Hthrows.
    assert (Honce : once = store) by (subst once; by rewrite Hthrows).
    assert (Htwice : twice = store) by (subst twice; by rewrite Honce, Hthrows).
    split; [done|]. split; [done|]. split; [done|]. rewrite Honce.
    split; [done|]. intros b ->. by destruct b.
Qed.

(** C10 as stated fails: with two favourites stored, toggling the first
    one twice reads back the list in another order. *)
Lemma C10_toggle_twice_reorders :
  let store : storage := {[ FAVOURITES_KEY := Truthy (Names [js "Japan"; js "Italy"]) ]} in
  let once := (toggleFavourite (js "Japan") store).1 in
  let twice := (toggleFavourite (js "Japan") once).1 in
  getFavourites store = Names [js "Japan"; js "Italy"] ∧
  getFavourites twice = Names [js "Italy"; js "Japan"] ∧
  getFavourites twice ≠ getFavourites store.
Proof. by vm_compute. Qed.

(** A stored text that does not parse reads as the empty list, and two
    toggles from there read as the empty list again. *)
Example toggle_twice_unparseable :
  let store : storage := {[ FAVOURITES_KEY := Unparseable ]} in
  let once := (toggleFavourite (js "Japan") store).1 in
  getFavourites store = Names [] ∧ getFavourites once = Names [js "Japan"] ∧
  getFavourites (toggleFavourite (js "Japan") once).1 = Names [].
Proof. by vm_compute. Qed.

(** A stored JSON string: [isFavourite] is the search in the text, the
    toggle throws, and the name stays what it was; on a stored object
    both calls throw. *)
Example toggle_on_a_stored_string :
  let text : storage := {[ FAVOURITES_KEY := Truthy (Text 74 (js "apan, Italy")) ]} in
  let object : storage := {[ FAVOURITES_KEY := Truthy Other ]} in
  isFavourite (js "Japan") text = Returns true ∧
  isFavourite (js "Peru") text = Returns false ∧
  toggleFavourite (js "Japan") text = (text, Throws) ∧
  toggleFavourite (js "Peru") text = (text, Throws) ∧
  isFavourite (js "Japan") object = Throws ∧
  toggleFavourite (js "Japan") object = (object, Throws).
Proof. by vm_compute. Qed.

(** Lists without repetition are the ones that toggling writes: a toggle
    keeps a list free of repetitions, and in such a list a name occurs at
    most once. *)
Lemma toggle_NoDup name store favs :
  getFavourites store = Names favs → NoDup favs →
  ∃ favs', getFavourites (toggleFavourite name store).1 = Names favs' ∧ NoDup favs'.
Proof.
  intros Hfavs Hnd. destruct (decide (name ∈ favs)) as [Hin|Hnot].
  - apply list_elem_of_split_l in Hin as (l1 & l2 & -> & H1).
    exists (l1 ++ l2). split; [by apply toggle_present|].
    apply NoDup_app in Hnd as (Hn1 & Hn12 & Hn2).
    apply NoDup_cons in Hn2 as [_ Hn2].
    apply NoDup_app. split; [done|]. split; [|done].
    intros x Hx1 Hx2. apply (Hn12 x Hx1). by right.
  - exists (favs ++ [name]). split; [by apply toggle_absent|].
    apply NoDup_app. split; [done|]. split; [|apply NoDup_singleton].
    intros x Hx ->%list_elem_of_singleton. done.
Qed.

Lemma NoDup_once name favs :
  NoDup favs → ∀ l1 l2, favs = l1 ++ name :: l2 → name ∉ l1 → name ∉ l2.
Proof.
  intros Hnd l1 l2 -> _. apply NoDup_app in Hnd as (_ & _ & Hn2).
  by apply NoDup_cons in Hn2 as [? _].
Qed.

End Favourites.

(** ** The search: frame lemmas *)

(** Unfold the page operations and split on what they inspect. *)
Ltac unfold_page :=
  unfold searchForm_resume, destSearchForm_resume, searchForm_submit,
    destSearchForm_submit, leave, searchCountries, showFeedback, toggleSpinner,
    set_main_display, set_dest_display, same_display, same_controllers,
    ViewState, signal_aborted in *.

Ltac abstract_display :=
  repeat match goal with
    | |- context [displayResults ?a ?b ?c ?d ?e] =>
        destruct (displayResults a b c d e) as [[? ?] ?]
    end.

Ltac page_cases :=
  repeat (progress (unfold_page; abstract_display; simpl in * );
          repeat (case_match; simpl in *; try done)).

Section Frames.

Implicit Types (p : page) (ev : event).

Lemma leave_returns c e p :
  (leave c e p).2 = match e with Data data => data | _ => [] end.
Proof. done. Qed.

Lemma leave_display c e p : same_display p (leave c e p).1.
Proof. page_cases. Qed.

Lemma leave_controllers c e p : same_controllers p (leave c e p).1.
Proof. page_cases. Qed.

Lemma leave_pending c e p : pending (leave c e p).1 = pending p.
Proof. page_cases. Qed.

Lemma leave_silent c p :
  feedbacks (doc (leave c Aborted p).1) = feedbacks (doc p).
Proof. page_cases. Qed.

(** Issuing a search leaves what is displayed alone. *)
Lemma submit_view p sf value : ViewState (step p (Submit sf value)) = ViewState p.
Proof. simpl. destruct sf; page_cases. Qed.

Lemma step_elements p ev : elements (doc (step p ev)) = elements (doc p).
Proof. destruct ev as [[] value|id s]; page_cases. Qed.

Lemma run_elements evs : ∀ p, elements (doc (run p evs)) = elements (doc p).
Proof.
  induction evs as [|ev evs IH]; intros p; simpl; [done|].
  unfold run in IH. by rewrite IH, step_elements.
Qed.

Lemma listening_elements sf d d' :
  elements d' = elements d → listening sf d' = listening sf d.
Proof. unfold listening. by intros ->. Qed.

(** *** Controllers

    Only a submit that issues a request touches the controllers: it aborts
    the current one, if any, and makes a new one current. *)

Lemma settle_controllers p id s : same_controllers p (step p (Settle id s)).
Proof. page_cases. Qed.

Lemma submit_refused_controllers p sf value :
  listening sf (doc p) = false ∨ valid (validateSearchInput value) = false →
  same_controllers p (step p (Submit sf value)).
Proof.
  intros [H|H]; simpl; [by rewrite H|].
  destruct (listening sf (doc p)); [|done].
  destruct sf; unfold searchForm_submit, destSearchForm_submit; rewrite H; page_cases.
Qed.

Lemma submit_issues p sf value :
  listening sf (doc p) = true → valid (validateSearchInput value) = true →
  controllers (step p (Submit sf value)) = superseding p ∧
  currentAbortController (step p (Submit sf value)) = Some (length (controllers p)) ∧
  pending (step p (Submit sf value)) !! length (controllers p) = Some (issued sf value).
Proof.
  intros Hl Hv. unfold superseding. simpl. rewrite Hl.
  destruct sf; unfold searchForm_submit, destSearchForm_submit; rewrite Hv; simpl;
    page_cases; simplify_eq; rewrite ?length_insert, ?lookup_insert_eq; done.
Qed.

Lemma step_controllers_cases p ev :
  same_controllers p (step p ev) ∨
  (controllers (step p ev) = superseding p ∧
   currentAbortController (step p ev) = Some (length (controllers p))).
Proof.
  destruct ev as [sf value|id s]; [|left; apply settle_controllers].
  destruct (listening sf (doc p)) eqn:Hl;
    [|left; apply submit_refused_controllers; by left].
  destruct (valid (validateSearchInput value)) eqn:Hv;
    [|left; apply submit_refused_controllers; by right].
  right. by destruct (submit_issues p sf value Hl Hv) as (? & ? & _).
Qed.

Lemma superseding_lookup p id :
  superseded_aborted p → id < length (controllers p) →
  superseding p !! id = Some true.
Proof.
  intros [Hab Hcur] Hid. unfold superseding.
  destruct (currentAbortController p) as [current|] eqn:E.
  - rewrite lookup_app_l by (by rewrite length_insert).
    destruct (decide (current = id)) as [->|Hne].
    + by rewrite list_lookup_insert_eq.
    + rewrite list_lookup_insert_ne by done.
      assert (Hs : signal_aborted p id = true) by (apply Hab; [done|congruence]).
      unfold signal_aborted in Hs.
      by destruct (controllers p !! id) as [[]|] eqn:El.
  - rewrite lookup_app_l by done.
    assert (Hs : signal_aborted p id = true) by (by apply Hab).
    unfold signal_aborted in Hs.
    by destruct (controllers p !! id) as [[]|] eqn:El.
Qed.

Lemma superseding_length p : length (superseding p) = S (length (controllers p)).
Proof.
  unfold superseding. rewrite length_app. simpl.
  destruct (currentAbortController p); rewrite ?length_insert; lia.
Qed.

Lemma superseding_keeps p id :
  controllers p !! id = Some true → superseding p !! id = Some true.
Proof.
  intros Hid. pose proof (lookup_lt_Some _ _ _ Hid) as Hlt.
  unfold superseding. destruct (currentAbortController p) as [current|].
  - rewrite lookup_app_l by (by rewrite length_insert).
    destruct (decide (current = id)) as [->|Hne].
    + by rewrite list_lookup_insert_eq.
    + by rewrite list_lookup_insert_ne.
  - by rewrite lookup_app_l.
Qed.

Lemma load_superseded_aborted d : superseded_aborted (load d).
Proof. split; simpl; [intros; lia|done]. Qed.

Lemma step_superseded_aborted p ev :
  superseded_aborted p → superseded_aborted (step p ev).
Proof.
  intros Hinv. destruct (step_controllers_cases p ev) as [[Hc Hcur]|[Hc Hcur]].
  - destruct Hinv as [Hab Hlt]. unfold superseded_aborted, signal_aborted in *.
    rewrite Hc, Hcur. done.
  - split.
    + unfold signal_aborted. rewrite Hc, Hcur, superseding_length.
      intros id Hid Hne.
      assert (id < length (controllers p)) by (assert (id ≠ length (controllers p)) by congruence; lia).
      by rewrite superseding_lookup.
    + rewrite Hc, Hcur, superseding_length. intros id [= <-]. lia.
Qed.

Lemma run_superseded_aborted evs : ∀ p,
  superseded_aborted p → superseded_aborted (run p evs).
Proof.
  induction evs as [|ev evs IH]; intros p Hp; [done|].
  apply IH. by apply step_superseded_aborted.
Qed.

(** An aborted signal stays aborted, and controllers are never dropped. *)
Lemma step_aborted_stays p ev id :
  signal_aborted p id = true → signal_aborted (step p ev) id = true.
Proof.
  unfold signal_aborted.
  destruct (step_controllers_cases p ev) as [[Hc Hcur]|[Hc Hcur]]; rewrite Hc; [done|].
  destruct (controllers p !! id) as [[]|] eqn:El; try done.
  intros _. by rewrite superseding_keeps.
Qed.

Lemma run_aborted_stays evs id : ∀ p,
  signal_aborted p id = true → signal_aborted (run p evs) id = true.
Proof.
  induction evs as [|ev evs IH]; intros p Hp; [done|].
  apply IH. by apply step_aborted_stays.
Qed.

Lemma step_controllers_grow p ev :
  length (controllers p) ≤ length (controllers (step p ev)).
Proof.
  destruct (step_controllers_cases p ev) as [[Hc Hcur]|[Hc Hcur]]; rewrite Hc;
    rewrite ?superseding_length; lia.
Qed.

Lemma run_controllers_grow evs : ∀ p,
  length (controllers p) ≤ length (controllers (run p evs)).
Proof.
  induction evs as [|ev evs IH]; intros p; simpl; [done|].
  etrans; [apply (step_controllers_grow p ev)|apply IH].
Qed.

(** *** Suspended calls

    A submit that issues a request suspends a new call under the number
    of the new controller; a settlement moves its call to the body read or
    removes it; nothing else changes the suspended calls. *)

Lemma step_pending p ev :
  pending (step p ev) =
    match ev with
    | Submit sf value =>
        if listening sf (doc p) && valid (validateSearchInput value)
        then <[length (controllers p) := issued sf value]> (pending p)
        else pending p
    | Settle id s =>
        match pending p !! id with
        | None => pending p
        | Some c =>
            match resume (signal_aborted p id) (awaiting c) s with
            | Stays => pending p
            | AwaitsBody => <[id := reading_body c]> (pending p)
            | Exits _ => delete id (pending p)
            end
        end
    end.
Proof.
  destruct ev as [sf value|id s].
  - simpl. destruct (listening sf (doc p)); [|done].
    destruct sf; unfold searchForm_submit, destSearchForm_submit;
      destruct (valid (validateSearchInput value)); simpl;
      page_cases; by rewrite ?length_insert.
  - unfold step. destruct (pending p !! id) as [c|]; [|done].
    destruct (resume (signal_aborted p id) (awaiting c) s) as [| |e]; try done.
    pose proof (leave_pending c e (set_pending (delete id (pending p)) p)) as Hp.
    destruct (leave c e (set_pending (delete id (pending p)) p)) as [p' countries].
    simpl in Hp. rewrite <- Hp. destruct (caller c); page_cases.
Qed.

(** A call keeps its arguments and its caller for as long as it is
    suspended, and its number is never given to another call. *)
Lemma step_pending_old p ev id c' :
  id < length (controllers p) →
  pending (step p ev) !! id = Some c' →
  ∃ c, pending p !! id = Some c ∧ query c' = query c ∧ caller c' = caller c ∧
       feedbackId c' = feedbackId c ∧ spinnerId c' = spinnerId c.
Proof.
  intros Hid. rewrite step_pending. destruct ev as [sf value|id0 s].
  - destruct (listening sf (doc p) && valid (validateSearchInput value)).
    + rewrite lookup_insert_ne by lia. eauto 10.
    + eauto 10.
  - destruct (pending p !! id0) as [c0|] eqn:E0; [|eauto 10].
    destruct (resume _ _ s); [eauto 10| |].
    + destruct (decide (id0 = id)) as [->|Hne].
      * rewrite lookup_insert_eq. intros [= <-]. by exists c0.
      * rewrite lookup_insert_ne by done. eauto 10.
    + destruct (decide (id0 = id)) as [->|Hne].
      * by rewrite lookup_delete_eq.
      * rewrite lookup_delete_ne by done. eauto 10.
Qed.

Lemma run_pending_old evs : ∀ p id c',
  id < length (controllers p) →
  pending (run p evs) !! id = Some c' →
  ∃ c, pending p !! id = Some c ∧ query c' = query c ∧ caller c' = caller c ∧
       feedbackId c' = feedbackId c ∧ spinnerId c' = spinnerId c.
Proof.
  induction evs as [|ev evs IH]; intros p id c' Hid Hc'; [by eauto 10|].
  simpl in Hc'. apply IH in Hc' as (c1 & Hc1 & ? & ? & ? & ?).
  - apply step_pending_old in Hc1 as (c & ? & ? & ? & ? & ?); [|done].
    exists c. repeat split; congruence.
  - pose proof (step_controllers_grow p ev). lia.
Qed.

(** A call is suspended for a form that the page has. *)
Lemma run_callers_listen evs : ∀ p,
  (∀ id c, pending p !! id = Some c → listening (caller c) (doc p) = true) →
  ∀ id c, pending (run p evs) !! id = Some c →
          listening (caller c) (doc (run p evs)) = true.
Proof.
  induction evs as [|ev evs IH]; intros p Hp; [done|].
  apply IH. intros id c. rewrite step_pending.
  rewrite (listening_elements _ (doc p)) by apply step_elements.
  destruct ev as [sf value|id0 s].
  - destruct (listening sf (doc p)) eqn:Hl; simpl; [|by apply Hp].
    destruct (valid (validateSearchInput value)); [|by apply Hp].
    destruct (decide (length (controllers p) = id)) as [<-|Hne].
    + rewrite lookup_insert_eq. by intros [= <-].
    + rewrite lookup_insert_ne by done. apply Hp.
  - destruct (pending p !! id0) as [c0|] eqn:E0; [|by apply Hp].
    destruct (resume _ _ s); [by apply Hp| |].
    + destruct (decide (id0 = id)) as [->|Hne].
      * rewrite lookup_insert_eq. intros [= <-]. simpl. by eapply Hp.
      * rewrite lookup_insert_ne by done. apply Hp.
    + destruct (decide (id0 = id)) as [->|Hne].
      * by rewrite lookup_delete_eq.
      * rewrite lookup_delete_ne by done. apply Hp.
Qed.

End Frames.

(** ** C4: the outcome of a lookup *)

Section Outcomes.

(** C4, as amended.  While the signal is not aborted: a rejected [fetch]
    is a NetworkError; status 404 is Empty; any other status outside
    200-299 is a NetworkError; with a status in 200-299 the call goes on
    to read the body; a body that is not JSON is a NetworkError; a
    payload that is not a non-empty array (a falsy value, a value that is
    not an array, an empty array) is Empty; a non-empty array is Success
    with that array, which [searchCountries] returns as it is and whose
    elements the handlers show as one card each.  Once the signal is
    aborted, whatever settles the awaited promise is Cancelled. *)
Theorem C4_lookup_outcomes :
  (∀ a s, resume true a s = Stays ∨ lookup_outcome (resume true a s) = Some Cancelled) ∧
  lookup_outcome (resume true AwaitFetch FetchRejected) = Some Cancelled ∧
  lookup_outcome (resume false AwaitFetch FetchRejected) = Some NetworkError ∧
  lookup_outcome (resume false AwaitFetch (FetchResponse 404)) = Some Empty ∧
  (∀ status, ok status = false → status ≠ 404%Z →
     lookup_outcome (resume false AwaitFetch (FetchResponse status)) = Some NetworkError) ∧
  (∀ status, ok status = true →
     resume false AwaitFetch (FetchResponse status) = AwaitsBody) ∧
  lookup_outcome (resume false AwaitBody BodyRejected) = Some NetworkError ∧
  (∀ data, (∀ c cs, data ≠ PArray (c :: cs)) →
     lookup_outcome (resume false AwaitBody (BodyParsed data)) = Some Empty) ∧
  (∀ c cs, lookup_outcome (resume false AwaitBody (BodyParsed (PArray (c :: cs))))
           = Some (Success (c :: cs))) ∧
  (∀ call data p, (leave call (Data data) p).2 = data) ∧
  (∀ c cs p, is_Some (grids (doc p) !! "results-grid") →
     grids (doc (searchForm_resume (c :: cs) p)) !! "results-grid"
     = Some (createCountryCard <$> c :: cs)) ∧
  (∀ c cs p, is_Some (grids (doc p) !! "dest-grid") →
     grids (doc (destSearchForm_resume (c :: cs) p)) !! "dest-grid"
     = Some (createCountryCard <$> c :: cs)).
Proof.
  split_and!; try done.
  - intros [] []; simpl; auto.
  - intros status Hok Hne. simpl. rewrite Hok.
    by destruct (Z.eqb_spec status 404).
  - intros status Hok. simpl. by rewrite Hok.
  - intros [| |[|c cs]|] Hne; try done. by destruct (Hne c cs).
  - intros c cs p Hgrid. unfold searchForm_resume. simpl.
    rewrite displayResults_on_grid by done. simpl. by rewrite lookup_insert_eq.
  - intros c cs p Hgrid. unfold destSearchForm_resume. simpl.
    rewrite displayResults_on_grid by done. simpl. by rewrite lookup_insert_eq.
Qed.

(** C4 as stated fails for a malformed payload: on the home page, a
    search answered with status 200 and a body that is not JSON ends as a
    NetworkError, with the error notice shown. *)
Lemma C4_malformed_body_is_network_error :
  let p := run (load home_document)
             [Submit Home (js "Japan"); Settle 0 (FetchResponse 200)] in
  outcome <$> exit_at p (Settle 0 BodyRejected) = Some NetworkError ∧
  outcome <$> exit_at p (Settle 0 BodyRejected) ≠ Some Empty ∧
  feedbacks (doc (step p (Settle 0 BodyRejected))) !! "search-feedback"
  = Some (Some {| notice_text := msg_unable; notice_type := "error" |}).
Proof. by vm_compute. Qed.

End Outcomes.

(** ** C5: outcomes other than Success leave the display alone *)

Section Discard.

(** C5.  An event in which no search ends in Success (a submit, a
    settlement that ends a search as Empty, NetworkError or Cancelled, or
    one that ends none) leaves the cards of every grid and both marker
    arrays as they were. *)
Theorem C5_no_success_no_change (p : page) (ev : event) :
  (∀ countries, outcome <$> exit_at p ev ≠ Some (Success countries)) →
  ViewState (step p ev) = ViewState p.
Proof.
  intros Hno. destruct ev as [sf value|id s]; [apply submit_view|].
  unfold step. unfold exit_at in Hno.
  destruct (pending p !! id) as [c|]; [|done].
  destruct (resume (signal_aborted p id) (awaiting c) s) as [| |e]; try done.
  destruct (leave c e (set_pending (delete id (pending p)) p)) as [p' countries] eqn:El.
  pose proof (leave_display c e (set_pending (delete id (pending p)) p)) as Hd.
  pose proof (leave_returns c e (set_pending (delete id (pending p)) p)) as Hr.
  rewrite El in Hd, Hr. simpl in Hd, Hr.
  assert (countries = []) as ->.
  { destruct e; try done. by destruct (Hno data). }
  destruct Hd as (? & ? & ? & ? & ? & ?).
  destruct (caller c); unfold searchForm_resume, destSearchForm_resume, ViewState;
    simpl in *; congruence.
Qed.

Lemma C5_no_success_no_change_witness :
  let p := step (load home_document) (Submit Home (js "Xyzzyland")) in
  ViewState (step p (Settle 0 (FetchResponse 404))) = ViewState p.
Proof.
  apply (C5_no_success_no_change
           (step (load home_document) (Submit Home (js "Xyzzyland")))
           (Settle 0 (FetchResponse 404))).
  intros countries. vm_compute. discriminate.
Defined.

Example not_found_notice :
  let p := run (load home_document)
             [Submit Home (js "Xyzzyland"); Settle 0 (FetchResponse 404)] in
  feedbacks (doc p) !! "search-feedback"
  = Some (Some {| notice_text := msg_not_found (js "Xyzzyland"); notice_type := "info" |}) ∧
  grids (doc p) = grids home_document ∧ pending p = ∅.
Proof. by vm_compute. Qed.

End Discard.

(** ** C1: a superseded search is discarded *)

Section Superseded.

(** What an aborted call does when the promise it awaits settles: it
    leaves the page's suspended calls and turns its spinner off, nothing
    else. *)
Lemma cancelled_step p id s e :
  signal_aborted p id = true → exit_at p (Settle id s) = Some e →
  e = Aborted ∧
  ∃ c, pending p !! id = Some c ∧
       step p (Settle id s)
       = toggleSpinner (spinnerId c) false (set_pending (delete id (pending p)) p).
Proof.
  intros Hab. unfold exit_at, step. rewrite Hab.
  destruct (pending p !! id) as [c|]; [|done].
  destruct (resume true (awaiting c) s) as [| |e'] eqn:Er; try done.
  intros [= ->].
  assert (e = Aborted) as ->.
  { destruct (awaiting c), s; simpl in Er; congruence. }
  split; [done|]. exists c. split; [done|].
  simpl. by destruct (caller c).
Qed.

Lemma toggleSpinner_frame spinnerId show p :
  same_display p (toggleSpinner spinnerId show p) ∧
  feedbacks (doc (toggleSpinner spinnerId show p)) = feedbacks (doc p) ∧
  pending (toggleSpinner spinnerId show p) = pending p.
Proof.
  unfold toggleSpinner, same_display.
  by destruct (spinners (doc p) !! spinnerId).
Qed.

(** C1.  On a page reached by any events, let a search T1 be issued on a
    surface, and after any further events a search T2 on the same surface,
    followed by any events again.  If the promise that T1 awaits settles
    only then and ends T1, then T1 ends as Cancelled, and this changes
    neither the cards of any grid, nor a marker array, nor a map, nor the
    message of any feedback element; T1 is no longer suspended.  The call
    that ends is the one of the first submit, with its query. *)
Theorem C1_superseded_search_is_discarded
    (d : document) (before between after : list event)
    (sf : surface) (q1 q2 : jsstring) (s : settlement) (e : exit) :
  let p0 := run (load d) before in
  let T1 := length (controllers p0) in
  let p1 := run (step p0 (Submit sf q1)) between in
  let p2 := run (step p1 (Submit sf q2)) after in
  listening sf d = true →
  valid (validateSearchInput q1) = true →
  valid (validateSearchInput q2) = true →
  exit_at p2 (Settle T1 s) = Some e →
  outcome e = Cancelled ∧
  ViewState (step p2 (Settle T1 s)) = ViewState p2 ∧
  mainMap (step p2 (Settle T1 s)) = mainMap p2 ∧
  destMap (step p2 (Settle T1 s)) = destMap p2 ∧
  feedbacks (doc (step p2 (Settle T1 s))) = feedbacks (doc p2) ∧
  pending (step p2 (Settle T1 s)) !! T1 = None ∧
  ∃ c, pending p2 !! T1 = Some c ∧ query c = q1 ∧ caller c = sf.
Proof.
  intros p0 T1 p1 p2 Hl Hv1 Hv2 Hexit.
  assert (Hinv0 : superseded_aborted p0)
    by apply run_superseded_aborted, load_superseded_aborted.
  assert (Hl0 : listening sf (doc p0) = true).
  { rewrite <- Hl. apply listening_elements. unfold p0. by rewrite run_elements. }
  destruct (submit_issues p0 sf q1 Hl0 Hv1) as (Hc0 & _ & Hissued).
  assert (Hlen1 : T1 < length (controllers p1)).
  { pose proof (run_controllers_grow between (step p0 (Submit sf q1))) as Hg.
    rewrite Hc0, superseding_length in Hg. fold p1 in Hg. unfold T1. lia. }
  assert (Hinv1 : superseded_aborted p1)
    by by apply run_superseded_aborted, step_superseded_aborted.
  assert (Hl1 : listening sf (doc p1) = true).
  { rewrite <- Hl0. apply listening_elements. unfold p1.
    by rewrite run_elements, step_elements. }
  destruct (submit_issues p1 sf q2 Hl1 Hv2) as (Hc1 & Hcur1 & _).
  assert (Hab : signal_aborted p2 T1 = true).
  { apply run_aborted_stays. unfold signal_aborted.
    by rewrite Hc1, superseding_lookup. }
  destruct (cancelled_step p2 T1 s e Hab Hexit) as (-> & c & Hc & ->).
  destruct (toggleSpinner_frame (spinnerId c) false
              (set_pending (delete T1 (pending p2)) p2))
    as ((? & ? & ? & ? & ? & ?) & ? & Hp).
  assert (Hsame : query c = q1 ∧ caller c = sf).
  { apply run_pending_old in Hc as (c2 & Hc2 & -> & -> & _);
      [|rewrite Hc1, superseding_length; lia].
    apply step_pending_old in Hc2 as (c1 & Hc1' & -> & -> & _); [|done].
    apply run_pending_old in Hc1' as (c0 & Hc0' & -> & -> & _);
      [|rewrite Hc0, superseding_length; lia].
    fold T1 in Hissued. rewrite Hissued in Hc0'. by injection Hc0' as <-. }
  unfold ViewState. simpl in *. split_and!; try congruence.
  - rewrite Hp. apply lookup_delete_eq.
  - by exists c.
Qed.

Lemma C1_superseded_search_is_discarded_witness :
  let p2 := run (load home_document) [Submit Home (js "Japan"); Submit Home (js "Italy")] in
  outcome Aborted = Cancelled ∧
  ViewState (step p2 (Settle 0 (FetchResponse 200))) = ViewState p2 ∧
  mainMap (step p2 (Settle 0 (FetchResponse 200))) = mainMap p2 ∧
  destMap (step p2 (Settle 0 (FetchResponse 200))) = destMap p2 ∧
  feedbacks (doc (step p2 (Settle 0 (FetchResponse 200)))) = feedbacks (doc p2) ∧
  pending (step p2 (Settle 0 (FetchResponse 200))) !! 0 = None ∧
  ∃ c, pending p2 !! 0 = Some c ∧ query c = js "Japan" ∧ caller c = Home.
Proof.
  apply (C1_superseded_search_is_discarded home_document [] [] []
           Home (js "Japan") (js "Italy") (FetchResponse 200) Aborted);
    vm_compute; reflexivity.
Defined.

(** The search that superseded it is still the one that may display: when
    its own lookup brings Japan, the card and the marker of Japan are
    shown. *)
Example fresh_search_displays :
  let p := run (load home_document)
             [Submit Home (js "Japon"); Submit Home (js "Japan");
              Settle 0 (FetchResponse 200);
              Settle 1 (FetchResponse 200); Settle 1 (BodyParsed (PArray [japan]))] in
  grids (doc p) !! "results-grid" = Some [createCountryCard japan] ∧
  position <$> mainMarkers p = [{| lat := 36; lng := 138 |}] ∧
  pending p = ∅.
Proof. by vm_compute. Qed.

(** *** A search that succeeds on the home page

    The page keeps its grids, and the home map exists from the first
    search on, so that the conditions under which [displayResults] places
    the markers are met when a home search succeeds. *)

Lemma resume_keeps countries q g :
  is_Some (grids (doc q) !! g) →
  is_Some (grids (doc (searchForm_resume countries q)) !! g) ∧
  is_Some (grids (doc (destSearchForm_resume countries q)) !! g) ∧
  (is_Some (mainMap q) → is_Some (mainMap (searchForm_resume countries q))) ∧
  mainMap (destSearchForm_resume countries q) = mainMap q.
Proof.
  intros Hg. unfold searchForm_resume, destSearchForm_resume.
  destruct (0 <? length countries); [|done].
  pose proof (displayResults_keeps countries "results-grid" (mainMap q) (mainMarkers q)
                (grids (doc q)) g Hg) as [H1 H2].
  pose proof (displayResults_keeps countries "dest-grid" (destMap q) (destMarkers q)
                (grids (doc q)) g Hg) as [H3 _].
  unfold set_main_display, set_dest_display.
  destruct (displayResults countries "results-grid" _ _ _) as [[? ?] ?].
  destruct (displayResults countries "dest-grid" _ _ _) as [[? ?] ?].
  done.
Qed.

Lemma step_keeps p ev g :
  is_Some (grids (doc p) !! g) →
  is_Some (grids (doc (step p ev)) !! g) ∧
  (is_Some (mainMap p) → is_Some (mainMap (step p ev))).
Proof.
  intros Hg. destruct ev as [sf value|id s].
  - simpl. destruct sf; page_cases.
  - unfold step. destruct (pending p !! id) as [c|]; [|done].
    destruct (resume _ _ s) as [| |e]; try done.
    pose proof (leave_display c e (set_pending (delete id (pending p)) p))
      as (Hm & _ & _ & _ & Hgr & _).
    destruct (leave c e (set_pending (delete id (pending p)) p)) as [q countries].
    simpl in Hm, Hgr. rewrite <- Hgr in Hg. rewrite <- Hm.
    destruct (resume_keeps countries q g Hg) as (? & ? & ? & Hsame).
    destruct (caller c); [done|]. by rewrite Hsame.
Qed.

Lemma run_keeps evs g : ∀ p,
  is_Some (grids (doc p) !! g) → is_Some (grids (doc (run p evs)) !! g).
Proof.
  induction evs as [|ev evs IH]; intros p Hg; [done|].
  apply IH. by apply step_keeps.
Qed.

Lemma step_home_map_ready p ev : home_map_ready p → home_map_ready (step p ev).
Proof.
  intros Hready Hmap id c. rewrite step_elements in Hmap.
  specialize (Hready Hmap).
  assert (Hstay : is_Some (mainMap p) → is_Some (mainMap (step p ev))).
  { destruct ev as [sf value|id0 s].
    - simpl. destruct sf; page_cases.
    - unfold step. destruct (pending p !! id0) as [c0|]; [|done].
      destruct (resume _ _ s) as [| |e]; try done.
      pose proof (leave_display c0 e (set_pending (delete id0 (pending p)) p))
        as (Hm & _).
      destruct (leave c0 e (set_pending (delete id0 (pending p)) p)) as [q countries].
      simpl in Hm. rewrite <- Hm.
      unfold searchForm_resume, destSearchForm_resume, set_main_display, set_dest_display.
      destruct (caller c0), (0 <? length countries); try done.
      + intros [m Hsome]. rewrite Hsome.
        destruct (grids (doc q) !! "results-grid") eqn:E.
        * rewrite displayResults_on_grid by done. simpl. by destruct (getBounds _).
        * rewrite displayResults_without_grid by done. done.
      + by destruct (displayResults _ _ _ _ _) as [[? ?] ?]. }
  rewrite step_pending. destruct ev as [sf value|id0 s].
  - destruct (listening sf (doc p)) eqn:Hl; simpl; [|by eauto].
    destruct (valid (validateSearchInput value)) eqn:Hv; [|by eauto].
    destruct (decide (length (controllers p) = id)) as [<-|Hne].
    + rewrite lookup_insert_eq. intros [= <-] Hhome. simpl in Hhome. subst sf.
      cbn [step]. rewrite Hl. unfold searchForm_submit. rewrite Hv. simpl.
      unfold initMap. page_cases.
    + rewrite lookup_insert_ne by done. eauto.
  - destruct (pending p !! id0) as [c0|] eqn:E0; [|by eauto].
    destruct (resume _ _ s) eqn:Er; [by eauto| |].
    + destruct (decide (id0 = id)) as [->|Hne].
      * rewrite lookup_insert_eq. intros [= <-] Hhome. eauto.
      * rewrite lookup_insert_ne by done. eauto.
    + destruct (decide (id0 = id)) as [->|Hne].
      * by rewrite lookup_delete_eq.
      * rewrite lookup_delete_ne by done. eauto.
Qed.

Lemma run_home_map_ready evs : ∀ p, home_map_ready p → home_map_ready (run p evs).
Proof.
  induction evs as [|ev evs IH]; intros p Hp; [done|].
  apply IH. by apply step_home_map_ready.
Qed.

(** A home search that ends in Success on a page with the results grid
    and the map container shows one card for each country and one marker
    for each country with coordinates. *)
Lemma home_success_on_page (d : document) (history : list event) id s data c :
  let p := run (load d) history in
  let p' := step p (Settle id s) in
  "map" ∈ elements d → is_Some (grids d !! "results-grid") →
  pending p !! id = Some c → caller c = Home →
  exit_at p (Settle id s) = Some (Data data) →
  grids (doc p') !! "results-grid" = Some (createCountryCard <$> data) ∧
  position <$> mainMarkers p' = omap coordinates data.
Proof.
  intros p p' Hmap Hgrid Hc Hhome Hexit.
  assert (Hg : is_Some (grids (doc p) !! "results-grid")) by by apply run_keeps.
  assert (Hm : is_Some (mainMap p)).
  { assert (Hload : home_map_ready (load d)).
    { intros _ ? ? Hnone. simpl in Hnone. by rewrite lookup_empty in Hnone. }
    apply (run_home_map_ready history (load d) Hload) with id c; try done.
    by rewrite run_elements. }
  subst p'. unfold exit_at in Hexit. unfold step. rewrite Hc in *.
  destruct (resume _ _ s) as [| |e] eqn:Er; try done. injection Hexit as ->.
  assert (∃ c0 cs, data = c0 :: cs) as (c0 & cs & ->).
  { destruct (signal_aborted p id), (awaiting c), s as [|status| |[|t|[|c0 cs]|]];
      simpl in Er; try done;
      try (destruct (ok status); [done|destruct (status =? 404)%Z; done]).
    injection Er as <-. by eexists _, _. }
  unfold leave. rewrite Hhome. unfold searchForm_resume, toggleSpinner. simpl.
  destruct Hm as [m Hm].
  destruct (spinners (doc p) !! spinnerId c); simpl; rewrite Hm;
    rewrite displayResults_on_grid by done; simpl;
    rewrite lookup_insert_eq, <- country_marker_position;
    (split; [done|]);
    destruct (country_marker c0); simpl; f_equal; apply markers_positions.
Qed.

End Superseded.

(** ** C2: the two search surfaces *)

Section Surfaces.

(** The page has a single current controller: on a page reached by any
    events, a search issued on a form that the page has aborts the signal
    of the controller that is current and makes a new controller current.
    Issuing changes no grid and no marker array.  A call is suspended
    only for a form that the page has. *)
Lemma search_aborts_current_controller
    (d : document) (history : list event) (sf : surface) (value : jsstring) (id : nat) :
  let p := run (load d) history in
  let p' := step p (Submit sf value) in
  listening sf d = true →
  valid (validateSearchInput value) = true →
  currentAbortController p = Some id →
  signal_aborted p' id = true ∧
  currentAbortController p' = Some (length (controllers p)) ∧
  id < length (controllers p) ∧
  ViewState p' = ViewState p ∧
  (∀ id' c, pending p !! id' = Some c → listening (caller c) d = true).
Proof.
  intros p p' Hl Hv Hcur.
  assert (Hinv : superseded_aborted p)
    by apply run_superseded_aborted, load_superseded_aborted.
  assert (Hl' : listening sf (doc p) = true).
  { rewrite <- Hl. apply listening_elements. unfold p. by rewrite run_elements. }
  destruct (submit_issues p sf value Hl' Hv) as (Hc & Hnew & _).
  pose proof (proj2 Hinv id Hcur) as Hlt.
  split; [|split; [done|split; [done|split; [apply submit_view|]]]]; last first.
  { intros id' c Hpend. rewrite <- (listening_elements _ d (doc p)).
    - by apply (run_callers_listen history (load d)) in Hpend.
    - unfold p. by rewrite run_elements. }
  unfold signal_aborted. subst p'. rewrite Hc. unfold superseding. rewrite Hcur.
  rewrite lookup_app_l by (by rewrite length_insert).
  by rewrite list_lookup_insert_eq.
Qed.




(** The hypothesis is needed: on a page made up with both forms, the two
    handlers would share the variable, and a search on the destinations
    form would abort the request in flight of the home form. *)
Example shared_controller_on_a_page_with_both_forms :
  let before := run (load both_forms_document) [Submit Home (js "Japan")] in
  let p := step before (Submit Destinations (js "Italy")) in
  caller <$> pending before !! 0 = Some Home ∧
  signal_aborted before 0 = false ∧
  caller <$> pending p !! 0 = Some Home ∧
  caller <$> pending p !! 1 = Some Destinations ∧
  signal_aborted p 0 = true ∧
  outcome <$> exit_at p (Settle 0 (FetchResponse 200)) = Some Cancelled ∧
  grids (doc (step p (Settle 0 (FetchResponse 200)))) !! "results-grid" = Some [].
Proof. by vm_compute. Qed.

End Surfaces.

(** ** C7: the loading indicator *)

Section Spinner.

(** A search that is issued turns its spinner on. *)
Lemma submit_spinner_on p sf value :
  listening sf (doc p) = true → valid (validateSearchInput value) = true →
  let spinner := match sf with Home => "search-spinner" | Destinations => "dest-spinner" end in
  is_Some (spinners (doc p) !! spinner) →
  spinners (doc (step p (Submit sf value))) !! spinner = Some true.
Proof.
  intros Hl Hv spinner [b Hb]. simpl. rewrite Hl. subst spinner.
  destruct sf; unfold searchForm_submit, destSearchForm_submit; rewrite Hv; simpl;
    page_cases; rewrite ?lookup_insert_eq; congruence.
Qed.

(** Every way out of a search turns its spinner off, and leaves the other
    suspended calls suspended. *)
Lemma exit_spinner_off p id s e c :
  pending p !! id = Some c → exit_at p (Settle id s) = Some e →
  is_Some (spinners (doc p) !! spinnerId c) →
  spinners (doc (step p (Settle id s))) !! spinnerId c = Some false ∧
  ∀ id', id' ≠ id → pending (step p (Settle id s)) !! id' = pending p !! id'.
Proof.
  intros Hc He [b Hb]. unfold exit_at in He. unfold step. rewrite Hc in *.
  destruct (resume (signal_aborted p id) (awaiting c) s) as [| |e']; try done.
  assert (Hoff : spinners (doc (leave c e' (set_pending (delete id (pending p)) p)).1)
                 !! spinnerId c = Some false ∧
                 pending (leave c e' (set_pending (delete id (pending p)) p)).1
                 = delete id (pending p)).
  { unfold leave, showFeedback, toggleSpinner.
    destruct e'; simpl; repeat (case_match; simpl in * );
      rewrite ?lookup_insert_eq; try done; congruence. }
  destruct (leave c e' (set_pending (delete id (pending p)) p)) as [p' countries].
  simpl in Hoff. destruct Hoff as [Hoff Hpend].
  assert (Hres : ∀ q, (spinners (doc (searchForm_resume countries q)) = spinners (doc q) ∧
                       pending (searchForm_resume countries q) = pending q) ∧
                      (spinners (doc (destSearchForm_resume countries q)) = spinners (doc q) ∧
                       pending (destSearchForm_resume countries q) = pending q)).
  { intros q. unfold searchForm_resume, destSearchForm_resume,
      set_main_display, set_dest_display.
    destruct (0 <? length countries); [|done].
    by destruct (displayResults _ _ _ _ _) as [[? ?] ?],
                (displayResults _ _ _ _ _) as [[? ?] ?]. }
  destruct (Hres p') as [[Hs1 Hp1] [Hs2 Hp2]].
  destruct (caller c); rewrite ?Hs1, ?Hp1, ?Hs2, ?Hp2, Hpend;
    (split; [done|]); intros id' Hne; by rewrite lookup_delete_ne.
Qed.

(** C7, evaluated on the home page for two overlapping searches: while
    the second search is in flight, its signal not aborted, the spinner
    that it turned on is off again, turned off by the first search as it
    ended cancelled. *)
Theorem C7_superseded_search_hides_spinner :
  let issued := run (load home_document) [Submit Home (js "Japan"); Submit Home (js "Italy")] in
  let p := step issued (Settle 0 FetchRejected) in
  spinners (doc issued) !! "search-spinner" = Some true ∧
  outcome <$> exit_at issued (Settle 0 FetchRejected) = Some Cancelled ∧
  query <$> pending p !! 1 = Some (js "Italy") ∧
  awaiting <$> pending p !! 1 = Some AwaitFetch ∧
  signal_aborted p 1 = false ∧
  spinners (doc p) !! "search-spinner" = Some false.
Proof. by vm_compute. Qed.

(** The same for any page: when a call ends while another call with the
    same spinner is suspended, the other call goes on with the spinner
    off. *)
Lemma ending_call_hides_shared_spinner p id1 id2 c1 c2 s e :
  pending p !! id1 = Some c1 → pending p !! id2 = Some c2 → id1 ≠ id2 →
  spinnerId c1 = spinnerId c2 → is_Some (spinners (doc p) !! spinnerId c1) →
  exit_at p (Settle id1 s) = Some e →
  pending (step p (Settle id1 s)) !! id2 = Some c2 ∧
  spinners (doc (step p (Settle id1 s))) !! spinnerId c2 = Some false.
Proof.
  intros H1 H2 Hne Hsp Hs He.
  destruct (exit_spinner_off p id1 s e c1 H1 He Hs) as [Hoff Hother].
  split; [by rewrite Hother|by rewrite <- Hsp].
Qed.

End Spinner.

(** * Further properties *)

(** ** Validation: the exact condition, and surrounding whitespace *)

Section ValidationMore.

Local Open Scope nat_scope.

(** An input is accepted exactly when its trimmed form has 2 to 100 code
    units, all of them in the character class of the format check; the
    message is then empty, and otherwise one of the four messages. *)
Theorem validateSearchInput_accepts_exactly (value : jsstring) :
  (valid (validateSearchInput value) = true ↔
     2 ≤ length (trim value) ≤ 100 ∧ forallb in_class (trim value) = true) ∧
  (valid (validateSearchInput value) = true → message (validateSearchInput value) = []) ∧
  (valid (validateSearchInput value) = false →
     message (validateSearchInput value) ∈
       [msg_empty; msg_too_short; msg_too_long; msg_bad_chars]).
Proof.
  rewrite validate_by_trim. destruct (trim value) as [|c t] eqn:Et.
  { simpl. split_and!; [split; [done|lia]|done|intros _; set_solver]. }
  cbv zeta.
  destruct (length (c :: t) <? 2) eqn:E1.
  { apply Nat.ltb_lt in E1. simpl valid; simpl message.
    split_and!; [split; [done|lia]|done|intros _; set_solver]. }
  destruct (100 <? length (c :: t)) eqn:E2.
  { apply Nat.ltb_lt in E2. simpl valid; simpl message.
    split_and!; [split; [done|lia]|done|intros _; set_solver]. }
  apply Nat.ltb_ge in E1, E2.
  destruct (forallb in_class (c :: t)) eqn:E3; simpl valid; simpl message.
  - split_and!; [split; [intros _; split; [lia|done]|done]|done|done].
  - split_and!; [split; [done|intros [_ ?]; done]|done|intros _; set_solver].
Qed.

Lemma trimStart_whitespace_app pre s :
  forallb is_whitespace pre = true → trimStart (pre ++ s) = trimStart s.
Proof.
  induction pre as [|c pre IH]; simpl; [done|].
  destruct (is_whitespace c); [|done]. apply IH.
Qed.

Lemma trimStart_whitespace s : forallb is_whitespace s = true → trimStart s = [].
Proof.
  intros Hs. rewrite <- (app_nil_r s). by rewrite trimStart_whitespace_app.
Qed.

Lemma trimEnd_app_whitespace s post :
  forallb is_whitespace post = true → trimEnd (s ++ post) = trimEnd s.
Proof.
  intros Hpost. unfold trimEnd. rewrite reverse_app.
  rewrite trimStart_whitespace_app; [done|].
  apply forallb_forall. intros x Hx%list_elem_of_In.
  rewrite elem_of_reverse in Hx.
  eapply forallb_forall in Hpost; [done|]. by apply list_elem_of_In.
Qed.

Lemma trim_whitespace_around pre s post :
  forallb is_whitespace pre = true → forallb is_whitespace post = true →
  trim (pre ++ s ++ post) = trim s.
Proof.
  intros Hpre Hpost. unfold trim. rewrite trimStart_whitespace_app by done.
  induction s as [|c s IH]; simpl.
  - by rewrite trimStart_whitespace.
  - destruct (is_whitespace c); [done|].
    by rewrite app_comm_cons, trimEnd_app_whitespace.
Qed.

(** Whitespace before and after the input does not count: the verdict
    and the message are those of the input without it. *)
Theorem validateSearchInput_ignores_surrounding_whitespace (pre value post : jsstring) :
  forallb is_whitespace pre = true → forallb is_whitespace post = true →
  validateSearchInput (pre ++ value ++ post) = validateSearchInput value.
Proof.
  intros Hpre Hpost. rewrite !validate_by_trim.
  by rewrite trim_whitespace_around.
Qed.

Lemma validateSearchInput_ignores_surrounding_whitespace_witness :
  validateSearchInput (js "  " ++ js "New Zealand" ++ [9; 0xA0]%N)
  = validateSearchInput (js "New Zealand").
Proof.
  apply (validateSearchInput_ignores_surrounding_whitespace
           (js "  ") (js "New Zealand") [9; 0xA0]%N); reflexivity.
Defined.

End ValidationMore.

(** ** The request URL of a validated query *)

Section RequestUrl.

Lemma hex_digit_unreserved n : (n < 16)%N → unreserved (hex_digit n) = true.
Proof.
  intros Hn. unfold hex_digit.
  destruct (n <? 10)%N eqn:E; unfold unreserved; lia.
Qed.

Lemma percent_safe byte : (byte < 256)%N → forallb url_safe (percent byte) = true.
Proof.
  intros Hb. unfold percent, url_safe. simpl.
  rewrite !hex_digit_unreserved; [done| |].
  - apply N.mod_lt. lia.
  - apply N.Div0.div_lt_upper_bound. lia.
Qed.

Lemma bytes_safe (bytes : list N) :
  Forall (λ b, b < 256)%N bytes → forallb url_safe (bytes ≫= percent) = true.
Proof.
  induction 1 as [|b bytes Hb _ IH]; [done|].
  change ((b :: bytes) ≫= percent) with (percent b ++ (bytes ≫= percent)).
  by rewrite forallb_app, percent_safe, IH.
Qed.

Lemma escape_safe c : (c < 0x10000)%N → forallb url_safe (escape c) = true.
Proof.
  intros Hc. apply bytes_safe. unfold utf8.
  pose proof (N.Div0.div_lt_upper_bound c 4096 16 ltac:(lia)).
  pose proof (N.mod_lt c 64 ltac:(lia)).
  pose proof (N.mod_lt (c / 64) 64 ltac:(lia)).
  assert (c < 0x800 → c / 64 < 32)%N
    by (intros; apply N.Div0.div_lt_upper_bound; lia).
  repeat case_match; repeat constructor; lia.
Qed.

Lemma in_class_code_unit c :
  in_class c = true → (c < 0x10000)%N ∧ low_surrogate c = false ∧ high_surrogate c = false.
Proof. unfold in_class, is_whitespace, low_surrogate, high_surrogate. lia. Qed.

Lemma encode_in_class s :
  forallb in_class s = true →
  ∃ encoded, encodeURIComponent s = Some encoded ∧ forallb url_safe encoded = true.
Proof.
  induction s as [|c s IH]; simpl; [by eexists|].
  intros [Hc Hs]%andb_true_iff. destruct (IH Hs) as (encoded & -> & Hsafe).
  destruct (in_class_code_unit c Hc) as (Hlt & -> & ->).
  destruct (unreserved c) eqn:Eu; simpl; eexists; (split; [reflexivity|]).
  - simpl. unfold url_safe at 1. by rewrite Eu.
  - by rewrite forallb_app, escape_safe.
Qed.

Lemma valid_in_class value :
  valid (validateSearchInput value) = true → forallb in_class (trim value) = true.
Proof.
  rewrite validate_by_trim. destruct (trim value) as [|c t]; [done|].
  cbv zeta. destruct (length (c :: t) <? 2)%nat; [done|].
  destruct (100 <? length (c :: t))%nat; [done|].
  by destruct (forallb in_class (c :: t)).
Qed.

(** For every query that [validateSearchInput] accepts, building the
    request URL of [searchCountries] does not throw, and the URL is made
    of unreserved characters, percent escapes and the separators of the
    fixed prefix only: no whitespace and no character above ASCII reaches
    [fetch]. *)
Theorem validated_query_has_safe_url (query : jsstring) :
  valid (validateSearchInput query) = true →
  ∃ url, search_url query = Some url ∧ forallb url_safe url = true.
Proof.
  intros Hclass%valid_in_class.
  destruct (encode_in_class _ Hclass) as (encoded & He & Hsafe).
  exists (js "https://restcountries.com/v3.1/name/" ++ encoded).
  unfold search_url. rewrite He. split; [done|].
  by rewrite forallb_app, Hsafe.
Qed.

Lemma validated_query_has_safe_url_witness :
  ∃ url, search_url (js " C" ++ [0xF4]%N ++ js "te d'Ivoire ") = Some url ∧
         forallb url_safe url = true.
Proof.
  apply (validated_query_has_safe_url (js " C" ++ [0xF4]%N ++ js "te d'Ivoire ")).
  reflexivity.
Defined.

Example url_of_cote_d_ivoire :
  search_url (js " C" ++ [0xF4]%N ++ js "te d'Ivoire ")
  = Some (js "https://restcountries.com/v3.1/name/C%C3%B4te%20d'Ivoire").
Proof. reflexivity. Qed.

(** A name of unreserved characters is its own encoding, as for the six
    featured names. *)
Lemma encode_unreserved s :
  forallb unreserved s = true → encodeURIComponent s = Some s.
Proof.
  induction s as [|c s IH]; simpl; [done|].
  intros [-> Hs]%andb_true_iff. by rewrite IH.
Qed.

Example featured_urls :
  featured_url <$> featuredCountries
  = (λ name, Some (js "https://restcountries.com/v3.1/name/" ++ name ++ js "?fullText=true"))
      <$> featuredCountries.
Proof. reflexivity. Qed.

(** A surrogate without its pair makes [encodeURIComponent] throw; the
    format check keeps such input from reaching it. *)
Example lone_surrogate_throws :
  encodeURIComponent [0xD83D]%N = None ∧
  valid (validateSearchInput [97; 0xD83D; 98]%N) = false.
Proof. by vm_compute. Qed.

End RequestUrl.

(** ** What is displayed *)

Section Displayed.

(** The cards and the markers after [displayResults] are those of the
    results given last: nothing of what was displayed before stays, and
    displaying the same results again changes nothing, the view
    included. *)
Theorem displayResults_shows_last_results
    (first last : list country) (gridId : string) (mapInstance : option leaflet_map)
    (markerArray : list marker) (grids : gmap string (list card)) :
  let before := displayResults first gridId mapInstance markerArray grids in
  let after := displayResults last gridId before.1.2 before.2 before.1.1 in
  let direct := displayResults last gridId mapInstance markerArray grids in
  after.1.1 = direct.1.1 ∧ after.2 = direct.2 ∧
  displayResults first gridId before.1.2 before.2 before.1.1 = before.
Proof.
  destruct (grids !! gridId) as [old|] eqn:Hgrid.
  - assert (Hsome : is_Some (grids !! gridId)) by by eexists.
    rewrite !(displayResults_on_grid _ gridId mapInstance markerArray grids) by done.
    cbv zeta. cbn [fst snd].
    assert (Hin : ∀ cards, is_Some (<[gridId := cards]> grids !! gridId))
      by (intros; by rewrite lookup_insert_eq).
    rewrite !displayResults_on_grid by done. cbv zeta. cbn [fst snd].
    rewrite !insert_insert_eq. split_and!.
    + done.
    + destruct mapInstance; [by destruct (getBounds _)|done].
    + destruct mapInstance as [m|]; [|done].
      destruct (getBounds (omap country_marker first)) eqn:E; simpl; by rewrite E.
  - rewrite !(displayResults_without_grid _ gridId mapInstance markerArray grids) by done.
    cbv zeta. cbn [fst snd].
    by rewrite !displayResults_without_grid.
Qed.

Lemma card_position_created c : card_position (createCountryCard c) = coordinates c.
Proof.
  unfold card_position, createCountryCard, coordinates. simpl.
  by destruct (latlng c) as [[|a [|b rest]]|].
Qed.

Lemma cards_positions (cs : list country) :
  omap card_position (createCountryCard <$> cs) = omap coordinates cs.
Proof.
  induction cs as [|c cs IH]; [done|]. simpl.
  rewrite card_position_created. destruct (coordinates c); simpl; [f_equal|]; exact IH.
Qed.

(** What [displayResults] leaves: markers that match the cards of the
    grid it was given, and the other grids as they were. *)
Lemma displayResults_match countries gridId mapInstance markerArray
    (grids : gmap string (list card)) :
  markers_match_cards markerArray (grids !! gridId) →
  let r := displayResults countries gridId mapInstance markerArray grids in
  markers_match_cards r.2 (r.1.1 !! gridId) ∧
  ∀ g, g ≠ gridId → r.1.1 !! g = grids !! g.
Proof.
  intros Hm. destruct (grids !! gridId) as [old|] eqn:Hgrid.
  - rewrite displayResults_on_grid by (by eexists). cbv zeta. cbn [fst snd]. split.
    + destruct mapInstance; [right|by left].
      exists (createCountryCard <$> countries). rewrite lookup_insert_eq.
      split; [done|]. by rewrite markers_positions, cards_positions.
    + intros g Hg. by rewrite lookup_insert_ne.
  - rewrite displayResults_without_grid by done. cbn [fst snd]. by rewrite Hgrid.
Qed.

(** A step in which no call ends with data leaves the grids, the marker
    arrays and the maps as they were. *)
Lemma step_without_data p ev :
  (∀ data, exit_at p ev ≠ Some (Data data)) →
  grids (doc (step p ev)) = grids (doc p) ∧
  mainMarkers (step p ev) = mainMarkers p ∧ destMarkers (step p ev) = destMarkers p.
Proof.
  intros Hno. destruct ev as [sf value|id s].
  - pose proof (submit_view p sf value) as Hv. unfold ViewState in Hv.
    by injection Hv as H1 H2 H3.
  - unfold step. unfold exit_at in Hno.
    destruct (pending p !! id) as [c|]; [|done].
    destruct (resume (signal_aborted p id) (awaiting c) s) as [| |e]; try done.
    pose proof (leave_display c e (set_pending (delete id (pending p)) p))
      as (_ & _ & ? & ? & ? & _).
    pose proof (leave_returns c e (set_pending (delete id (pending p)) p)) as Hr.
    destruct (leave c e (set_pending (delete id (pending p)) p)) as [q countries].
    simpl in *. assert (countries = []) as ->.
    { destruct e; try done. by destruct (Hno data). }
    by destruct (caller c).
Qed.

(** What a step does to the display when a call ends with data. *)
Lemma step_with_data p id s data c :
  pending p !! id = Some c → exit_at p (Settle id s) = Some (Data data) →
  let q := step p (Settle id s) in
  match caller c with
  | Home =>
      (grids (doc q), mainMap q, mainMarkers q)
      = displayResults data "results-grid" (mainMap p) (mainMarkers p) (grids (doc p)) ∧
      destMarkers q = destMarkers p ∧ destMap q = destMap p
  | Destinations =>
      (grids (doc q), destMap q, destMarkers q)
      = displayResults data "dest-grid" (destMap p) (destMarkers p) (grids (doc p)) ∧
      mainMarkers q = mainMarkers p ∧ mainMap q = mainMap p
  end ∧ data ≠ [].
Proof.
  intros Hc Hexit. unfold exit_at in Hexit. cbv zeta. unfold step. rewrite Hc in *.
  destruct (resume _ _ s) as [| |e] eqn:Er; try done. injection Hexit as ->.
  assert (∃ c0 cs, data = c0 :: cs) as (c0 & cs & ->).
  { destruct (signal_aborted p id), (awaiting c), s as [|status| |[|t|[|c0 cs]|]];
      simpl in Er; try done;
      try (destruct (ok status); [done|destruct (status =? 404)%Z; done]).
    injection Er as <-. by eexists _, _. }
  split; [|done].
  unfold leave, toggleSpinner, searchForm_resume, destSearchForm_resume,
    set_main_display, set_dest_display.
  destruct (caller c); simpl;
    destruct (spinners (doc p) !! spinnerId c); simpl;
    by destruct (displayResults _ _ _ _ _) as [[? ?] ?].
Qed.

Lemma step_markers_match p ev :
  markers_match_cards (mainMarkers p) (grids (doc p) !! "results-grid") ∧
  markers_match_cards (destMarkers p) (grids (doc p) !! "dest-grid") →
  markers_match_cards (mainMarkers (step p ev)) (grids (doc (step p ev)) !! "results-grid") ∧
  markers_match_cards (destMarkers (step p ev)) (grids (doc (step p ev)) !! "dest-grid").
Proof.
  intros [Hmain Hdest].
  destruct (exit_at p ev) as [[| |data| |]|] eqn:Hexit;
    try (destruct (step_without_data p ev) as (-> & -> & ->);
         [intros data'; congruence|done]).
  destruct ev as [|id s]; [done|].
  assert (∃ c, pending p !! id = Some c) as [c Hc].
  { simpl in Hexit. destruct (pending p !! id); [by eexists|done]. }
  pose proof (step_with_data p id s data c Hc Hexit) as [Hstep _].
  destruct (caller c); destruct Hstep as (Hd & -> & _).
  - pose proof (displayResults_match data "results-grid" (mainMap p) (mainMarkers p)
                  (grids (doc p)) Hmain) as [H1 H2].
    rewrite <- Hd in H1, H2. cbn [fst snd] in H1, H2.
    split; [done|by rewrite H2].
  - pose proof (displayResults_match data "dest-grid" (destMap p) (destMarkers p)
                  (grids (doc p)) Hdest) as [H1 H2].
    rewrite <- Hd in H1, H2. cbn [fst snd] in H1, H2.
    split; [by rewrite H2|done].
Qed.

(** On every page that the submits and settlements of the two searches
    reach, the markers of a surface are at the coordinates of the cards
    that its grid shows, one marker for each card with coordinates and in
    the order of the cards, unless the surface has no marker at all. *)
Theorem markers_match_displayed_cards (d : document) (history : list event) :
  let p := run (load d) history in
  markers_match_cards (mainMarkers p) (grids (doc p) !! "results-grid") ∧
  markers_match_cards (destMarkers p) (grids (doc p) !! "dest-grid").
Proof.
  cbv zeta. unfold run.
  assert (H0 : markers_match_cards (mainMarkers (load d)) (grids (doc (load d)) !! "results-grid") ∧
               markers_match_cards (destMarkers (load d)) (grids (doc (load d)) !! "dest-grid"))
    by (split; by left).
  revert H0. generalize (load d).
  induction history as [|ev history IH]; intros p Hp; [done|].
  simpl. apply IH. by apply step_markers_match.
Qed.

End Displayed.

(** ** Requests in flight *)

Section InFlight.

Lemma step_pending_lt p ev :
  (∀ id c, pending p !! id = Some c → id < length (controllers p)) →
  ∀ id c, pending (step p ev) !! id = Some c → id < length (controllers (step p ev)).
Proof.
  intros Hlt id c. rewrite step_pending.
  pose proof (step_controllers_grow p ev) as Hgrow.
  destruct ev as [sf value|id0 s].
  - pose proof (submit_issues p sf value) as Hissue.
    remember (step p (Submit sf value)) as q.
    destruct (listening sf (doc p)) eqn:Hl; cbn [andb];
      [|intros H%Hlt; lia].
    destruct (valid (validateSearchInput value)) eqn:Hv; [|intros H%Hlt; lia].
    destruct Hissue as (Hc & _ & _); [done..|].
    rewrite Hc, superseding_length.
    destruct (decide (length (controllers p) = id)) as [<-|Hne]; [lia|].
    rewrite lookup_insert_ne by done. intros H%Hlt. lia.
  - remember (step p (Settle id0 s)) as q.
    destruct (pending p !! id0) as [c0|] eqn:E0; [|intros H%Hlt; lia].
    destruct (resume _ _ s); [intros H%Hlt; lia| |].
    + destruct (decide (id0 = id)) as [->|Hne].
      * intros _. apply Hlt in E0. lia.
      * rewrite lookup_insert_ne by done. intros H%Hlt. lia.
    + destruct (decide (id0 = id)) as [->|Hne].
      * by rewrite lookup_delete_eq.
      * rewrite lookup_delete_ne by done. intros H%Hlt. lia.
Qed.

Lemma run_pending_lt evs : ∀ p,
  (∀ id c, pending p !! id = Some c → id < length (controllers p)) →
  ∀ id c, pending (run p evs) !! id = Some c → id < length (controllers (run p evs)).
Proof.
  induction evs as [|ev evs IH]; intros p Hp; [done|].
  apply IH. by apply step_pending_lt.
Qed.

Lemma reached_pending_lt d history id c :
  pending (run (load d) history) !! id = Some c →
  id < length (controllers (run (load d) history)).
Proof.
  apply run_pending_lt. intros ? ? H. simpl in H. by rewrite lookup_empty in H.
Qed.

Lemma live_call_is_current d history id :
  is_Some (pending (run (load d) history) !! id) →
  signal_aborted (run (load d) history) id = false →
  currentAbortController (run (load d) history) = Some id.
Proof.
  set (p := run (load d) history).
  assert (Hinv : superseded_aborted p)
    by apply run_superseded_aborted, load_superseded_aborted.
  intros [c Hc] Hlive. apply reached_pending_lt in Hc.
  destruct (decide (currentAbortController p = Some id)) as [|Hne]; [done|].
  pose proof (proj1 Hinv id Hc Hne). congruence.
Qed.

(** On every page that the searches reach, a suspended call whose signal
    is not aborted is the call of the current controller: at most one
    request in flight can still deliver its response, on both surfaces
    together. *)
Theorem at_most_one_live_request (d : document) (history : list event) (id id' : nat) :
  let p := run (load d) history in
  is_Some (pending p !! id) → signal_aborted p id = false →
  currentAbortController p = Some id ∧
  (is_Some (pending p !! id') → signal_aborted p id' = false → id' = id).
Proof.
  intros p Hpend Hlive. split; [by apply live_call_is_current|].
  intros Hpend' Hlive'.
  pose proof (live_call_is_current d history id Hpend Hlive).
  pose proof (live_call_is_current d history id' Hpend' Hlive'). congruence.
Qed.

Lemma at_most_one_live_request_witness :
  let p := run (load both_forms_document)
             [Submit Home (js "Japan"); Submit Destinations (js "Italy");
              Submit Home (js "Peru")] in
  currentAbortController p = Some 2 ∧
  (is_Some (pending p !! 1) → signal_aborted p 1 = false → 1 = 2).
Proof.
  apply (at_most_one_live_request both_forms_document
           [Submit Home (js "Japan"); Submit Destinations (js "Italy");
            Submit Home (js "Peru")] 2 1).
  - eexists. vm_compute. reflexivity.
  - vm_compute. reflexivity.
Defined.

(** A step changes the cards or the markers of the page only when it
    ends the call of the current controller with data: the response to
    any search but the one issued last never reaches the display. *)
Theorem only_the_current_search_displays (d : document) (history : list event) (ev : event) :
  let p := run (load d) history in
  ViewState (step p ev) = ViewState p ∨
  ∃ id s data, ev = Settle id s ∧ exit_at p ev = Some (Data data) ∧
               currentAbortController p = Some id.
Proof.
  intros p. destruct (exit_at p ev) as [[| |data| |]|] eqn:Hexit;
    try (left; unfold ViewState;
         destruct (step_without_data p ev) as (-> & -> & ->);
         [intros data'; congruence|done]).
  right. destruct ev as [|id s]; [done|]. exists id, s, data.
  split; [done|]. split; [done|].
  assert (Hpend : is_Some (pending p !! id)).
  { simpl in Hexit. destruct (pending p !! id); [by eexists|done]. }
  apply live_call_is_current; [done|].
  simpl in Hexit. destruct Hpend as [c Hc]. rewrite Hc in Hexit.
  fold p. destruct (signal_aborted p id); [|done].
  by destruct (awaiting c), s.
Qed.

(** *** The spinner *)

Lemma step_spinners p ev :
  spinners (doc (step p ev)) =
    match ev with
    | Submit sf value =>
        if listening sf (doc p) && valid (validateSearchInput value)
        then toggled (spinnerId (issued sf value)) true (spinners (doc p))
        else spinners (doc p)
    | Settle id s =>
        match pending p !! id with
        | None => spinners (doc p)
        | Some c =>
            match resume (signal_aborted p id) (awaiting c) s with
            | Exits _ => toggled (spinnerId c) false (spinners (doc p))
            | _ => spinners (doc p)
            end
        end
    end.
Proof.
  unfold toggled. destruct ev as [sf value|id s].
  - simpl. destruct (listening sf (doc p)); [|done].
    destruct sf; unfold searchForm_submit, destSearchForm_submit;
      destruct (valid (validateSearchInput value)); simpl; page_cases.
  - unfold step. destruct (pending p !! id) as [c|]; [|done].
    destruct (resume (signal_aborted p id) (awaiting c) s) as [| |e]; try done.
    assert (Hl : spinners (doc (leave c e (set_pending (delete id (pending p)) p)).1)
                 = match spinners (doc p) !! spinnerId c with
                   | Some _ => <[spinnerId c := false]> (spinners (doc p))
                   | None => spinners (doc p)
                   end).
    { unfold leave, showFeedback, toggleSpinner.
      destruct e; simpl; repeat (case_match; simpl in * ); congruence. }
    destruct (leave c e (set_pending (delete id (pending p)) p)) as [q countries].
    simpl in Hl. rewrite <- Hl. destruct (caller c); page_cases.
Qed.

Lemma toggled_on spinnerId show (spinners : gmap string bool) s :
  toggled spinnerId show spinners !! s = Some true →
  (s = spinnerId ∧ show = true) ∨ (s ≠ spinnerId ∧ spinners !! s = Some true).
Proof.
  unfold toggled. destruct (decide (s = spinnerId)) as [->|Hne].
  - destruct (spinners !! spinnerId) eqn:E.
    + rewrite lookup_insert_eq. intros [= ->]. by left.
    + congruence.
  - destruct (spinners !! spinnerId) eqn:E; rewrite ?lookup_insert_ne by done; auto.
Qed.

Lemma step_spinner_has_request p ev :
  (∀ id c, pending p !! id = Some c → id < length (controllers p)) →
  (∀ s, spinners (doc p) !! s = Some true →
        ∃ id c, pending p !! id = Some c ∧ spinnerId c = s) →
  ∀ s, spinners (doc (step p ev)) !! s = Some true →
       ∃ id c, pending (step p ev) !! id = Some c ∧ spinnerId c = s.
Proof.
  intros Hlt Hinv s. rewrite step_spinners, step_pending.
  destruct ev as [sf value|id0 s0].
  - destruct (listening sf (doc p) && valid (validateSearchInput value)); [|apply Hinv].
    intros [[-> _]|[Hne Hon]]%toggled_on.
    + exists (length (controllers p)), (issued sf value).
      by rewrite lookup_insert_eq.
    + destruct (Hinv s Hon) as (id & c & Hc & Hs). exists id, c.
      pose proof (Hlt id c Hc). by rewrite lookup_insert_ne by lia.
  - destruct (pending p !! id0) as [c0|] eqn:E0; [|apply Hinv].
    destruct (resume _ _ s0) as [| |e].
    + apply Hinv.
    + intros Hon. destruct (Hinv s Hon) as (id & c & Hc & Hs).
      destruct (decide (id0 = id)) as [->|Hne].
      * exists id, (reading_body c0). rewrite lookup_insert_eq.
        split; [done|]. simpl. congruence.
      * exists id, c. by rewrite lookup_insert_ne.
    + intros [[_ ?]|[Hne Hon]]%toggled_on; [done|].
      destruct (Hinv s Hon) as (id & c & Hc & Hs).
      exists id, c. split; [|done].
      rewrite lookup_delete_ne; [done|]. intros ->. congruence.
Qed.

(** On a page loaded with its spinners off, a spinner is on only while a
    call that uses it is suspended: once every request has ended, by
    whatever way out, no spinner is left on. *)
Theorem spinner_on_means_request_in_flight
    (d : document) (history : list event) (s : string) :
  let p := run (load d) history in
  (∀ s', spinners d !! s' ≠ Some true) →
  spinners (doc p) !! s = Some true →
  ∃ id c, pending p !! id = Some c ∧ spinnerId c = s.
Proof.
  intros p Hoff. subst p. revert s.
  assert (H0 : (∀ id c, pending (load d) !! id = Some c → id < length (controllers (load d))) ∧
               (∀ s, spinners (doc (load d)) !! s = Some true →
                     ∃ id c, pending (load d) !! id = Some c ∧ spinnerId c = s)).
  { split; [intros ? ? H; simpl in H; by rewrite lookup_empty in H|].
    intros s Hs. by destruct (Hoff s). }
  clear Hoff. revert H0. unfold run. generalize (load d).
  induction history as [|ev history IH]; intros p [Hlt Hinv]; [done|].
  simpl. apply IH. split.
  - by apply step_pending_lt.
  - by apply step_spinner_has_request.
Qed.

Lemma spinner_on_means_request_in_flight_witness :
  let p := run (load home_document) [Submit Home (js "Japan")] in
  spinners (doc p) !! "search-spinner" = Some true ∧
  ∃ id c, pending p !! id = Some c ∧ spinnerId c = "search-spinner".
Proof.
  split; [by vm_compute|].
  apply (spinner_on_means_request_in_flight home_document [Submit Home (js "Japan")]
           "search-spinner").
  - intros s'. unfold home_document. simpl.
    destruct (decide (s' = "search-spinner")) as [->|Hne].
    + by rewrite lookup_singleton_eq.
    + by rewrite lookup_singleton_ne.
  - by vm_compute.
Defined.

Lemma home_success_on_page_witness :
  let p := run (load home_document)
             [Submit Home (js "Japan"); Settle 0 (FetchResponse 200)] in
  let p' := step p (Settle 0 (BodyParsed (PArray [japan; bouvet_island; no_fields]))) in
  grids (doc p') !! "results-grid"
  = Some (createCountryCard <$> [japan; bouvet_island; no_fields]) ∧
  position <$> mainMarkers p' = omap coordinates [japan; bouvet_island; no_fields].
Proof.
  apply (home_success_on_page home_document
           [Submit Home (js "Japan"); Settle 0 (FetchResponse 200)] 0
           (BodyParsed (PArray [japan; bouvet_island; no_fields]))
           [japan; bouvet_island; no_fields]
           (reading_body (issued Home (js "Japan")))).
  - by vm_compute.
  - eexists. vm_compute. reflexivity.
  - vm_compute. reflexivity.
  - reflexivity.
  - vm_compute. reflexivity.
Defined.

End InFlight.

(** ** Favourites: the heart and the stored list *)

Section FavouriteButtons.

Import Hearts.

Implicit Types (name : jsstring) (favs : list jsstring) (store : storage).

Lemma click_written name store : (click false name store).1 = (toggleFavourite name store).1.
Proof. unfold click. by destruct (toggleFavourite name store). Qed.

Lemma click_button throws name store :
  (click throws name store).2 = (toggleFavourite name store).2.
Proof. unfold click. by destruct (toggleFavourite name store). Qed.

Lemma clicks_NoDup names : ∀ store favs,
  getFavourites store = Names favs → NoDup favs →
  ∃ favs', getFavourites (clicks names store) = Names favs' ∧ NoDup favs'.
Proof.
  induction names as [|n names IH]; intros store favs Hfavs Hnd; [by exists favs|].
  simpl. destruct (toggle_NoDup n store favs Hfavs Hnd) as (favs' & Hfavs' & Hnd').
  apply (IH _ favs'); [|done]. by rewrite click_written.
Qed.

Lemma toggle_flips name store favs :
  getFavourites store = Names favs → NoDup favs →
  isFavourite name (toggleFavourite name store).1
  = Returns (negb (bool_decide (name ∈ favs))).
Proof.
  intros Hfavs Hnd.
  destruct (decide (name ∈ favs)) as [Hin|Hnot].
  - rewrite bool_decide_true by done.
    apply list_elem_of_split_l in Hin as (l1 & l2 & -> & H1).
    pose proof (NoDup_once name _ Hnd l1 l2 eq_refl H1) as H2.
    rewrite (isFavourite_elem name _ (l1 ++ l2)) by (by apply toggle_present).
    by rewrite bool_decide_false by (by intros [?|?]%elem_of_app).
  - rewrite bool_decide_false by done.
    rewrite (isFavourite_elem name _ (favs ++ [name])) by (by apply toggle_absent).
    rewrite bool_decide_true; [done|]. apply elem_of_app. right. by left.
Qed.

Lemma toggle_other name other store :
  other ≠ name →
  isFavourite other (toggleFavourite name store).1 = isFavourite other store.
Proof.
  intros Hne. destruct (getFavourites store) as [favs|first rest|] eqn:Hfavs;
    [|unfold toggleFavourite; by rewrite Hfavs..].
  rewrite (isFavourite_elem other store favs) by done.
  destruct (decide (name ∈ favs)) as [Hin|Hnot].
  - apply list_elem_of_split_l in Hin as (l1 & l2 & -> & H1).
    rewrite (isFavourite_elem other _ (l1 ++ l2)) by (by apply toggle_present).
    f_equal. apply bool_decide_ext.
    rewrite !elem_of_app, elem_of_cons. intuition congruence.
  - rewrite (isFavourite_elem other _ (favs ++ [name])) by (by apply toggle_absent).
    f_equal. apply bool_decide_ext.
    rewrite elem_of_app, list_elem_of_singleton. intuition congruence.
Qed.

(** Starting from a stored list without repetition (nothing stored, a
    text that does not parse and the empty list are such), after any
    clicks on hearts the button that a further click leaves is the one
    that [createFavButton] makes from the storage: the heart shown and
    the list stored agree, and the name is a favourite after the click
    exactly when it was none before. *)
Theorem heart_shows_what_is_stored
    (names : list jsstring) (name : jsstring) (store : storage) (favs : list jsstring) :
  getFavourites store = Names favs → NoDup favs →
  let store' := clicks names store in
  (click false name store').2 = createFavButton name (click false name store').1 ∧
  ∃ btn,
    (click false name store').2 = Returns btn ∧
    isFavourite name (click false name store').1 = Returns (favourited btn) ∧
    isFavourite name store' = Returns (negb (favourited btn)).
Proof.
  intros Hfavs Hnd store'.
  destruct (clicks_NoDup names store favs Hfavs Hnd) as (favs' & Hfavs' & Hnd').
  fold store' in Hfavs'. rewrite click_written, click_button.
  pose proof (toggle_flips name store' favs' Hfavs' Hnd') as Hflip.
  pose proof (isFavourite_elem name store' favs' Hfavs') as Hbefore.
  unfold createFavButton. rewrite Hflip, Hbefore.
  assert (Hin : indexOf favs' name = None ↔ bool_decide (name ∈ favs') = false).
  { rewrite indexOf_None. by rewrite bool_decide_eq_false. }
  unfold toggleFavourite in *. rewrite Hfavs' in *.
  destruct (indexOf favs' name) as [index|] eqn:E.
  - destruct (bool_decide (name ∈ favs')) eqn:Hb; [|by destruct Hin as [_ Hin]; discriminate Hin].
    cbn [snd negb]. split; [done|]. by eexists.
  - rewrite (proj1 Hin eq_refl). cbn [snd negb]. split; [done|]. by eexists.
Qed.

Lemma heart_shows_what_is_stored_witness :
  let store : storage := {[ FAVOURITES_KEY := Unparseable ]} in
  let store' := clicks [js "Japan"; js "Italy"; js "Japan"; js "Peru"] store in
  (click false (js "Italy") store').2
  = createFavButton (js "Italy") (click false (js "Italy") store').1 ∧
  ∃ btn,
    (click false (js "Italy") store').2 = Returns btn ∧
    isFavourite (js "Italy") (click false (js "Italy") store').1
    = Returns (favourited btn) ∧
    isFavourite (js "Italy") store' = Returns (negb (favourited btn)).
Proof.
  apply (heart_shows_what_is_stored [js "Japan"; js "Italy"; js "Japan"; js "Peru"]
           (js "Italy") {[ FAVOURITES_KEY := Unparseable ]} []).
  - reflexivity.
  - constructor.
Defined.

(** With a name stored twice the heart and the storage part: one click
    removes one occurrence, the button shows the empty heart and the name
    is still a favourite. *)
Example heart_of_a_name_stored_twice :
  let store : storage := {[ FAVOURITES_KEY := Truthy (Names [js "Japan"; js "Japan"]) ]} in
  ∃ btn, (click false (js "Japan") store).2 = Returns btn ∧ favourited btn = false ∧
         isFavourite (js "Japan") (click false (js "Japan") store).1 = Returns true.
Proof. eexists. by vm_compute. Qed.

Lemma filter_delete_first name : ∀ favs index,
  indexOf favs name = Some index →
  filter (λ n, n ≠ name) (delete index favs) = filter (λ n, n ≠ name) favs.
Proof.
  induction favs as [|y favs IH]; intros index; simpl; [done|].
  destruct (decide (y = name)) as [->|Hne].
  - intros [= <-]. simpl. by rewrite filter_cons_False by (by intros ?).
  - destruct (indexOf favs name) as [i|] eqn:E; [|done].
    intros [= <-]. simpl. rewrite !filter_cons_True by done.
    by rewrite (IH i).
Qed.

(** A click on the heart of one country leaves the other favourites as
    they are, in their order, whatever is stored; it writes under the
    favourites key only, and on a value that is not an array it writes
    nothing. *)
Theorem toggle_keeps_the_other_favourites (name : jsstring) (store : storage) :
  let once := (toggleFavourite name store).1 in
  (∀ favs, getFavourites store = Names favs →
     ∃ favs', getFavourites once = Names favs' ∧
       filter (λ n, n ≠ name) favs' = filter (λ n, n ≠ name) favs) ∧
  ((∀ favs, getFavourites store ≠ Names favs) → once = store) ∧
  (∀ other, other ≠ name → isFavourite other once = isFavourite other store) ∧
  (∀ key, key ≠ FAVOURITES_KEY → once !! key = store !! key).
Proof.
  intros once. split; [|split; [|split]].
  - intros favs Hfavs. subst once. unfold toggleFavourite. rewrite Hfavs.
    destruct (indexOf favs name) as [index|] eqn:E; cbn [fst];
      rewrite getFavourites_save; eexists; (split; [done|]).
    + by apply filter_delete_first.
    + rewrite filter_app, filter_cons_False by (by intros ?).
      by rewrite filter_nil, app_nil_r.
  - intros Hno. subst once. by rewrite toggle_throws.
  - intros other Hne. by apply toggle_other.
  - intros key Hne. subst once. unfold toggleFavourite, saveFavourites.
    destruct (getFavourites store) as [favs| |]; [|done..].
    destruct (indexOf favs name); cbn [fst]; by rewrite lookup_insert_ne.
Qed.

Lemma clicks_snoc names name store :
  clicks (names ++ [name]) store = (click false name (clicks names store)).1.
Proof. unfold clicks. by rewrite foldl_app. Qed.

(** From a stored list without repetition, whether a country is a
    favourite after any clicks is decided by the number of clicks on its
    own heart: an odd number flips it, an even number restores it. *)
Theorem favourite_after_clicks
    (names : list jsstring) (name : jsstring) (store : storage) (favs : list jsstring) :
  getFavourites store = Names favs → NoDup favs →
  isFavourite name store = Returns (bool_decide (name ∈ favs)) ∧
  isFavourite name (clicks names store)
  = Returns (xorb (bool_decide (name ∈ favs))
                  (Nat.odd (length (filter (λ n, n = name) names)))).
Proof.
  intros Hfavs Hnd. split; [by apply isFavourite_elem|].
  induction names as [|n names IH] using rev_ind.
  { simpl. rewrite (isFavourite_elem name store favs) by done.
    by destruct (bool_decide _). }
  rewrite clicks_snoc, click_written, filter_app, length_app.
  destruct (clicks_NoDup names store favs Hfavs Hnd) as (favs' & Hfavs' & Hnd').
  rewrite (isFavourite_elem name _ favs' Hfavs') in IH. injection IH as IH.
  destruct (decide (n = name)) as [->|Hne].
  - rewrite (toggle_flips name _ favs') by done. rewrite IH.
    rewrite filter_cons_True by done. simpl length.
    rewrite Nat.add_1_r, Nat.odd_succ, <- Nat.negb_odd.
    by destruct (bool_decide (name ∈ favs)), (Nat.odd _).
  - rewrite toggle_other by done.
    rewrite (isFavourite_elem name _ favs' Hfavs'), IH.
    rewrite filter_cons_False by done. simpl length. by rewrite Nat.add_0_r.
Qed.

Lemma favourite_after_clicks_witness :
  isFavourite (js "Japan") ({[ FAVOURITES_KEY := Truthy (Names [js "Peru"]) ]} : storage)
  = Returns (bool_decide (js "Japan" ∈ [js "Peru"])) ∧
  isFavourite (js "Japan")
    (clicks [js "Japan"; js "Italy"; js "Japan"; js "Japan"]
       ({[ FAVOURITES_KEY := Truthy (Names [js "Peru"]) ]} : storage))
  = Returns (xorb (bool_decide (js "Japan" ∈ [js "Peru"]))
               (Nat.odd (length (filter (λ n, n = js "Japan")
                                   [js "Japan"; js "Italy"; js "Japan"; js "Japan"])))).
Proof.
  apply (favourite_after_clicks [js "Japan"; js "Italy"; js "Japan"; js "Japan"]
           (js "Japan") {[ FAVOURITES_KEY := Truthy (Names [js "Peru"]) ]} [js "Peru"]).
  - reflexivity.
  - repeat constructor. apply not_elem_of_nil.
Defined.

(** When the write is refused the storage is as before.  On an array of
    names the click still changes the heart: the button shows the
    opposite of what is stored, and a further click shows the same heart
    again. *)
Theorem refused_write_leaves_the_heart_wrong (name : jsstring) (store : storage) :
  (click true name store).1 = store ∧
  ∀ favs, getFavourites store = Names favs →
    ∃ btn,
      (click true name store).2 = Returns btn ∧
      isFavourite name store = Returns (negb (favourited btn)) ∧
      Returns btn ≠ createFavButton name store ∧
      (click true name (click true name store).1).2 = Returns btn.
Proof.
  assert (Hsame : (click true name store).1 = store).
  { unfold click. by destruct (toggleFavourite name store). }
  split; [done|]. intros favs Hfavs. rewrite Hsame, click_button.
  unfold createFavButton, toggleFavourite, isFavourite. rewrite Hfavs. simpl.
  destruct (indexOf favs name) eqn:E; eexists; split_and!; done.
Qed.

End FavouriteButtons.

(** ** Sorting the results *)

Section Sorting.

Import Regions.

Context {A : Type} (comparefn : A → A → Z).

Implicit Types (l : list A).

Lemma sort_insert_Permutation x l : sort_insert comparefn x l ≡ₚ x :: l.
Proof.
  induction l as [|y l IH]; simpl; [done|].
  destruct (comparefn x y <=? 0)%Z; [done|].
  rewrite IH. apply perm_swap.
Qed.

Lemma sort_Permutation l : sort comparefn l ≡ₚ l.
Proof.
  induction l as [|x l IH]; simpl; [done|].
  by rewrite sort_insert_Permutation, IH.
Qed.

Lemma sort_length l : length (sort comparefn l) = length l.
Proof. by rewrite sort_Permutation. Qed.

(** Equal elements keep their order: the elements of a class whose
    members the comparator never puts after one another come out as they
    went in. *)
Lemma sort_insert_filter (P : A → Prop) `{∀ x, Decision (P x)} x l :
  (∀ a b, P a → P b → (comparefn a b <= 0)%Z) →
  filter P (sort_insert comparefn x l) = filter P (x :: l).
Proof.
  intros Hclass. induction l as [|y l IH]; simpl; [done|].
  destruct (comparefn x y <=? 0)%Z eqn:E; [done|].
  apply Z.leb_gt in E.
  destruct (decide (P y)) as [Hy|Hy].
  - rewrite (filter_cons_True P y) by done. rewrite IH.
    destruct (decide (P x)) as [Hx|Hx].
    + pose proof (Hclass x y Hx Hy). lia.
    + rewrite !(filter_cons_False P x) by done. by rewrite filter_cons_True.
  - rewrite (filter_cons_False P y) by done. rewrite IH.
    destruct (decide (P x)) as [Hx|Hx].
    + rewrite !(filter_cons_True P x) by done. by rewrite filter_cons_False.
    + rewrite !(filter_cons_False P x) by done. by rewrite filter_cons_False.
Qed.

Lemma sort_stable (P : A → Prop) `{∀ x, Decision (P x)} l :
  (∀ a b, P a → P b → (comparefn a b <= 0)%Z) →
  filter P (sort comparefn l) = filter P l.
Proof.
  intros Hclass. induction l as [|x l IH]; simpl; [done|].
  rewrite sort_insert_filter by done.
  destruct (decide (P x)).
  - rewrite !(filter_cons_True P x) by done. by rewrite IH.
  - rewrite !(filter_cons_False P x) by done. by rewrite IH.
Qed.

Hypothesis comparefn_total : ∀ a b, (0 < comparefn a b)%Z → (comparefn b a <= 0)%Z.
Hypothesis comparefn_trans : ∀ a b c,
  (comparefn a b <= 0)%Z → (comparefn b c <= 0)%Z → (comparefn a c <= 0)%Z.

Lemma sort_insert_sorted x l :
  StronglySorted (λ a b, (comparefn a b <= 0)%Z) l →
  StronglySorted (λ a b, (comparefn a b <= 0)%Z) (sort_insert comparefn x l).
Proof.
  induction 1 as [|y l Hsorted IH Hy]; simpl.
  { repeat constructor. }
  destruct (comparefn x y <=? 0)%Z eqn:E.
  - apply Z.leb_le in E. constructor; [by constructor|].
    constructor; [done|].
    eapply Forall_impl; [exact Hy|]. intros z Hz. by eapply comparefn_trans.
  - apply Z.leb_gt in E. constructor; [done|].
    rewrite sort_insert_Permutation. constructor; [|done].
    by apply comparefn_total.
Qed.

Lemma sort_sorted l : StronglySorted (λ a b, (comparefn a b <= 0)%Z) (sort comparefn l).
Proof.
  induction l as [|x l IH]; simpl; [constructor|]. by apply sort_insert_sorted.
Qed.

End Sorting.

Lemma StronglySorted_impl {A} (R1 R2 : A → A → Prop) (l : list A) :
  (∀ a b, R1 a b → R2 a b) → StronglySorted R1 l → StronglySorted R2 l.
Proof.
  intros Himpl. induction 1 as [|x l Hsorted IH Hx]; constructor; [done|].
  eapply Forall_impl; [exact Hx|]. auto.
Qed.

Section SortedResults.

Import Regions.

Context `{Engine}.

(** Sorting by population shows the same countries in the order of their
    populations, a missing population counting as 0, and countries with
    the same population stay in the order in which they were stored, in
    the descending order as in the ascending one. *)
Theorem population_sort_keeps_ties (results : list country) :
  ∃ asc desc,
    sorted_by (js "pop-asc") results = Some asc ∧
    sorted_by (js "pop-desc") results = Some desc ∧
    asc ≡ₚ results ∧ desc ≡ₚ results ∧
    StronglySorted (λ a b, (population_or_0 a <= population_or_0 b)%Z) asc ∧
    StronglySorted (λ a b, (population_or_0 b <= population_or_0 a)%Z) desc ∧
    ∀ n, filter (λ c, population_or_0 c = n) asc
         = filter (λ c, population_or_0 c = n) results ∧
         filter (λ c, population_or_0 c = n) desc
         = filter (λ c, population_or_0 c = n) results.
Proof.
  eexists _, _. split; [reflexivity|]. split; [reflexivity|].
  split; [apply sort_Permutation|]. split; [apply sort_Permutation|].
  split; [|split].
  - eapply StronglySorted_impl; [|apply sort_sorted]; simpl; intros; lia.
  - eapply StronglySorted_impl; [|apply sort_sorted]; simpl; intros; lia.
  - intros n. split; apply sort_stable; intros a b -> ->; lia.
Qed.

Example population_sort_of_three :
  let andorra := {| name_common := Some (js "Andorra"); flags_svg := None; flags_png := None;
                    region := None; subregion := None; population := Some 77265%N;
                    capital := None; currencies := None; languages := None;
                    latlng := None |} in
  sorted_by (js "pop-desc") [bouvet_island; japan; no_fields; andorra]
  = Some [japan; andorra; bouvet_island; no_fields] ∧
  sorted_by (js "pop-asc") [bouvet_island; japan; no_fields; andorra]
  = Some [bouvet_island; no_fields; andorra; japan] ∧
  sorted_by (js "population") [bouvet_island; japan] = None.
Proof. by vm_compute. Qed.

End SortedResults.

(** ** Regions *)

Section CodeUnitOrder.

Import Regions CodeUnits.

Lemma compare_units_sgn a : ∀ b,
  Z.sgn (compare_units b a) = (- Z.sgn (compare_units a b))%Z.
Proof.
  induction a as [|x a IH]; intros [|y b]; simpl; try done.
  destruct (x <? y)%N eqn:E1, (y <? x)%N eqn:E2; try done; lia.
Qed.

Lemma compare_units_range a : ∀ b, (-1 <= compare_units a b <= 1)%Z.
Proof.
  induction a as [|x a IH]; intros [|y b]; simpl; try lia.
  destruct (x <? y)%N, (y <? x)%N; try lia. apply IH.
Qed.

Lemma compare_units_trans a : ∀ b c,
  (compare_units a b <= 0)%Z → (compare_units b c <= 0)%Z → (compare_units a c <= 0)%Z.
Proof.
  induction a as [|x a IH]; intros [|y b] [|z c]; simpl; try done; try lia.
  destruct (x <? y)%N eqn:E1, (y <? x)%N eqn:E2, (y <? z)%N eqn:E3, (z <? y)%N eqn:E4,
    (x <? z)%N eqn:E5, (z <? x)%N eqn:E6; try lia.
  apply IH.
Qed.

(** An engine whose [localeCompare] is the order of the code units and
    whose sort throws on a country without a name. *)
Definition code_unit_engine : Engine :=
  {| localeCompare := compare_units;
     localeCompare_sgn a b := compare_units_sgn a b;
     localeCompare_trans := compare_units_trans;
     sort_nameless := λ _ _, None;
     sort_nameless_Permutation := λ _ data sorted (E : None = Some sorted),
       match E in _ = y return match y with Some l => l ≡ₚ data | None => True end with
       | eq_refl => I
       end |}.

End CodeUnitOrder.

Section RegionsAndSorting.

Import Regions.

Context `{Engine}.

Implicit Types (st : state) (p : page) (data : list country).

Lemma compare_names_total a b : (0 < compare_names a b)%Z → (compare_names b a <= 0)%Z.
Proof.
  unfold compare_names. intros Hpos.
  pose proof (localeCompare_sgn (default [] (name_common a)) (default [] (name_common b))).
  lia.
Qed.

Lemma compare_names_trans a b c :
  (compare_names a b <= 0)%Z → (compare_names b c <= 0)%Z → (compare_names a c <= 0)%Z.
Proof. unfold compare_names. apply localeCompare_trans. Qed.

(** The order in which the names are shown, ascending or descending. *)
Lemma sort_by_name_named descending data :
  forallb has_name data = true →
  ∃ sorted, sort_by_name descending data = Some sorted ∧ sorted ≡ₚ data ∧
    StronglySorted
      (λ a b, if descending then (compare_names b a <= 0)%Z else (compare_names a b <= 0)%Z)
      sorted.
Proof.
  intros Hnamed. unfold sort_by_name.
  destruct data as [|c1 [|c2 data]].
  - exists []. split; [done|]. split; [done|]. constructor.
  - exists [c1]. split; [done|]. split; [done|]. repeat constructor.
  - rewrite Hnamed. eexists. split; [done|]. split; [apply sort_Permutation|].
    destruct descending.
    + apply (sort_sorted (λ a b, compare_names b a)).
      * intros a b. apply compare_names_total.
      * intros a b c H1 H2. by apply (compare_names_trans c b a).
    + apply sort_sorted.
      * apply compare_names_total.
      * apply compare_names_trans.
Qed.

(** What [displayResults] leaves on the destinations page. *)
Lemma display_on_dest data p :
  is_Some (grids (doc p) !! "dest-grid") →
  let q := set_dest_display
             (displayResults data "dest-grid" (destMap p) (destMarkers p) (grids (doc p))) p in
  grids (doc q) = <["dest-grid" := createCountryCard <$> data]> (grids (doc p)) ∧
  position <$> destMarkers q
  = match destMap p with Some _ => omap coordinates data | None => [] end ∧
  (is_Some (destMap q) ↔ is_Some (destMap p)) ∧
  elements (doc q) = elements (doc p) ∧
  mainMarkers q = mainMarkers p ∧ mainMap q = mainMap p.
Proof.
  intros Hgrid. rewrite displayResults_on_grid by done. cbv zeta.
  unfold set_dest_display. cbn [grids doc destMarkers destMap elements mainMarkers mainMap].
  split; [done|]. split.
  { destruct (destMap p); [apply markers_positions|done]. }
  split; [|done].
  destruct (destMap p) as [m|]; [|done].
  destruct (getBounds _); split; intros _; by eexists.
Qed.

Lemma step_grid_absent p ev g :
  grids (doc p) !! g = None → grids (doc (Script.step p ev)) !! g = None.
Proof.
  intros Hg.
  destruct (exit_at p ev) as [[| |data| |]|] eqn:Hexit;
    try (destruct (step_without_data p ev) as (-> & _ & _);
         [intros data'; congruence|done]).
  destruct ev as [|id s]; [done|].
  assert (∃ c, pending p !! id = Some c) as [c Hc].
  { simpl in Hexit. destruct (pending p !! id); [by eexists|done]. }
  pose proof (step_with_data p id s data c Hc Hexit) as [Hstep _].
  assert (Hd : ∀ gridId mapInstance markerArray,
            (displayResults data gridId mapInstance markerArray (grids (doc p))).1.1 !! g
            = None).
  { intros gridId mapInstance markerArray.
    destruct (grids (doc p) !! gridId) as [old|] eqn:E.
    - rewrite displayResults_on_grid by done. cbn [fst snd].
      rewrite lookup_insert_ne; [done|]. intros ->. congruence.
    - by rewrite displayResults_without_grid. }
  destruct (caller c); destruct Hstep as (Heq & _ & _).
  - specialize (Hd "results-grid" (mainMap p) (mainMarkers p)).
    by rewrite <- Heq in Hd.
  - specialize (Hd "dest-grid" (destMap p) (destMarkers p)).
    by rewrite <- Heq in Hd.
Qed.

(** *** A response of the region request *)

Lemma settle_loaded st id r data sorted :
  requests st !! id = Some r → stage r = AwaitBody →
  sort_by_name false data = Some sorted →
  step st (Respond id (BodyParsed (PArray data)))
  = show_region id r (if decide (region_name r = js "all") then take 30 sorted else sorted) st.
Proof.
  intros Hr Hs Hsort. unfold step, settle, resume. by rewrite Hr, Hs, Hsort.
Qed.

Lemma settle_fails st id r s :
  requests st !! id = Some r → resume r s = Fails →
  step st (Respond id s) = show_failure id st.
Proof. intros Hr Hs. unfold step, settle. by rewrite Hr, Hs. Qed.

Lemma show_region_spec id r shown st :
  is_Some (grids (doc (script st)) !! "dest-grid") →
  let st' := show_region id r shown st in
  grids (doc (script st')) !! "dest-grid" = Some (createCountryCard <$> shown) ∧
  position <$> destMarkers (script st')
  = match destMap (script st) with Some _ => omap coordinates shown | None => [] end ∧
  currentDisplayedResults st' = shown ∧
  destGridNotice st' = None ∧
  announcement st' = Some (announceResultsCount (length shown) (region_name r)) ∧
  ("sort-select" ∈ elements (doc (script st)) → sortSelect st' = js "name-asc") ∧
  filterButtons st' = filterButtons st ∧
  requests st' = delete id (requests st).
Proof.
  intros Hgrid st'. subst st'. unfold show_region.
  cbn [script currentDisplayedResults destGridNotice announcement sortSelect
         filterButtons requests].
  destruct (display_on_dest shown (script st) Hgrid) as (Hg & Hm & _).
  rewrite Hg, Hm, lookup_insert_eq. destruct Hgrid as [old ->].
  split_and!; try done. intros Hsel. by rewrite decide_True.
Qed.

(** The response of a region request is shown when it arrives, whatever
    else is in flight and whichever button is pressed: for an array of
    countries with names, the grid shows the cards of the countries in
    the order of their names, the first 30 of them for the region [all],
    the markers are theirs, the notice is gone, they are the results
    stored for sorting, and their number is announced. *)
Theorem region_response_is_shown (st : state) (id : nat) (r : request) (data : list country) :
  requests st !! id = Some r → stage r = AwaitBody →
  is_Some (grids (doc (script st)) !! "dest-grid") →
  forallb has_name data = true →
  ∃ sorted,
    sorted ≡ₚ data ∧ StronglySorted (λ a b, (compare_names a b <= 0)%Z) sorted ∧
    let shown := if decide (region_name r = js "all") then take 30 sorted else sorted in
    let st' := step st (Respond id (BodyParsed (PArray data))) in
    grids (doc (script st')) !! "dest-grid" = Some (createCountryCard <$> shown) ∧
    position <$> destMarkers (script st')
    = match destMap (script st) with Some _ => omap coordinates shown | None => [] end ∧
    currentDisplayedResults st' = shown ∧
    destGridNotice st' = None ∧
    announcement st' = Some (announceResultsCount (length shown) (region_name r)) ∧
    ("sort-select" ∈ elements (doc (script st)) → sortSelect st' = js "name-asc") ∧
    filterButtons st' = filterButtons st ∧
    requests st' = delete id (requests st).
Proof.
  intros Hr Hs Hgrid Hnamed.
  destruct (sort_by_name_named false data Hnamed) as (sorted & Hsort & Hperm & Hsorted).
  exists sorted. split; [done|]. split; [done|]. cbv zeta.
  rewrite (settle_loaded st id r data sorted) by done.
  by apply show_region_spec.
Qed.

(** *** A region request that fails *)

Lemma show_failure_spec id st :
  let st' := show_failure id st in
  grids (doc (script st')) !! "dest-grid" = Some [] ∧
  destGridNotice st' = Some LoadFailed ∧
  destMarkers (script st') = destMarkers (script st) ∧
  destMap (script st') = destMap (script st) ∧
  currentDisplayedResults st' = currentDisplayedResults st ∧
  contextBound st' = contextBound st ∧
  announcement st' = announcement st ∧
  sortSelect st' = sortSelect st ∧
  filterButtons st' = filterButtons st ∧
  requests st' = delete id (requests st).
Proof.
  cbv zeta. unfold show_failure, clear_dest_grid, set_dest_display.
  cbn [script grids doc]. by rewrite lookup_insert_eq.
Qed.

(** When a region request fails (the fetch rejects, the status is not
    2xx, the body is not JSON or not an array, the sort throws) the grid
    holds the failure message and no card, while the markers stay on the
    map and the results stored for sorting, the text announced and the
    dropdown stay as they were. *)
Theorem region_failure_keeps_markers (st : state) (id : nat) (r : request) (s : settlement) :
  requests st !! id = Some r → resume r s = Fails →
  let st' := step st (Respond id s) in
  grids (doc (script st')) !! "dest-grid" = Some [] ∧
  destGridNotice st' = Some LoadFailed ∧
  destMarkers (script st') = destMarkers (script st) ∧
  destMap (script st') = destMap (script st) ∧
  currentDisplayedResults st' = currentDisplayedResults st ∧
  contextBound st' = contextBound st ∧
  announcement st' = announcement st ∧
  sortSelect st' = sortSelect st ∧
  filterButtons st' = filterButtons st ∧
  requests st' = delete id (requests st).
Proof.
  intros Hr Hs. cbv zeta. rewrite (settle_fails st id r s) by done.
  apply show_failure_spec.
Qed.

(** The settlements that fail, whatever the engine: a rejected fetch, the
    statuses 404 and 500, a body that is not JSON, and bodies that are
    not arrays.  An empty array does not fail. *)
Lemma region_failures (region : jsstring) :
  let fetching := {| region_name := region; stage := AwaitFetch |} in
  let reading := {| region_name := region; stage := AwaitBody |} in
  resume fetching FetchRejected = Fails ∧
  resume fetching (FetchResponse 404) = Fails ∧
  resume fetching (FetchResponse 500) = Fails ∧
  resume fetching (FetchResponse 200) = ReadsBody ∧
  resume reading BodyRejected = Fails ∧
  resume reading (BodyParsed PNull) = Fails ∧
  resume reading (BodyParsed POther) = Fails ∧
  resume reading (BodyParsed (PArray [])) = Loaded [].
Proof.
  cbv zeta. unfold resume, sort_by_name. cbn [stage region_name].
  split_and!; try done. by destruct (decide (region = js "all")).
Qed.

(** *** Requests are never cancelled *)

Lemma click_filter_spec st i region pressed :
  is_Some (grids (doc (script st)) !! "dest-grid") →
  filterButtons st !! i = Some (region, pressed) →
  let st' := step st (Click i) in
  requests st'
  = <[requested st := {| region_name := region; stage := AwaitFetch |}]> (requests st) ∧
  requested st' = S (requested st) ∧
  filterButtons st' = imap (λ j b, (b.1, bool_decide (j = i))) (filterButtons st) ∧
  grids (doc (script st')) !! "dest-grid" = Some [] ∧
  destGridNotice st' = Some LoadingCountries ∧
  contextBound st' = true ∧
  currentDisplayedResults st' = currentDisplayedResults st ∧
  destMarkers (script st') = destMarkers (script st) ∧
  destMap (script st') = destMap (script st) ∧
  elements (doc (script st')) = elements (doc (script st)).
Proof.
  intros [old Hgrid] Hb. cbv zeta. unfold step, click_filter. rewrite Hb.
  unfold filterByRegion. cbn [script]. rewrite Hgrid.
  cbn [requests requested filterButtons script destGridNotice contextBound
         currentDisplayedResults].
  unfold clear_dest_grid, set_dest_display. cbn [grids doc destMarkers destMap elements].
  by rewrite lookup_insert_eq.
Qed.

(** A settlement of a region request leaves the buttons, the other
    requests and the presence of the grid as they are. *)
Lemma settle_frame st id s :
  let st' := step st (Respond id s) in
  filterButtons st' = filterButtons st ∧
  requested st' = requested st ∧
  contextBound st' = contextBound st ∧
  elements (doc (script st')) = elements (doc (script st)) ∧
  (∀ id', id' ≠ id → requests st' !! id' = requests st !! id') ∧
  (is_Some (grids (doc (script st)) !! "dest-grid") →
   is_Some (grids (doc (script st')) !! "dest-grid")).
Proof.
  cbv zeta. unfold step, settle.
  destruct (requests st !! id) as [r|] eqn:Hr; [|done].
  destruct (resume r s) as [| |shown|]; [done| | |].
  - cbn [filterButtons requested contextBound script requests].
    split_and!; try done. intros id' Hne. by rewrite lookup_insert_ne.
  - unfold show_region.
    cbn [filterButtons requested contextBound script requests].
    split_and!; try done.
    + unfold set_dest_display. by destruct (displayResults _ _ _ _ _) as [[? ?] ?].
    + intros id' Hne. by rewrite lookup_delete_ne.
    + intros Hgrid. destruct (display_on_dest shown (script st) Hgrid) as (-> & _).
      by rewrite lookup_insert_eq.
  - unfold show_failure, clear_dest_grid, set_dest_display.
    cbn [filterButtons requested contextBound script requests grids doc elements].
    split_and!; try done.
    + intros id' Hne. by rewrite lookup_delete_ne.
    + intros _. by rewrite lookup_insert_eq.
Qed.

Lemma settle_reads_body st id region :
  requests st !! id = Some {| region_name := region; stage := AwaitFetch |} →
  requests (step st (Respond id (FetchResponse 200))) !! id
  = Some {| region_name := region; stage := AwaitBody |}.
Proof.
  intros Hr. unfold step, settle. rewrite Hr. unfold resume. cbn [stage region_name].
  change (ok 200) with true. cbn [requests]. by rewrite lookup_insert_eq.
Qed.

(** No region request is cancelled.  When two filter buttons are clicked
    one after the other and the response to the first click arrives
    last, the grid, the stored results and the text announced are those
    of the first region, while the button pressed is the second. *)
Theorem stale_region_response_wins
    (st : state) (i j : nat) (ri rj : jsstring) (bi bj : bool)
    (data_i data_j : list country) :
  is_Some (grids (doc (script st)) !! "dest-grid") →
  filterButtons st !! i = Some (ri, bi) → filterButtons st !! j = Some (rj, bj) →
  i ≠ j → forallb has_name data_i = true →
  let first := requested st in
  let second := S (requested st) in
  let st' := run st [Click i; Click j;
                     Respond first (FetchResponse 200); Respond second (FetchResponse 200);
                     Respond second (BodyParsed (PArray data_j));
                     Respond first (BodyParsed (PArray data_i))] in
  ∃ sorted,
    sort_by_name false data_i = Some sorted ∧
    let shown := if decide (ri = js "all") then take 30 sorted else sorted in
    grids (doc (script st')) !! "dest-grid" = Some (createCountryCard <$> shown) ∧
    currentDisplayedResults st' = shown ∧
    announcement st' = Some (announceResultsCount (length shown) ri) ∧
    filterButtons st' !! i = Some (ri, false) ∧
    filterButtons st' !! j = Some (rj, true).
Proof.
  intros Hgrid Hi Hj Hne Hnamed. cbv zeta.
  destruct (sort_by_name_named false data_i Hnamed) as (sorted & Hsort & _).
  exists sorted. split; [done|].
  unfold run. cbn [foldl].
  (* the two clicks *)
  destruct (click_filter_spec st i ri bi Hgrid Hi) as (Hr1 & Hn1 & Hb1 & Hg1 & _).
  set (st1 := step st (Click i)) in *.
  assert (Hj1 : filterButtons st1 !! j = Some (rj, false)).
  { rewrite Hb1, list_lookup_imap, Hj. simpl. by rewrite bool_decide_false by done. }
  assert (Hgrid1 : is_Some (grids (doc (script st1)) !! "dest-grid")) by (by rewrite Hg1).
  destruct (click_filter_spec st1 j rj false Hgrid1 Hj1) as (Hr2 & Hn2 & Hb2 & Hg2 & _).
  set (st2 := step st1 (Click j)) in *.
  assert (Hgrid2 : is_Some (grids (doc (script st2)) !! "dest-grid")) by (by rewrite Hg2).
  assert (Hfirst2 : requests st2 !! requested st
                    = Some {| region_name := ri; stage := AwaitFetch |}).
  { rewrite Hr2, Hn1, lookup_insert_ne by lia. by rewrite Hr1, lookup_insert_eq. }
  assert (Hsecond2 : requests st2 !! S (requested st)
                     = Some {| region_name := rj; stage := AwaitFetch |}).
  { by rewrite Hr2, Hn1, lookup_insert_eq. }
  assert (Hbi2 : filterButtons st2 !! i = Some (ri, false)).
  { rewrite Hb2, list_lookup_imap, Hb1, list_lookup_imap, Hi. simpl.
    by rewrite bool_decide_false by done. }
  assert (Hbj2 : filterButtons st2 !! j = Some (rj, true)).
  { rewrite Hb2, list_lookup_imap, Hj1. simpl. by rewrite bool_decide_true by done. }
  (* the two responses *)
  pose proof (settle_reads_body st2 _ ri Hfirst2) as Hfirst3.
  destruct (settle_frame st2 (requested st) (FetchResponse 200))
    as (Hb3 & _ & _ & _ & Hr3 & Hg3).
  set (st3 := step st2 (Respond (requested st) (FetchResponse 200))) in *.
  destruct (settle_frame st3 (S (requested st)) (FetchResponse 200))
    as (Hb4 & _ & _ & _ & Hr4 & Hg4).
  set (st4 := step st3 (Respond (S (requested st)) (FetchResponse 200))) in *.
  destruct (settle_frame st4 (S (requested st)) (BodyParsed (PArray data_j)))
    as (Hb5 & _ & _ & _ & Hr5 & Hg5).
  set (st5 := step st4 (Respond (S (requested st)) (BodyParsed (PArray data_j)))) in *.
  assert (Hfirst5 : requests st5 !! requested st
                    = Some {| region_name := ri; stage := AwaitBody |}).
  { rewrite Hr5, Hr4 by lia. done. }
  rewrite (settle_loaded st5 (requested st) _ data_i sorted Hfirst5) by done.
  cbn [region_name].
  destruct (show_region_spec (requested st) {| region_name := ri; stage := AwaitBody |}
              (if decide (ri = js "all") then take 30 sorted else sorted) st5)
    as (Hcards & _ & Hshown & _ & Hann & _ & Hb6 & _); [auto|].
  cbv zeta in Hcards, Hshown, Hann, Hb6. cbn [region_name] in Hann.
  rewrite Hcards, Hshown, Hann, Hb6, Hb5, Hb4, Hb3. done.
Qed.

(** *** Searches and region requests

    [filterByRegion] passes no signal to [fetch] and never touches the
    current controller, and [searchCountries] aborts the current
    controller only: an event of the searches leaves the region requests
    in flight as they are, and a click on a filter, a response to a
    region request or a choice in the sort dropdown leaves the
    controllers and the suspended searches as they are. *)
Lemma searches_and_region_requests_are_apart st ev :
  match ev with
  | Searching _ =>
      requests (step st ev) = requests st ∧ requested (step st ev) = requested st
  | _ =>
      controllers (script (step st ev)) = controllers (script st) ∧
      currentAbortController (script (step st ev)) = currentAbortController (script st) ∧
      pending (script (step st ev)) = pending (script st)
  end.
Proof.
  destruct ev as [ev|i|id s|value]; [done| | |].
  - unfold step, click_filter.
    destruct (filterButtons st !! i) as [[region pressed]|]; [|done].
    unfold filterByRegion. cbn [script].
    by destruct (grids (doc (script st)) !! "dest-grid").
  - unfold step, settle. destruct (requests st !! id) as [r|]; [|done].
    destruct (resume r s) as [| |shown|]; try done.
    unfold show_region, set_dest_display. cbn [script].
    by destruct (displayResults _ _ _ _ _) as [[? ?] ?].
  - unfold step, change_sort.
    destruct (decide ("sort-select" ∈ elements (doc (script st)))); [|done].
    unfold sortResults. cbn [currentDisplayedResults].
    destruct (currentDisplayedResults st) as [|c results]; [done|].
    destruct (sorted_by value (c :: results)) as [sorted|]; [|done].
    cbn [script contextBound]. destruct (contextBound st).
    + unfold set_dest_display. by destruct (displayResults _ _ _ _ _) as [[? ?] ?].
    + by destruct (grids (doc (script st)) !! "dest-grid").
Qed.


(** *** Sorting what is stored *)

Lemma step_destMap p ev : is_Some (destMap (Script.step p ev)) ↔ is_Some (destMap p).
Proof.
  destruct ev as [sf value|id s].
  - assert (destMap (Script.step p (Submit sf value)) = destMap p) as ->; [|done].
    simpl. destruct sf; page_cases.
  - unfold Script.step. destruct (pending p !! id) as [c|]; [|done].
    destruct (Script.resume _ _ s) as [| |e]; try done.
    pose proof (leave_display c e (set_pending (delete id (pending p)) p))
      as (_ & Hm & _).
    destruct (leave c e (set_pending (delete id (pending p)) p)) as [q countries].
    simpl in Hm. rewrite <- Hm. destruct (caller c).
    + unfold searchForm_resume, set_main_display.
      destruct (0 <? length countries)%nat; [|done].
      by destruct (displayResults _ _ _ _ _) as [[? ?] ?].
    + unfold destSearchForm_resume.
      destruct (0 <? length countries)%nat; [|done].
      destruct (grids (doc q) !! "dest-grid") as [old|] eqn:Hgrid.
      * by apply display_on_dest.
      * rewrite displayResults_without_grid by done. by unfold set_dest_display.
Qed.

Lemma sortResults_spec st sortBy sorted :
  currentDisplayedResults st ≠ [] →
  sorted_by sortBy (currentDisplayedResults st) = Some sorted →
  contextBound st = true →
  is_Some (grids (doc (script st)) !! "dest-grid") →
  let st' := sortResults sortBy st in
  grids (doc (script st')) !! "dest-grid" = Some (createCountryCard <$> sorted) ∧
  position <$> destMarkers (script st')
  = match destMap (script st) with Some _ => omap coordinates sorted | None => [] end ∧
  currentDisplayedResults st' = currentDisplayedResults st ∧
  destGridNotice st' = None ∧
  sortSelect st' = sortSelect st.
Proof.
  intros Hresults Hsorted Hbound Hgrid. cbv zeta. unfold sortResults.
  destruct (currentDisplayedResults st) as [|c results] eqn:E; [done|].
  rewrite Hsorted, Hbound.
  cbn [script currentDisplayedResults destGridNotice sortSelect].
  destruct (display_on_dest sorted (script st) Hgrid) as (-> & -> & _).
  rewrite lookup_insert_eq. by destruct Hgrid as [old ->].
Qed.

(** The search of the destinations page does not store what it shows:
    after results of a region were stored, a choice in the sort dropdown
    shows these again, sorted, in place of whatever a search has
    displayed in between. *)
Theorem sort_after_search_shows_region_results
    (st : state) (ev : Script.event) (sortBy : jsstring) (sorted : list country) :
  "sort-select" ∈ elements (doc (script st)) →
  is_Some (grids (doc (script st)) !! "dest-grid") →
  contextBound st = true →
  currentDisplayedResults st ≠ [] →
  sorted_by sortBy (currentDisplayedResults st) = Some sorted →
  let st' := run st [Searching ev; Change sortBy] in
  grids (doc (script st')) !! "dest-grid" = Some (createCountryCard <$> sorted) ∧
  position <$> destMarkers (script st')
  = match destMap (script st) with Some _ => omap coordinates sorted | None => [] end ∧
  currentDisplayedResults st' = currentDisplayedResults st ∧
  destGridNotice st' = None ∧
  sortSelect st' = sortBy.
Proof.
  intros Hsel Hgrid Hbound Hresults Hsorted. cbv zeta. unfold run. cbn [foldl].
  set (st1 := step st (Searching ev)).
  set (st2 := {| script := Script.step (script st) ev;
                 currentDisplayedResults := currentDisplayedResults st;
                 contextBound := contextBound st;
                 destGridNotice := destGridNotice st1;
                 sortSelect := sortBy;
                 announcement := announcement st;
                 filterButtons := filterButtons st;
                 requests := requests st;
                 requested := requested st |}).
  assert (Hchange : step st1 (Change sortBy) = sortResults sortBy st2).
  { unfold step at 1. unfold change_sort. subst st1. unfold step, search. cbn [script].
    by rewrite step_elements, decide_True by done. }
  rewrite Hchange.
  destruct (sortResults_spec st2 sortBy sorted) as (Hcards & Hmarkers & Hres & Hnotice & Hs);
    try done.
  { by apply step_keeps. }
  cbv zeta in Hcards, Hmarkers, Hres, Hnotice, Hs.
  rewrite Hcards, Hmarkers, Hres, Hnotice, Hs. split; [done|]. split; [|done].
  cbn [st2 script].
  pose proof (step_destMap (script st) ev) as Hiff.
  destruct (destMap (Script.step (script st) ev)), (destMap (script st)); try done.
  - destruct Hiff as [Hiff _]. by destruct Hiff.
  - destruct Hiff as [_ Hiff]. by destruct Hiff.
Qed.

(** *** What the page keeps *)

Lemma step_bound st ev :
  (contextBound st = false → currentDisplayedResults st = [] ∧ requests st = ∅) →
  (contextBound st = true → is_Some (grids (doc (script st)) !! "dest-grid")) →
  (∀ id r, requests st !! id = Some r → id < requested st) →
  (contextBound (step st ev) = false →
     currentDisplayedResults (step st ev) = [] ∧ requests (step st ev) = ∅) ∧
  (contextBound (step st ev) = true →
     is_Some (grids (doc (script (step st ev))) !! "dest-grid")) ∧
  (∀ id r, requests (step st ev) !! id = Some r → id < requested (step st ev)).
Proof.
  intros Hunbound Hbound Hlt. destruct ev as [ev|i|id s|value].
  - (* an event of script.js *)
    unfold step, search. cbn [contextBound currentDisplayedResults requests script requested].
    split; [done|]. split; [|done]. intros Hb. by apply step_keeps, Hbound.
  - (* a click on a filter button *)
    unfold step, click_filter.
    destruct (filterButtons st !! i) as [[region pressed]|]; [|done].
    unfold filterByRegion. cbn [script].
    destruct (grids (doc (script st)) !! "dest-grid") as [old|] eqn:Hgrid.
    + cbn [contextBound currentDisplayedResults requests script requested].
      split; [done|]. split.
      * intros _. unfold clear_dest_grid, set_dest_display. cbn [grids doc].
        by rewrite lookup_insert_eq.
      * intros id r. destruct (decide (requested st = id)) as [<-|Hne]; [lia|].
        rewrite lookup_insert_ne by done. intros Hr%Hlt. lia.
    + cbn [contextBound currentDisplayedResults requests script requested].
      split; [done|]. split; [|done]. intros Hb. rewrite Hgrid. by apply Hbound.
  - (* a settlement of a region request *)
    destruct (settle_frame st id s) as (_ & Hn & Hb & _ & Hr & Hg).
    cbv zeta in Hn, Hb, Hr, Hg. rewrite Hn, Hb.
    assert (Hold : ∀ id' r', requests (step st (Respond id s)) !! id' = Some r' →
                             is_Some (requests st !! id')).
    { intros id' r'. destruct (decide (id' = id)) as [->|Hne].
      - intros Hsome. destruct (requests st !! id) as [r|] eqn:E; [by eexists|].
        unfold step, settle in Hsome. rewrite E in Hsome. congruence.
      - rewrite Hr by done. by eexists. }
    split; [|split].
    + intros Hfalse. destruct (Hunbound Hfalse) as [Hres Hreq].
      unfold step, settle. by rewrite Hreq, lookup_empty.
    + intros Htrue. by apply Hg, Hbound.
    + intros id' r' [r0 Hr0]%Hold. by eapply Hlt.
  - (* a choice in the dropdown *)
    unfold step, change_sort.
    destruct (decide ("sort-select" ∈ elements (doc (script st)))); [|done].
    unfold sortResults. cbn [currentDisplayedResults].
    destruct (currentDisplayedResults st) as [|c results] eqn:E; [done|].
    destruct (sorted_by value (c :: results)) as [sorted|];
      cbn [contextBound currentDisplayedResults requests script requested]; [|done].
    destruct (contextBound st) eqn:Hb; [|by destruct Hunbound].
    split; [done|]. split; [|done]. intros _.
    destruct (display_on_dest sorted (script st)) as (-> & _); [by apply Hbound|].
    by rewrite lookup_insert_eq.
Qed.

(** On every page reached from a loaded document, results are stored
    for sorting and region requests are in flight only once
    [filterByRegion] has bound the display context on a page that has
    the destinations grid: [sortResults] never hands the unbound context
    to [displayResults]. *)
Theorem stored_results_have_a_context
    (d : document) (buttons : list (jsstring * bool)) (selected : jsstring)
    (history : list event) :
  let st := run (load d buttons selected) history in
  (∀ c results, currentDisplayedResults st = c :: results →
     contextBound st = true ∧ is_Some (grids (doc (script st)) !! "dest-grid")) ∧
  (∀ id r, requests st !! id = Some r →
     contextBound st = true ∧ is_Some (grids (doc (script st)) !! "dest-grid") ∧
     id < requested st).
Proof.
  cbv zeta.
  assert (Hinv : ∀ st,
    (contextBound st = false → currentDisplayedResults st = [] ∧ requests st = ∅) →
    (contextBound st = true → is_Some (grids (doc (script st)) !! "dest-grid")) →
    (∀ id r, requests st !! id = Some r → id < requested st) →
    let st' := run st history in
    (contextBound st' = false → currentDisplayedResults st' = [] ∧ requests st' = ∅) ∧
    (contextBound st' = true → is_Some (grids (doc (script st')) !! "dest-grid")) ∧
    (∀ id r, requests st' !! id = Some r → id < requested st')).
  { induction history as [|ev history IH]; intros st H1 H2 H3; [done|].
    destruct (step_bound st ev H1 H2 H3) as (H1' & H2' & H3').
    by apply IH. }
  destruct (Hinv (load d buttons selected)) as (H1 & H2 & H3); try done.
  cbv zeta in H1, H2, H3.
  destruct (contextBound (run (load d buttons selected) history)) eqn:Hb.
  - split.
    + intros c results _. split; [done|]. by apply H2.
    + intros id r Hr. split; [done|]. split; [by apply H2|]. by eapply H3.
  - destruct H1 as [Hres Hreq]; [done|]. split.
    + intros c results. by rewrite Hres.
    + intros id r. by rewrite Hreq, lookup_empty.
Qed.

(** On a page without the destinations grid the filters and the sort
    dropdown do nothing to what script.js keeps and shows: the page is
    the one that its search events alone lead to, nothing is stored for
    sorting, no region request is issued and nothing is announced. *)
Theorem filters_need_the_destinations_grid
    (d : document) (buttons : list (jsstring * bool)) (selected : jsstring)
    (history : list event) :
  grids d !! "dest-grid" = None →
  let st := run (load d buttons selected) history in
  script st = Script.run (Script.load d) (omap RegionExamples.of_script history) ∧
  currentDisplayedResults st = [] ∧ requests st = ∅ ∧
  destGridNotice st = None ∧ announcement st = None.
Proof.
  intros Hgrid. cbv zeta.
  assert (Hinv : ∀ st p,
    script st = p → grids (doc p) !! "dest-grid" = None →
    currentDisplayedResults st = [] → requests st = ∅ →
    destGridNotice st = None → announcement st = None →
    let st' := run st history in
    script st' = Script.run p (omap RegionExamples.of_script history) ∧
    currentDisplayedResults st' = [] ∧ requests st' = ∅ ∧
    destGridNotice st' = None ∧ announcement st' = None).
  { induction history as [|ev history IH]; intros st p Hp Hg Hres Hreq Hnot Hann; [done|].
    cbv zeta. unfold run. cbn [foldl]. destruct ev as [ev|i|id s|value].
    - cbn [omap RegionExamples.of_script]. unfold Script.run. cbn [foldl].
      apply IH; try done.
      + unfold step, search. cbn [script]. by rewrite Hp.
      + by apply step_grid_absent.
      + unfold step, search. cbn [destGridNotice]. rewrite Hnot.
        by destruct (dest_displayed _ _).
    - cbn [omap RegionExamples.of_script]. unfold step, click_filter.
      destruct (filterButtons st !! i) as [[region pressed]|]; [|by apply IH].
      unfold filterByRegion. cbn [script]. rewrite Hp, Hg. by apply IH.
    - cbn [omap RegionExamples.of_script]. unfold step, settle.
      rewrite Hreq, lookup_empty. by apply IH.
    - cbn [omap RegionExamples.of_script]. unfold step, change_sort.
      destruct (decide ("sort-select" ∈ elements (doc (script st)))); [|by apply IH].
      unfold sortResults. cbn [currentDisplayedResults]. rewrite Hres.
      by apply IH. }
  by apply Hinv.
Qed.


End RegionsAndSorting.

(** *** The theorems on a destinations page *)

Section OnTheDestinationsPage.

Import Regions RegionExamples.

Lemma region_response_is_shown_witness :
  let st := @run code_unit_engine (load destinations_document region_buttons (js "name-asc"))
              [Click 2; Respond 0 (FetchResponse 200)] in
  let r := {| region_name := js "Europe"; stage := AwaitBody |} in
  ∃ sorted,
    sorted ≡ₚ [japan; andorra] ∧
    StronglySorted (λ a b, (@compare_names code_unit_engine a b <= 0)%Z) sorted ∧
    let shown := if decide (region_name r = js "all") then take 30 sorted else sorted in
    let st' := @step code_unit_engine st (Respond 0 (BodyParsed (PArray [japan; andorra]))) in
    grids (doc (script st')) !! "dest-grid" = Some (createCountryCard <$> shown) ∧
    position <$> destMarkers (script st')
    = match destMap (script st) with Some _ => omap coordinates shown | None => [] end ∧
    currentDisplayedResults st' = shown ∧
    destGridNotice st' = None ∧
    announcement st' = Some (announceResultsCount (length shown) (region_name r)) ∧
    ("sort-select" ∈ elements (doc (script st)) → sortSelect st' = js "name-asc") ∧
    filterButtons st' = filterButtons st ∧
    requests st' = delete 0 (requests st).
Proof.
  apply (@region_response_is_shown code_unit_engine
           (@run code_unit_engine (load destinations_document region_buttons (js "name-asc"))
              [Click 2; Respond 0 (FetchResponse 200)])
           0 {| region_name := js "Europe"; stage := AwaitBody |} [japan; andorra]).
  - by vm_compute.
  - reflexivity.
  - eexists. vm_compute. reflexivity.
  - reflexivity.
Defined.

(** The same response, computed: Andorra before Japan, two countries
    announced. *)
Example europe_is_shown_by_name :
  let st' := @run code_unit_engine (load destinations_document region_buttons (js "name-asc"))
               [Click 2; Respond 0 (FetchResponse 200);
                Respond 0 (BodyParsed (PArray [japan; andorra]))] in
  currentDisplayedResults st' = [andorra; japan] ∧
  announcement st' = Some (js "Showing 2 countries in Europe") ∧
  filterButtons st' = [(js "all", false); (js "Asia", false); (js "Europe", true)].
Proof. by vm_compute. Qed.

Lemma region_failure_keeps_markers_witness :
  let st := @run code_unit_engine (load destinations_document region_buttons (js "name-asc"))
              [Click 1; Respond 0 (FetchResponse 200);
               Respond 0 (BodyParsed (PArray [japan])); Click 2] in
  let st' := @step code_unit_engine st (Respond 1 (FetchResponse 404)) in
  length (destMarkers (script st)) = 1 ∧
  grids (doc (script st')) !! "dest-grid" = Some [] ∧
  destGridNotice st' = Some LoadFailed ∧
  destMarkers (script st') = destMarkers (script st) ∧
  destMap (script st') = destMap (script st) ∧
  currentDisplayedResults st' = currentDisplayedResults st ∧
  contextBound st' = contextBound st ∧
  announcement st' = announcement st ∧
  sortSelect st' = sortSelect st ∧
  filterButtons st' = filterButtons st ∧
  requests st' = delete 1 (requests st).
Proof.
  split; [by vm_compute|].
  apply (@region_failure_keeps_markers code_unit_engine
           (@run code_unit_engine (load destinations_document region_buttons (js "name-asc"))
              [Click 1; Respond 0 (FetchResponse 200);
               Respond 0 (BodyParsed (PArray [japan])); Click 2])
           1 {| region_name := js "Europe"; stage := AwaitFetch |} (FetchResponse 404)).
  - by vm_compute.
  - reflexivity.
Defined.

Lemma stale_region_response_wins_witness :
  let st := load destinations_document region_buttons (js "name-asc") in
  let st' := @run code_unit_engine st
               [Click 1; Click 2;
                Respond 0 (FetchResponse 200); Respond 1 (FetchResponse 200);
                Respond 1 (BodyParsed (PArray [andorra]));
                Respond 0 (BodyParsed (PArray [japan]))] in
  ∃ sorted,
    @sort_by_name code_unit_engine false [japan] = Some sorted ∧
    let shown := if decide (js "Asia" = js "all") then take 30 sorted else sorted in
    grids (doc (script st')) !! "dest-grid" = Some (createCountryCard <$> shown) ∧
    currentDisplayedResults st' = shown ∧
    announcement st' = Some (announceResultsCount (length shown) (js "Asia")) ∧
    filterButtons st' !! 1 = Some (js "Asia", false) ∧
    filterButtons st' !! 2 = Some (js "Europe", true).
Proof.
  apply (@stale_region_response_wins code_unit_engine
           (load destinations_document region_buttons (js "name-asc"))
           1 2 (js "Asia") (js "Europe") false false [japan] [andorra]).
  - eexists. vm_compute. reflexivity.
  - reflexivity.
  - reflexivity.
  - lia.
  - reflexivity.
Defined.

Lemma sort_after_search_shows_region_results_witness :
  let st := @run code_unit_engine (load destinations_document region_buttons (js "name-asc"))
              [Click 1; Respond 0 (FetchResponse 200);
               Respond 0 (BodyParsed (PArray [japan; bouvet_island]));
               Searching (Submit Destinations (js "Andorra"));
               Searching (Settle 0 (FetchResponse 200))] in
  let ev := Settle 0 (BodyParsed (PArray [andorra])) in
  let st' := @run code_unit_engine st [Searching ev; Change (js "pop-desc")] in
  grids (doc (script (@step code_unit_engine st (Searching ev)))) !! "dest-grid"
  = Some [createCountryCard andorra] ∧
  grids (doc (script st')) !! "dest-grid"
  = Some (createCountryCard <$> [japan; bouvet_island]) ∧
  position <$> destMarkers (script st')
  = match destMap (script st) with
    | Some _ => omap coordinates [japan; bouvet_island]
    | None => []
    end ∧
  currentDisplayedResults st' = currentDisplayedResults st ∧
  destGridNotice st' = None ∧
  sortSelect st' = js "pop-desc".
Proof.
  split; [by vm_compute|].
  apply (@sort_after_search_shows_region_results code_unit_engine
           (@run code_unit_engine (load destinations_document region_buttons (js "name-asc"))
              [Click 1; Respond 0 (FetchResponse 200);
               Respond 0 (BodyParsed (PArray [japan; bouvet_island]));
               Searching (Submit Destinations (js "Andorra"));
               Searching (Settle 0 (FetchResponse 200))])
           (Settle 0 (BodyParsed (PArray [andorra]))) (js "pop-desc")
           [japan; bouvet_island]).
  - vm_compute. set_solver.
  - eexists. vm_compute. reflexivity.
  - reflexivity.
  - by vm_compute.
  - by vm_compute.
Defined.

Lemma filters_need_the_destinations_grid_witness :
  let st := @run code_unit_engine (load home_document region_buttons (js "name-asc"))
              [Click 1; Searching (Submit Home (js "Japan")); Change (js "pop-asc");
               Respond 0 FetchRejected] in
  script st = Script.run (Script.load home_document) [Submit Home (js "Japan")] ∧
  currentDisplayedResults st = [] ∧ requests st = ∅ ∧
  destGridNotice st = None ∧ announcement st = None.
Proof.
  apply (@filters_need_the_destinations_grid code_unit_engine home_document region_buttons
           (js "name-asc")
           [Click 1; Searching (Submit Home (js "Japan")); Change (js "pop-asc");
            Respond 0 FetchRejected]).
  reflexivity.
Defined.

(** With an engine whose sort throws on a country without a name, a
    response with such a country among others is a failure. *)
Example nameless_country_fails_the_region :
  @resume code_unit_engine {| region_name := js "Asia"; stage := AwaitBody |}
    (BodyParsed (PArray [japan; no_fields])) = Fails ∧
  @resume code_unit_engine {| region_name := js "Asia"; stage := AwaitBody |}
    (BodyParsed (PArray [no_fields])) = Loaded [no_fields].
Proof. by vm_compute. Qed.

End OnTheDestinationsPage.

(** ** The feedback and its timer *)

Section FeedbackTimer.

Import Timers.

Implicit Types (el : feedback) (ev : event).

Lemma step_due el ev :
  (∀ d, d ∈ due el → (clock el < d <= clock el + 6000)%N) →
  (is_Some (showing el) → due el ≠ []) →
  (∀ d, d ∈ due (step el ev) → (clock (step el ev) < d <= clock (step el ev) + 6000)%N) ∧
  (is_Some (showing (step el ev)) → due (step el ev) ≠ []).
Proof.
  intros Hdue Hshown. destruct ev as [message type|ms]; simpl.
  - split.
    + intros d [Hd| ->%list_elem_of_singleton]%elem_of_app; [by apply Hdue|lia].
    + intros _. by destruct (due el).
  - split.
    + intros d [Hd Hin]%list_elem_of_filter. apply Hdue in Hin. lia.
    + destruct (existsb _ (due el)) eqn:E; [by intros [? ?]|].
      intros Hs. specialize (Hshown Hs).
      destruct (due el) as [|d ds] eqn:Ed; [done|].
      simpl in E. apply orb_false_elim in E as [E _]. apply N.leb_gt in E.
      by rewrite filter_cons_True.
Qed.

Lemma run_due evs : ∀ el,
  (∀ d, d ∈ due el → (clock el < d <= clock el + 6000)%N) →
  (is_Some (showing el) → due el ≠ []) →
  (∀ d, d ∈ due (run el evs) → (clock (run el evs) < d <= clock (run el evs) + 6000)%N) ∧
  (is_Some (showing (run el evs)) → due (run el evs) ≠ []).
Proof.
  induction evs as [|ev evs IH]; intros el H1 H2; [done|].
  destruct (step_due el ev H1 H2). by apply IH.
Qed.

(** Whatever was shown and whenever, a message is on the element only
    while a callback is scheduled for it, and six seconds without a new
    message leave the element empty with nothing scheduled. *)
Theorem feedback_is_hidden_within_six_seconds (history : list event) :
  let el := run quiet history in
  (is_Some (showing el) → due el ≠ []) ∧
  showing (wait 6000 el) = None ∧ due (wait 6000 el) = [].
Proof.
  cbv zeta.
  destruct (run_due history quiet) as [Hdue Hshown].
  { intros d Hd. by apply elem_of_nil in Hd. }
  { by intros [? ?]. }
  split; [done|]. set (el := run quiet history) in *. unfold wait. simpl. split.
  - destruct (due el) as [|d ds] eqn:Ed.
    + simpl. destruct (showing el) eqn:Es; [|done].
      by destruct Hshown.
    + simpl. assert ((d <=? clock el + 6000)%N = true) as ->; [|done].
      apply N.leb_le. apply Hdue. by left.
  - destruct (filter _ (due el)) as [|d ds] eqn:E; [done|].
    assert (Hd : d ∈ filter (λ d, (clock el + 6000 < d)%N) (due el))
      by (rewrite E; by left).
    apply list_elem_of_filter in Hd as [Hlt Hd]. apply Hdue in Hd. lia.
Qed.

(** The callback of a message does not know of the messages after it:
    a message shown less than six seconds after another on the same
    element is removed when the six seconds of the earlier one are over,
    however short a time it has been shown. *)
Theorem earlier_timer_hides_later_message
    (el : feedback) (message1 message2 : jsstring) (type1 type2 : string) (a b : N) :
  (a < 6000)%N → (6000 <= a + b)%N →
  showing (run el [Show message1 type1; Wait a; Show message2 type2]) =
    Some {| notice_text := message2; notice_type := type2 |} ∧
  showing (run el [Show message1 type1; Wait a; Show message2 type2; Wait b]) = None.
Proof.
  intros Ha Hb. split; [done|]. simpl.
  assert (existsb (λ d, d <=? clock el + a + b)%N
            (filter (λ d, (clock el + a < d)%N) (due el ++ [(clock el + 6000)%N])
             ++ [(clock el + a + 6000)%N]) = true) as ->; [|done].
  apply existsb_exists. exists (clock el + 6000)%N. split; [|apply N.leb_le; lia].
  apply list_elem_of_In, elem_of_app. left.
  apply list_elem_of_filter. split; [lia|].
  apply elem_of_app. right. by apply list_elem_of_singleton.
Qed.

Lemma earlier_timer_hides_later_message_witness :
  showing (run quiet [Show msg_unable "error"; Wait 5900; Show msg_no_results "info"]) =
    Some {| notice_text := msg_no_results; notice_type := "info" |} ∧
  showing (run quiet [Show msg_unable "error"; Wait 5900; Show msg_no_results "info";
                      Wait 100]) = None.
Proof.
  apply (earlier_timer_hides_later_message quiet msg_unable msg_no_results "error" "info"
           5900 100); lia.
Defined.

End FeedbackTimer.


(** ** The View on Map button *)

Section ViewOnMap.

Import MapButton.

Lemma step_mainMap_None p ev :
  listening Home (doc p) = false → mainMap p = None → mainMap (step p ev) = None.
Proof.
  intros Hl Hm. destruct ev as [sf value|id s].
  - simpl. destruct sf; [by rewrite Hl|].
    destruct (listening Destinations (doc p)); [|done]. page_cases.
  - unfold step. destruct (pending p !! id) as [c|]; [|done].
    destruct (resume _ _ s) as [| |e]; try done.
    pose proof (leave_display c e (set_pending (delete id (pending p)) p))
      as (Hmain & _ & _ & _ & Hg & _).
    destruct (leave c e (set_pending (delete id (pending p)) p)) as [q countries].
    simpl in Hmain, Hg. rewrite Hm in Hmain. destruct (caller c).
    + unfold searchForm_resume. destruct (0 <? length countries)%nat; [|done].
      rewrite Hmain. destruct (grids (doc q) !! "results-grid") as [old|] eqn:E.
      * by rewrite displayResults_on_grid.
      * by rewrite displayResults_without_grid.
    + unfold destSearchForm_resume, set_dest_display.
      destruct (0 <? length countries)%nat; [|done].
      by destruct (displayResults _ _ _ _ _) as [[? ?] ?].
Qed.

Lemma run_mainMap_None d history :
  listening Home d = false → mainMap (run (load d) history) = None.
Proof.
  intros Hl. unfold run.
  assert (H0 : listening Home (doc (load d)) = false ∧ mainMap (load d) = None) by done.
  revert H0. generalize (load d).
  induction history as [|ev history IH]; intros p [Hp Hm]; [done|].
  simpl. apply IH. split; [|by apply step_mainMap_None].
  rewrite <- Hp. apply listening_elements. apply step_elements.
Qed.

(** A card has the View on Map button exactly when the country has both
    coordinates.  On every page reached, a click on it changes no card
    and no marker and moves one map to the coordinates of the country at
    zoom 5: the home map once it is initialised, whichever grid the card
    is in, and the destinations map otherwise, as on every page without
    the home search form. *)
Theorem view_on_map_flies_the_map_of_the_page
    (d : document) (history : list event) (country : country) :
  let p := run (load d) history in
  let q := click (createCountryCard country) p in
  mapBtn (createCountryCard country) = coordinates country ∧
  ViewState q = ViewState p ∧
  (coordinates country = None → q = p) ∧
  ∀ there, coordinates country = Some there →
    (is_Some (mainMap p) →
       mainMap q = Some {| current_view := SetView there 5 |} ∧ destMap q = destMap p) ∧
    (listening Home d = false → is_Some (destMap p) →
       destMap q = Some {| current_view := SetView there 5 |} ∧ mainMap q = None).
Proof.
  cbv zeta. pose proof (run_mainMap_None d history) as Hnone.
  set (p := run (load d) history) in *.
  assert (Hbtn : mapBtn (createCountryCard country) = coordinates country).
  { unfold mapBtn, createCountryCard, coordinates. cbn [card_lat card_lng].
    by destruct (latlng country) as [[|a [|b rest]]|]. }
  split; [done|]. unfold click. rewrite Hbtn.
  destruct (coordinates country) as [[a b]|]; [|done].
  cbn [lat lng]. unfold flyToCountry.
  split; [|split; [done|]].
  { by destruct (mainMap p), (destMap p). }
  intros there [= <-]. split.
  - intros [m ->]. done.
  - intros Hl [m Hm]. specialize (Hnone Hl). rewrite Hnone, Hm.
    unfold set_dest_display. by cbn [destMap mainMap].
Qed.

Example view_on_map_on_the_destinations_page :
  let d := RegionExamples.destinations_document in
  let p := run (load d) [Submit Destinations (js "Japan"); Settle 0 (FetchResponse 200);
                         Settle 0 (BodyParsed (PArray [japan]))] in
  destMap (click (createCountryCard japan) p)
  = Some {| current_view := SetView {| lat := 36; lng := 138 |} 5 |} ∧
  click (createCountryCard no_fields) p = p.
Proof. by vm_compute. Qed.

End ViewOnMap.

(** ** The heading of the results *)

Section ResultsHeading.

Import Headings.

Implicit Types (h : home).

(** An event that ends no home search with data leaves the results grid
    as it is. *)
Lemma step_results_grid p ev :
  home_results p ev = None →
  grids (doc (Script.step p ev)) !! "results-grid" = grids (doc p) !! "results-grid".
Proof.
  intros Hnone.
  destruct (exit_at p ev) as [[| |data| |]|] eqn:Hexit;
    try (destruct (step_without_data p ev) as (-> & _ & _);
         [intros data'; congruence|done]).
  destruct ev as [|id s]; [done|].
  assert (∃ c, pending p !! id = Some c) as [c Hc].
  { simpl in Hexit. destruct (pending p !! id); [by eexists|done]. }
  pose proof (step_with_data p id s data c Hc Hexit) as [Hstep Hdata].
  unfold home_results in Hnone. unfold exit_at in Hexit. rewrite Hc in Hnone, Hexit.
  destruct (resume _ _ s) as [| |e]; try done. injection Hexit as ->.
  destruct data as [|first rest]; [done|].
  destruct (caller c); [done|]. destruct Hstep as (Heq & _ & _).
  pose proof (displayResults_match (first :: rest) "dest-grid" (destMap p) (destMarkers p)
                (grids (doc p))) as Hm.
  assert (Hsame : (displayResults (first :: rest) "dest-grid" (destMap p) (destMarkers p)
                     (grids (doc p))).1.1 !! "results-grid"
                  = grids (doc p) !! "results-grid").
  { destruct (grids (doc p) !! "dest-grid") as [old|] eqn:E.
    - rewrite displayResults_on_grid by done. cbn [fst snd]. by rewrite lookup_insert_ne.
    - by rewrite displayResults_without_grid. }
  by rewrite <- Heq in Hsame.
Qed.

(** What an event that ends a home search with data shows. *)
Lemma step_home_results p ev query countries :
  home_results p ev = Some (query, countries) →
  countries ≠ [] ∧
  ∀ cards, grids (doc (Script.step p ev)) !! "results-grid" = Some cards →
           cards = createCountryCard <$> countries.
Proof.
  intros Hres. destruct ev as [|id s]; [done|].
  unfold home_results in Hres.
  destruct (pending p !! id) as [c|] eqn:Hc; [|done].
  destruct (resume _ _ s) as [| |[| |[|first rest]| |]] eqn:Er; try done.
  destruct (caller c) eqn:Hcaller; [|done]. injection Hres as <- <-.
  split; [done|].
  assert (Hexit : exit_at p (Settle id s) = Some (Data (first :: rest))).
  { unfold exit_at. by rewrite Hc, Er. }
  pose proof (step_with_data p id s _ c Hc Hexit) as [Hstep _].
  cbv zeta in Hstep. rewrite Hcaller in Hstep. destruct Hstep as (Heq & _ & _).
  revert Heq. generalize (Script.step p (Settle id s)). intros q Heq cards Hcards.
  destruct (grids (doc p) !! "results-grid") as [old|] eqn:E.
  - rewrite displayResults_on_grid in Heq by done. cbv zeta in Heq.
    apply (f_equal (λ x, x.1.1)) in Heq. cbn [fst] in Heq.
    rewrite Heq, lookup_insert_eq in Hcards. congruence.
  - rewrite displayResults_without_grid in Heq by done.
    apply (f_equal (λ x, x.1.1)) in Heq. cbn [fst] in Heq.
    rewrite Heq, E in Hcards. done.
Qed.

Lemma home_results_inv p ev query countries :
  home_results p ev = Some (query, countries) →
  ∃ id c,
    ev = Settle id (BodyParsed (PArray countries)) ∧
    pending p !! id = Some c ∧ caller c = Home ∧ query = Script.query c ∧
    signal_aborted p id = false ∧ countries ≠ [].
Proof.
  destruct ev as [|id s]; [done|]. unfold home_results.
  destruct (pending p !! id) as [c|] eqn:Hc; [|done].
  destruct (signal_aborted p id) eqn:Ha, (awaiting c), s as [|status| |[| |[|first rest]|]];
    simpl; try done;
    try (destruct (ok status); [done|destruct (status =? 404)%Z; done]).
  destruct (caller c) eqn:Hcaller; [|done]. intros [= <- <-].
  by exists id, c.
Qed.

Lemma run_page history : ∀ h,
  page_of (run h history) = Script.run (page_of h) history.
Proof.
  induction history as [|ev history IH]; intros h; [done|].
  simpl. rewrite IH. f_equal. unfold step.
  by destruct (home_results (page_of h) ev) as [[? ?]|].
Qed.

(** The call of a request in flight carries the text and the surface of
    a submit that has happened. *)
Lemma reached_call_submitted d history : ∀ id c,
  pending (Script.run (Script.load d) history) !! id = Some c →
  Submit (caller c) (Script.query c) ∈ history.
Proof.
  induction history as [|ev history IH] using rev_ind; intros id c.
  { simpl. by rewrite lookup_empty. }
  unfold Script.run. rewrite foldl_app. cbn [foldl].
  fold (Script.run (Script.load d) history). set (p := Script.run (Script.load d) history) in *.
  rewrite step_pending. rewrite elem_of_app, list_elem_of_singleton.
  destruct ev as [sf value|id0 s].
  - destruct (listening sf (doc p) && valid (validateSearchInput value));
      [|intros Hc; left; by apply (IH id)].
    destruct (decide (length (controllers p) = id)) as [<-|Hne].
    + rewrite lookup_insert_eq. intros [= <-]. by right.
    + rewrite lookup_insert_ne by done. intros Hc. left. by apply (IH id).
  - destruct (pending p !! id0) as [c0|] eqn:E0; [|intros Hc; left; by apply (IH id)].
    destruct (resume _ _ s); [intros Hc; left; by apply (IH id)| |].
    + destruct (decide (id0 = id)) as [->|Hne].
      * rewrite lookup_insert_eq. intros [= <-]. left. by apply (IH id c0).
      * rewrite lookup_insert_ne by done. intros Hc. left. by apply (IH id).
    + destruct (decide (id0 = id)) as [->|Hne].
      * by rewrite lookup_delete_eq.
      * rewrite lookup_delete_ne by done. intros Hc. left. by apply (IH id).
Qed.

Lemma heading_of_the_search_shown d history :
  ∀ text, resultsCount (run (load d) history) = Some text →
    "results-count" ∈ elements d ∧
    ∃ before id c countries after,
      history = before ++ Settle id (BodyParsed (PArray countries)) :: after ∧
      pending (Script.run (Script.load d) before) !! id = Some c ∧
      caller c = Home ∧ countries ≠ [] ∧
      text = count_text (length countries) ∧
      (∀ cards, grids (doc (page_of (run (load d) history))) !! "results-grid" = Some cards →
                cards = createCountryCard <$> countries) ∧
      ("results-title" ∈ elements d →
       resultsTitle (run (load d) history) = Some (title_text (Script.query c))).
Proof.
  induction history as [|ev history IH] using rev_ind; [done|].
  unfold run. rewrite foldl_app. cbn [foldl]. fold (run (load d) history).
  set (h := run (load d) history) in *.
  assert (Hpage : page_of h = Script.run (Script.load d) history) by apply run_page.
  assert (Hel : elements (doc (page_of h)) = elements d) by (by rewrite Hpage, run_elements).
  unfold step.
  destruct (home_results (page_of h) ev) as [[query countries]|] eqn:Hres;
    cbn [page_of resultsCount resultsTitle].
  - destruct (step_home_results _ _ _ _ Hres) as [Hne Hcards].
    destruct (home_results_inv _ _ _ _ Hres) as (id & c & -> & Hc & Hhome & -> & _ & _).
    rewrite Hel.
    destruct (decide ("results-count" ∈ elements d)) as [Hcount|Hcount].
    + intros text [= <-]. split; [done|].
      exists history, id, c, countries, []. rewrite <- Hpage.
      split_and!; try done. intros Htitle. by rewrite decide_True.
    + intros text Htext. by destruct (IH text Htext) as [? _].
  - intros text Htext.
    destruct (IH text Htext)
      as (? & before & id & c & countries & after & -> & H1 & H2 & H3 & H4 & H5 & H6).
    split; [done|]. exists before, id, c, countries, (after ++ [ev]).
    split; [by rewrite <- app_assoc|]. split_and!; try done.
    intros cards. rewrite step_results_grid by done. apply H5.
Qed.

(** On every page reached by the searches, a count in the heading of
    the results belongs to one settlement of the history, the body of a
    home search arriving as a non-empty array: the count is the number
    of its countries, in the singular for one; the cards of the results
    grid are the cards of these countries; and the title beside the
    count names the trimmed text that was submitted for this very
    search. *)
Theorem heading_counts_the_cards_shown
    (d : document) (history : list Script.event) (text : jsstring) :
  let h := run (load d) history in
  resultsCount h = Some text →
  ∃ before id c countries after,
    history = before ++ Settle id (BodyParsed (PArray countries)) :: after ∧
    pending (Script.run (Script.load d) before) !! id = Some c ∧
    caller c = Home ∧
    Submit Home (Script.query c) ∈ before ∧
    countries ≠ [] ∧
    text = count_text (length countries) ∧
    (∀ cards, grids (doc (page_of h)) !! "results-grid" = Some cards →
              cards = createCountryCard <$> countries) ∧
    ("results-title" ∈ elements d →
     resultsTitle h = Some (title_text (Script.query c))).
Proof.
  cbv zeta. intros Htext.
  destruct (heading_of_the_search_shown d history text Htext)
    as (_ & before & id & c & countries & after & -> & H1 & H2 & H3 & H4 & H5 & H6).
  exists before, id, c, countries, after. split_and!; try done.
  rewrite <- H2. by apply (reached_call_submitted d before id c).
Qed.

Lemma heading_counts_the_cards_shown_witness :
  let history := [Submit Home (js " Japan "); Settle 0 (FetchResponse 200);
                  Settle 0 (BodyParsed (PArray [japan]))] in
  let h := run (load home_document_with_heading) history in
  resultsCount h = Some (js "1 destination found") ∧
  ∃ before id c countries after,
    history = before ++ Settle id (BodyParsed (PArray countries)) :: after ∧
    pending (Script.run (Script.load home_document_with_heading) before) !! id = Some c ∧
    caller c = Home ∧
    Submit Home (Script.query c) ∈ before ∧
    countries ≠ [] ∧
    js "1 destination found" = count_text (length countries) ∧
    (∀ cards, grids (doc (page_of h)) !! "results-grid" = Some cards →
              cards = createCountryCard <$> countries) ∧
    ("results-title" ∈ elements home_document_with_heading →
     resultsTitle h = Some (title_text (Script.query c))).
Proof.
  split; [by vm_compute|].
  apply (heading_counts_the_cards_shown home_document_with_heading
           [Submit Home (js " Japan "); Settle 0 (FetchResponse 200);
            Settle 0 (BodyParsed (PArray [japan]))] (js "1 destination found")).
  by vm_compute.
Defined.

Example heading_of_two_results :
  let h := run (load home_document_with_heading)
             [Submit Home (js " united "); Settle 0 (FetchResponse 200);
              Settle 0 (BodyParsed (PArray [japan; bouvet_island]))] in
  resultsCount h = Some (js "2 destinations found") ∧
  resultsTitle h = Some (js "Results for " ++ [34%N] ++ js "united" ++ [34%N]).
Proof. by vm_compute. Qed.

End ResultsHeading.
